(** * email_gen: the interview question scripts

    A shallow embedding of the two question-and-answer scripts
    [mainswapnil.py] and [mainswapnil1.py], of the job-details clean-up of
    [main.py], and of the part of Python's [json] package they call:
    [json.loads] ([json/decoder.py], [json/scanner.py]) and [json.dumps]
    ([json/encoder.py]), read as CPython runs them, with the accelerated
    scanner's ASCII digits and strict hexadecimal escapes.

    A Python [str] is a sequence of code points; a code point is an [N].
    Decoded JSON values are the Python values [json.loads] builds.  Kept
    outside the embedding: floating-point values (a float is the text of
    its literal), the interpreter's recursion limit and its limit on the
    number of digits of an integer literal, and Streamlit's own widget
    state. *)

From Stdlib Require Import List NArith ZArith Bool Lia String Ascii.
From Stdlib Require DecimalString DecimalPos DecimalZ.
Import ListNotations.

Set Implicit Arguments.
Set Warnings "-register-all,-notation-for-abbreviation".

(** ** Python strings *)

Notation char := N (only parsing).
Definition pystr := list char.

(** A literal of the embedding: the code points of an ASCII text. *)
Definition lit (s : string) : pystr :=
  List.map N_of_ascii (list_ascii_of_string s).

(** [sys.maxunicode + 1]: every character of a [str] is below it. *)
Definition MAXUNICODE1 : N := 0x110000.

Definition is_high_surrogate (c : char) : bool :=
  ((0xd800 <=? c) && (c <=? 0xdbff))%N.

Definition is_low_surrogate (c : char) : bool :=
  ((0xdc00 <=? c) && (c <=? 0xdfff))%N.

(** The strings a [str] object can hold. *)
Definition str_ok (s : pystr) : Prop := Forall (fun c => (c < MAXUNICODE1)%N) s.

(** No high surrogate code point is directly followed by a low one: true of
    every text that has a UTF-8 encoding, where no surrogate occurs at all. *)
Fixpoint no_surrogate_pair (s : pystr) : bool :=
  match s with
  | [] => true
  | c :: r =>
      match r with
      | [] => true
      | d :: _ => negb (is_high_surrogate c && is_low_surrogate d)
                  && no_surrogate_pair r
      end
  end.

Definition no_surrogates (s : pystr) : bool :=
  forallb (fun c => negb (is_high_surrogate c) && negb (is_low_surrogate c)) s.

(** ** json.decoder *)

Module Json.

(** The values [json.loads] returns.  A float is kept as the text of its
  literal: no claim depends on floating-point arithmetic.  A [dict] keeps
  its items in insertion order, keys unique. *)
Inductive pyval : Type :=
| PNone
| PBool (b : bool)
| PInt (z : Z)
| PFloat (lexeme : pystr)
| PStr (s : pystr)
| PList (l : list pyval)
| PDict (d : list (pystr * pyval)).

Definition pystr_eqb (a b : pystr) : bool :=
if list_eq_dec N.eq_dec a b then true else false.

(** [d[k] = v] on an insertion-ordered dict: an existing key keeps its
  place and takes the new value, a new key goes last. *)
Fixpoint dict_set (d : list (pystr * pyval)) (k : pystr) (v : pyval)
: list (pystr * pyval) :=
match d with
| [] => [(k, v)]
| (k', v') :: r =>
    if pystr_eqb k' k then (k', v) :: r else (k', v') :: dict_set r k v
end.

(** [dict(pairs)]. *)
Definition dict_of_pairs (pairs : list (pystr * pyval)) : list (pystr * pyval) :=
fold_left (fun d kv => dict_set d (fst kv) (snd kv)) pairs [].

(** [list(d.values())]. *)
Definition dict_values (d : list (pystr * pyval)) : list pyval := List.map snd d.

(** [WHITESPACE = re.compile(r'[ \t\n\r]*')]. *)
Definition is_ws (c : char) : bool :=
((c =? 32) || (c =? 9) || (c =? 10) || (c =? 13))%N.

Fixpoint skip_ws (s : pystr) : pystr :=
match s with
| [] => []
| c :: r => if is_ws c then skip_ws r else s
end.

(** One hexadecimal digit, as the accelerated scanner reads it. *)
Definition hex_val (c : char) : option N :=
if ((48 <=? c) && (c <=? 57))%N then Some (c - 48)%N
else if ((97 <=? c) && (c <=? 102))%N then Some (c - 87)%N
else if ((65 <=? c) && (c <=? 70))%N then Some (c - 55)%N
else None.

(** [_decode_uXXXX] on the four characters after the [u]. *)
Definition hex4 (a b c d : char) : option N :=
match hex_val a, hex_val b, hex_val c, hex_val d with
| Some x, Some y, Some z, Some w => Some (((x * 16 + y) * 16 + z) * 16 + w)%N
| _, _, _, _ => None
end.

(** [BACKSLASH]: the one-character escapes. *)
Definition BACKSLASH (e : char) : option char :=
if (e =? 34)%N then Some 34%N            (* quote *)
else if (e =? 92)%N then Some 92%N       (* backslash *)
else if (e =? 47)%N then Some 47%N       (* slash *)
else if (e =? 98)%N then Some 8%N        (* b *)
else if (e =? 102)%N then Some 12%N      (* f *)
else if (e =? 110)%N then Some 10%N      (* n *)
else if (e =? 114)%N then Some 13%N      (* r *)
else if (e =? 116)%N then Some 9%N       (* t *)
else None.

Definition join_surrogates (uni uni2 : N) : N :=
(0x10000 + N.lor (N.shiftl (uni - 0xd800) 10) (uni2 - 0xdc00))%N.

Definition cons_chr (c : char) (r : option (pystr * pystr))
: option (pystr * pystr) :=
match r with
| Some (t, rest) => Some (c :: t, rest)
| None => None
end.

(** [scanstring(s, end)] in strict mode, on the text after the opening
  quote: the decoded string and the text after the closing quote, or
  [None] where a [JSONDecodeError] is raised. *)
Fixpoint scanstring (s : pystr) : option (pystr * pystr) :=
match s with
| [] => None
| c :: r =>
    if (c =? 34)%N then Some ([], r)
    else if (c =? 92)%N then
      match r with
      | [] => None
      | e :: r1 =>
          if (e =? 117)%N then
            match r1 with
            | a :: b :: c1 :: d :: r2 =>
                match hex4 a b c1 d with
                | None => None
                | Some uni =>
                    if is_high_surrogate uni then
                      match r2 with
                      | x :: y :: r3 =>
                          if ((x =? 92) && (y =? 117))%N then
                            match r3 with
                            | a2 :: b2 :: c2 :: d2 :: r4 =>
                                match hex4 a2 b2 c2 d2 with
                                | None => None
                                | Some uni2 =>
                                    if is_low_surrogate uni2
                                    then cons_chr (join_surrogates uni uni2)
                                                  (scanstring r4)
                                    else cons_chr uni (scanstring r2)
                                end
                            | _ => None
                            end
                          else cons_chr uni (scanstring r2)
                      | _ => cons_chr uni (scanstring r2)
                      end
                    else cons_chr uni (scanstring r2)
                end
            | _ => None
            end
          else
            match BACKSLASH e with
            | Some ch => cons_chr ch (scanstring r1)
            | None => None
            end
      end
    else if (c <? 32)%N then None
    else cons_chr c (scanstring r)
end.

(** *** Numbers: [NUMBER_RE] with ASCII digits *)

Definition is_digit (c : char) : bool := ((48 <=? c) && (c <=? 57))%N.

(** The longest prefix of digits, and what follows it. *)
Fixpoint span_digits (s : pystr) : pystr * pystr :=
match s with
| [] => ([], [])
| c :: r =>
    if is_digit c then let (ds, rest) := span_digits r in (c :: ds, rest)
    else ([], s)
end.

(** [int(text)] on a run of ASCII digits. *)
Definition int_of_digits (ds : pystr) : Z :=
fold_left (fun acc c => (acc * 10 + Z.of_N (c - 48))%Z) ds 0%Z.

(** The integer part, without its sign: a lone zero, or a nonzero digit
  and the digits after it.  Its text and what follows. *)
Definition match_integer (s : pystr) : option (pystr * pystr) :=
match s with
| [] => None
| c :: r =>
    if (c =? 48)%N then Some ([c], r)
    else if is_digit c then let (ds, rest) := span_digits r in Some (c :: ds, rest)
    else None
end.

(** The optional fraction: a dot and at least one digit. *)
Definition match_frac (s : pystr) : pystr * pystr :=
match s with
| c :: r =>
    if (c =? 46)%N then
      match span_digits r with
      | ([], _) => ([], s)
      | (ds, rest) => (c :: ds, rest)
      end
    else ([], s)
| [] => ([], s)
end.

(** The optional exponent: [e] or [E], an optional sign, at least one
  digit. *)
Definition match_exp (s : pystr) : pystr * pystr :=
match s with
| c :: r =>
    if ((c =? 101) || (c =? 69))%N then
      match r with
      | g :: r1 =>
          if ((g =? 45) || (g =? 43))%N then
            match span_digits r1 with
            | ([], _) => ([], s)
            | (ds, rest) => (c :: g :: ds, rest)
            end
          else
            match span_digits r with
            | ([], _) => ([], s)
            | (ds, rest) => (c :: ds, rest)
            end
      | [] => ([], s)
      end
    else ([], s)
| [] => ([], s)
end.

(** [match_number]: an [int] when there is neither fraction nor exponent,
  a [float] otherwise. *)
Definition match_number (s : pystr) : option (pyval * pystr) :=
let (neg, s1) :=
  match s with
  | c :: r => if (c =? 45)%N then (true, r) else (false, s)
  | [] => (false, s)
  end in
match match_integer s1 with
| None => None
| Some (ip, s2) =>
    let (fp, s3) := match_frac s2 in
    let (ep, s4) := match_exp s3 in
    match fp, ep with
    | [], [] =>
        Some (PInt (if neg then (- int_of_digits ip)%Z else int_of_digits ip), s4)
    | _, _ =>
        Some (PFloat ((if neg then [45%N] else []) ++ ip ++ fp ++ ep), s4)
    end
end.

(** [string[idx:idx + len(w)] == w]: the text after [w], when [s] starts
  with it. *)
Fixpoint strip_prefix (w s : pystr) : option pystr :=
match w with
| [] => Some s
| a :: w' =>
    match s with
    | [] => None
    | c :: r => if (a =? c)%N then strip_prefix w' r else None
    end
end.

(** *** The scanner

  [scan_once], [JSONArray] and [JSONObject] call each other; [fuel] bounds
  the calls, and [2 * len(s) + 1] is always enough (see
  [scan_once_fuel]). *)
Fixpoint scan_once (fuel : nat) (s : pystr) {struct fuel}
: option (pyval * pystr) :=
match fuel with
| O => None
| S f =>
    match s with
    | [] => None
    | c :: r =>
        if (c =? 34)%N then
          match scanstring r with
          | Some (t, rest) => Some (PStr t, rest)
          | None => None
          end
        else if (c =? 123)%N then
          let r1 := skip_ws r in
          match r1 with
          | c1 :: r2 =>
              if (c1 =? 125)%N then Some (PDict [], r2)
              else if (c1 =? 34)%N then
                match object_loop f r2 [] with
                | Some (pairs, rest) => Some (PDict (dict_of_pairs pairs), rest)
                | None => None
                end
              else None
          | [] => None
          end
        else if (c =? 91)%N then
          let r1 := skip_ws r in
          match r1 with
          | c1 :: r2 =>
              if (c1 =? 93)%N then Some (PList [], r2)
              else
                match array_loop f r1 [] with
                | Some (values, rest) => Some (PList values, rest)
                | None => None
                end
          | [] => None
          end
        else
          match strip_prefix (lit "null") s with
          | Some rest => Some (PNone, rest)
          | None =>
          match strip_prefix (lit "true") s with
          | Some rest => Some (PBool true, rest)
          | None =>
          match strip_prefix (lit "false") s with
          | Some rest => Some (PBool false, rest)
          | None =>
          match match_number s with
          | Some res => Some res
          | None =>
          match strip_prefix (lit "NaN") s with
          | Some rest => Some (PFloat (lit "NaN"), rest)
          | None =>
          match strip_prefix (lit "Infinity") s with
          | Some rest => Some (PFloat (lit "Infinity"), rest)
          | None =>
          match strip_prefix (lit "-Infinity") s with
          | Some rest => Some (PFloat (lit "-Infinity"), rest)
          | None => None
          end end end end end end end
    end
end

(** The loop of [JSONArray], entered at the start of a value. *)
with array_loop (fuel : nat) (s : pystr) (values : list pyval) {struct fuel}
: option (list pyval * pystr) :=
match fuel with
| O => None
| S f =>
    match scan_once f s with
    | None => None
    | Some (value, rest) =>
        let values' := values ++ [value] in
        match skip_ws rest with
        | c :: r =>
            if (c =? 93)%N then Some (values', r)
            else if (c =? 44)%N then array_loop f (skip_ws r) values'
            else None
        | [] => None
        end
    end
end

(** The loop of [JSONObject], entered after the opening quote of a key. *)
with object_loop (fuel : nat) (s : pystr) (pairs : list (pystr * pyval))
{struct fuel} : option (list (pystr * pyval) * pystr) :=
match fuel with
| O => None
| S f =>
    match scanstring s with
    | None => None
    | Some (key, rest) =>
        match skip_ws rest with
        | c :: r =>
            if (c =? 58)%N then
              match scan_once f (skip_ws r) with
              | None => None
              | Some (value, rest1) =>
                  let pairs' := pairs ++ [(key, value)] in
                  match skip_ws rest1 with
                  | c1 :: r1 =>
                      if (c1 =? 125)%N then Some (pairs', r1)
                      else if (c1 =? 44)%N then
                        match skip_ws r1 with
                        | c2 :: r2 =>
                            if (c2 =? 34)%N then object_loop f r2 pairs'
                            else None
                        | [] => None
                        end
                      else None
                  | [] => None
                  end
              end
            else None
        | [] => None
        end
    end
end.

(** [JSONDecoder.decode]: leading white space, one value, trailing white
  space, and nothing else. *)
Definition decode (s : pystr) : option pyval :=
match scan_once (2 * List.length s + 1) (skip_ws s) with
| Some (obj, rest) =>
    match skip_ws rest with
    | [] => Some obj
    | _ :: _ => None
    end
| None => None
end.

(** [json.loads(s)] for a [str]: [None] where it raises [JSONDecodeError]. *)
Definition loads (s : pystr) : option pyval :=
match s with
| c :: _ => if (c =? 0xfeff)%N then None else decode s
| [] => decode s
end.

(** ** json.encoder *)

Definition hex_digit (n : N) : char :=
if (n <? 10)%N then (48 + n)%N else (87 + n)%N.

(** ['{0:04x}'.format(n)] for [n < 0x10000]. *)
Definition hex4_of (n : N) : pystr :=
[hex_digit (N.shiftr n 12 mod 16); hex_digit (N.shiftr n 8 mod 16);
 hex_digit (N.shiftr n 4 mod 16); hex_digit (n mod 16)]%N.

(** [replace] of [py_encode_basestring_ascii]: what one character becomes.
  [ESCAPE_ASCII] leaves the characters from space to tilde alone, apart
  from the quote and the backslash. *)
Definition escape_char (c : char) : pystr :=
if (c =? 92)%N then [92; 92]%N
else if (c =? 34)%N then [92; 34]%N
else if (c =? 8)%N then [92; 98]%N
else if (c =? 12)%N then [92; 102]%N
else if (c =? 10)%N then [92; 110]%N
else if (c =? 13)%N then [92; 114]%N
else if (c =? 9)%N then [92; 116]%N
else if ((32 <=? c) && (c <=? 126))%N then [c]
else if (c <? 0x10000)%N then [92; 117]%N ++ hex4_of c
else
  let n := (c - 0x10000)%N in
  let s1 := N.lor 0xd800 (N.land (N.shiftr n 10) 0x3ff) in
  let s2 := N.lor 0xdc00 (N.land n 0x3ff) in
  [92; 117]%N ++ hex4_of s1 ++ [92; 117]%N ++ hex4_of s2.

Definition escape (s : pystr) : pystr := flat_map escape_char s.

Definition encode_basestring_ascii (s : pystr) : pystr :=
[34%N] ++ escape s ++ [34%N].

(** [int.__repr__]. *)
Definition intstr (z : Z) : pystr :=
lit (DecimalString.NilZero.string_of_int (Z.to_int z)).

(** [sep.join(chunks)]. *)
Fixpoint join (sep : pystr) (chunks : list pystr) : pystr :=
match chunks with
| [] => []
| [c] => c
| c :: r => c ++ sep ++ join sep r
end.

Section Encoder.

(** [floatstr] of the float a literal denotes: [float.__repr__] and the
  three special names.  Floating point is outside the embedding. *)
Variable floatstr : pystr -> pystr.

(** The [indent] argument: [None], or a number of spaces per level. *)
Variable indent : option nat.

Definition item_separator : pystr :=
match indent with None => lit ", " | Some _ => lit "," end.

Definition key_separator : pystr := lit ": ".

(** ['\n' + _indent * level], or nothing without [indent]. *)
Definition newline_indent (level : nat) : pystr :=
match indent with
| None => []
| Some n => 10%N :: repeat 32%N (n * level)
end.

(** [_iterencode], its chunks joined. *)
Fixpoint iterencode (o : pyval) (level : nat) {struct o} : pystr :=
match o with
| PStr s => encode_basestring_ascii s
| PNone => lit "null"
| PBool true => lit "true"
| PBool false => lit "false"
| PInt z => intstr z
| PFloat l => floatstr l
| PList [] => lit "[]"
| PList lst =>
    [91%N] ++ newline_indent (S level)
    ++ join (item_separator ++ newline_indent (S level))
            (List.map (fun value => iterencode value (S level)) lst)
    ++ newline_indent level ++ [93%N]
| PDict [] => lit "{}"
| PDict dct =>
    [123%N] ++ newline_indent (S level)
    ++ join (item_separator ++ newline_indent (S level))
            (List.map (fun kv =>
                         match kv with
                         | (key, value) =>
                             encode_basestring_ascii key ++ key_separator
                             ++ iterencode value (S level)
                         end) dct)
    ++ newline_indent level ++ [125%N]
end.

(** [json.dumps(o, indent=indent)]. *)
Definition dumps (o : pyval) : pystr := iterencode o 0.

End Encoder.

End Json.

Import Json.

(** ** main.py: the job-details clean-up *)

Module Main.

Definition is_opener (c : char) : bool := ((c =? 91) || (c =? 123))%N.
Definition is_closer (c : char) : bool := ((c =? 93) || (c =? 125))%N.

(** The greedy tail of the pattern, [.*] and then a closing bracket or
    brace, in [re.DOTALL] mode: the longest prefix ending in a closer. *)
Fixpoint upto_last_closer (s : pystr) : option pystr :=
  match s with
  | [] => None
  | c :: r =>
      match upto_last_closer r with
      | Some p => Some (c :: p)
      | None => if is_closer c then Some [c] else None
      end
  end.

(** [re.search] of an opener, anything, a closer: the first start position
    with a match, and [group(0)] there. *)
Fixpoint json_match (content : pystr) : option pystr :=
  match content with
  | [] => None
  | c :: r =>
      if is_opener c then
        match upto_last_closer r with
        | Some p => Some (c :: p)
        | None => json_match r
        end
      else json_match r
  end.

Definition json_str (content : pystr) : pystr :=
  match json_match content with
  | Some m => m
  | None => content
  end.

(** [job_details = json.loads(json_str)]; [None] where the script reports
    the parsing error and shows [content]. *)
Definition job_details (content : pystr) : option pyval :=
  loads (json_str content).

End Main.

(** ** The session state and the pieces both question scripts share *)

(** The exceptions the parsing block can raise.  A [JSONDecodeError]
    keeps the document it was raised on in its [doc] attribute. *)
Inductive Exn : Type :=
| JSONDecodeError (doc : pystr)
| ValueError (msg : pystr).

(** [str(exc)], what an f-string shows of an exception: the message of a
    [ValueError]; for a [JSONDecodeError] the decoder's message with the
    line, the column and the index where decoding stopped, whose wording
    is outside the embedding. *)
Inductive ExnText : Type :=
| decoder_diagnostic
| exc_message (msg : pystr).

Definition str_exc (exc : Exn) : ExnText :=
  match exc with
  | JSONDecodeError _ => decoder_diagnostic
  | ValueError msg => exc_message msg
  end.

(** [st.session_state]: the three keys the scripts keep. *)
Record Session : Type := mkSession {
  questions : list pyval;
  answers : list pyval;
  idx : nat
}.

(** Session defaults: the three [setdefault] calls on a new session. *)
Definition session_defaults : Session := mkSession [] [] 0.

(** The dict a submitted answer is stored as. *)
Definition qa_dict (question : pyval) (answer : pystr) : pyval :=
  PDict [(lit "question", question); (lit "answer", PStr answer)].

(** [d.get(k)] on a decoded value. *)
Definition dict_get (k : pystr) (d : pyval) : option pyval :=
  match d with
  | PDict items =>
      match find (fun kv => pystr_eqb (fst kv) k) items with
      | Some kv => Some (snd kv)
      | None => None
      end
  | _ => None
  end.

(** What the form did in this run of the script. *)
Inductive Form : Type :=
| NotSubmitted
| Halted (message : pystr)   (* a check or a fetch before the LLM call failed *)
| Reply (raw : pystr).       (* the chain returned [raw] *)

(** The widget values of one run. *)
Record Widgets : Type := mkWidgets {
  form : Form;
  answer_text : pystr;        (* the value of the text area *)
  submit_clicked : bool       (* the value of the Submit Answer button *)
}.

Definition idle : Widgets := mkWidgets NotSubmitted [] false.

(** What a run puts on the page. *)
Inductive Element : Type :=
| st_error (text : pystr) (exc : option ExnText)
| st_subheader (text : pystr)
| st_write (value : pyval)
| st_text_area (label key : pystr)
| st_button (label : pystr)
| st_success (text : pystr)
| st_info (text : pystr)
| st_warning (text : pystr)
| st_download_button (label data file_name mime : pystr).

(** How a run ends. *)
Inductive Control : Type :=
| Done      (* the script reached its end *)
| Stop      (* [st.stop()] *)
| Rerun     (* [st.rerun()] or [st.experimental_rerun()] *)
| Raised.   (* an exception left the script *)

Definition Outcome : Type := Session * list Element * Control.

(** Store state: the three assignments after a successful parse. *)
Definition store_state (qs : list pyval) (st : Session) : Session :=
  mkSession qs [] 0.

(** The Submit Answer handler: one [append], one [idx += 1]. *)
Definition submit_handler (question : pyval) (answer : pystr) (st : Session)
  : Session :=
  mkSession (questions st) (answers st ++ [qa_dict question answer]) (S (idx st)).

(** The three ways through the Q&A block, as its two tests decide. *)
Inductive Phase : Type :=
| NoQuestions   (* the outer test fails: nothing is shown *)
| InProgress    (* [i < len(questions)]: the current question is shown *)
| Completed.    (* the [else] branch: all questions answered *)

Definition phase (st : Session) : Phase :=
  match questions st with
  | [] => NoQuestions
  | _ :: _ => if idx st <? List.length (questions st) then InProgress else Completed
  end.

(** The JSON download: [json.dumps(st.session_state.answers, indent=2)]. *)
Definition export_json (floatstr : pystr -> pystr) (st : Session) : pystr :=
  dumps floatstr (Some 2) (PList (answers st)).

(** ** mainswapnil.py *)

Module Mainswapnil.

(** The [try] block after the LLM call. *)
Definition parse_questions (raw : pystr) : Exn + list pyval :=
  match loads raw with
  | None => inl (JSONDecodeError raw)
  | Some qs =>
      let qs := match qs with
                | PDict d => PList (dict_values d)
                | _ => qs
                end in
      match qs with
      | PList l => inr l
      | _ => inl (ValueError (lit "Parsed JSON is not a list of questions."))
      end
  end.

Section Script.

Variable floatstr : pystr -> pystr.

(** The Q&A loop. *)
Definition qa_loop (w : Widgets) (st : Session) : Outcome :=
  match questions st with
  | [] => (st, [], Done)
  | _ :: _ =>
      let i := idx st in
      if i <? List.length (questions st) then
        let question := nth i (questions st) PNone in
        let shown :=
          [st_subheader (lit "Question " ++ intstr (Z.of_nat (i + 1)));
           st_write question;
           st_text_area (lit "Your Answer") (lit "ans_" ++ intstr (Z.of_nat i));
           st_button (lit "Submit Answer")] in
        if submit_clicked w
        then (submit_handler question (answer_text w) st, shown, Rerun)
        else (st, shown, Done)
      else
        (st,
         [st_success (lit "All questions answered.");
          st_write (PList (answers st));
          st_download_button (lit "Download Q&A JSON") (export_json floatstr st)
                             (lit "qa.json") (lit "application/json")],
         Done)
  end.

(** One run of the script. *)
Definition script (w : Widgets) (st : Session) : Outcome :=
  match form w with
  | NotSubmitted => qa_loop w st
  | Halted message => (st, [st_error message None], Stop)
  | Reply raw =>
      match parse_questions raw with
      | inl exc =>
          (st,
           [st_error (lit "Failed to parse questions from LLM response: ")
                     (Some (str_exc exc))],
           Stop)
      | inr qs => qa_loop w (store_state qs st)
      end
  end.

(** A user action and the rerun it may ask for: the page as the user
    sees it next. *)
Definition interact (w : Widgets) (st : Session) : Outcome :=
  match script w st with
  | (st', _, Rerun) => script idle st'
  | out => out
  end.

End Script.

End Mainswapnil.

(** ** mainswapnil1.py *)

Module Mainswapnil1.

Definition parse_questions (raw : pystr) : Exn + list pyval :=
  match loads raw with
  | None => inl (JSONDecodeError raw)
  | Some (PList l) => inr l
  | Some _ =>
      inl (ValueError (lit "LLM did not return a JSON array of questions."))
  end.

Section Script.

Variable floatstr : pystr -> pystr.

(** The optional PDF generator: [None] when [fpdf] is not installed,
    else the bytes it renders for the answers, or [None] where the
    rendering or the [latin-1] encoding raises. *)
Variable FPDF : option (list pyval -> option pystr).

Definition qa_loop (w : Widgets) (st : Session) : Outcome :=
  match questions st with
  | [] => (st, [], Done)
  | _ :: _ =>
      let i := idx st in
      if i <? List.length (questions st) then
        let q := nth i (questions st) PNone in
        let shown :=
          [st_subheader (lit "Question " ++ intstr (Z.of_nat (i + 1)));
           st_write q;
           st_text_area (lit "Your Answer") (lit "ans_" ++ intstr (Z.of_nat i));
           st_button (lit "Submit Answer")] in
        if submit_clicked w
        then (submit_handler q (answer_text w) st, shown, Rerun)
        else (st, shown, Done)
      else
        let head :=
          [st_success (lit "All questions answered. Thank you!");
           st_info (lit "You can download your responses below.")] in
        let json_button :=
          st_download_button (lit "Download Q&A JSON") (export_json floatstr st)
                             (lit "qa.json") (lit "application/json") in
        match FPDF with
        | Some render =>
            match render (answers st) with
            | Some pdf_bytes =>
                (st,
                 head ++ [st_download_button (lit "Download Q&A PDF") pdf_bytes
                            (lit "qa.pdf") (lit "application/pdf");
                          json_button],
                 Done)
            | None => (st, head, Raised)
            end
        | None =>
            (st,
             head ++ [st_warning (lit "Install the 'fpdf' package to enable PDF downloads (pip install fpdf).");
                      json_button],
             Done)
        end
  end.

Definition script (w : Widgets) (st : Session) : Outcome :=
  match form w with
  | NotSubmitted => qa_loop w st
  | Halted message => (st, [st_error message None], Stop)
  | Reply raw =>
      match parse_questions raw with
      | inl exc =>
          (st,
           [st_error (lit "Failed to generate questions: ") (Some (str_exc exc))],
           Stop)
      | inr qs => qa_loop w (store_state qs st)
      end
  end.

Definition interact (w : Widgets) (st : Session) : Outcome :=
  match script w st with
  | (st', _, Rerun) => script idle st'
  | out => out
  end.

End Script.

End Mainswapnil1.

(** ** Methods of [str] the scripts call *)

Module Str.

(** [c.isspace()], which is also what [strip] removes. *)
Definition isspace (c : char) : bool :=
  (((0x09 <=? c) && (c <=? 0x0d)) || ((0x1c <=? c) && (c <=? 0x20))
   || (c =? 0x85) || (c =? 0xa0) || (c =? 0x1680)
   || ((0x2000 <=? c) && (c <=? 0x200a))
   || (c =? 0x2028) || (c =? 0x2029) || (c =? 0x202f) || (c =? 0x205f)
   || (c =? 0x3000))%N.

(** [s.lstrip()]. *)
Fixpoint lstrip (s : pystr) : pystr :=
  match s with
  | [] => []
  | c :: r => if isspace c then lstrip r else s
  end.

(** [s.rstrip()]. *)
Fixpoint rstrip (s : pystr) : pystr :=
  match s with
  | [] => []
  | c :: r =>
      match rstrip r with
      | [] => if isspace c then [] else [c]
      | r' => c :: r'
      end
  end.

(** [s.strip()]. *)
Definition strip (s : pystr) : pystr := lstrip (rstrip s).

(** [s.rstrip(c)] for a one-character argument. *)
Fixpoint rstrip_char (x : char) (s : pystr) : pystr :=
  match s with
  | [] => []
  | c :: r =>
      match rstrip_char x r with
      | [] => if (c =? x)%N then [] else [c]
      | r' => c :: r'
      end
  end.

(** [x in s] for a one-character [x]. *)
Definition contains (x : char) (s : pystr) : bool :=
  existsb (fun c => (c =? x)%N) s.

(** [s.startswith(x)] for a one-character [x]. *)
Definition startswith (x : char) (s : pystr) : bool :=
  match s with
  | c :: _ => (c =? x)%N
  | [] => false
  end.

(** [s.split(sep)] for a one-character separator. *)
Fixpoint split (sep : char) (s : pystr) : list pystr :=
  match s with
  | [] => [[]]
  | c :: r =>
      if (c =? sep)%N then [] :: split sep r
      else
        match split sep r with
        | h :: t => (c :: h) :: t
        | [] => [[c]]
        end
  end.

(** [s.split(sep, 1)] for a one-character separator. *)
Fixpoint split1 (sep : char) (s : pystr) : list pystr :=
  match s with
  | [] => [[]]
  | c :: r =>
      if (c =? sep)%N then [[]; r]
      else
        match split1 sep r with
        | h :: t => (c :: h) :: t
        | [] => [[c]]
        end
  end.

End Str.

(** ** The start of both question scripts: the .env file without dotenv *)

Module Dotenv.

Import Str.

(** [os.environ], as far as the loop uses it: the variables in the order
    they were set. *)
Definition Environ : Type := list (pystr * pystr).

Definition environ_get (env : Environ) (k : pystr) : option pystr :=
  match find (fun kv => pystr_eqb (fst kv) k) env with
  | Some kv => Some (snd kv)
  | None => None
  end.

Section Loader.

(** Whether the operating system takes the assignment of a new variable;
    where it does not, [os.environ] raises. *)
Variable putenv_ok : pystr -> pystr -> bool.

(** [os.environ.setdefault(k, v)]: [None] where it raises. *)
Definition setdefault (env : Environ) (k v : pystr) : option Environ :=
  match environ_get env k with
  | Some _ => Some env
  | None => if putenv_ok k v then Some (env ++ [(k, v)]) else None
  end.

(** The loop over the lines of the file, [None] where an exception leaves
    it: a failed unpacking of the split, or a refused assignment. *)
Fixpoint load_lines (fh : list pystr) (env : Environ) : option Environ :=
  match fh with
  | [] => Some env
  | line :: rest =>
      if contains 61%N line && negb (startswith 35%N (lstrip line)) then
        match split1 61%N (strip line) with
        | [k; v] =>
            match setdefault env k v with
            | Some env' => load_lines rest env'
            | None => None
            end
        | _ => None
        end
      else load_lines rest env
  end.

End Loader.

End Dotenv.

(** ** mainswapnil.py: the checks before the LLM call *)

Module Generate.

Import Str.

(** [[seg for seg in path.split("/") if seg]]. *)
Definition user_path (path : pystr) : list pystr :=
  filter (fun seg => match seg with [] => false | _ :: _ => true end)
         (split 47%N path).

Section Checks.

(** [urlparse]: the [netloc] and the [path] of its result, [None] where
    it raises [ValueError].  [str.lower].  Both are outside the
    embedding. *)
Variable urlparse : pystr -> option (pystr * pystr).
Variable lower : pystr -> pystr.

(** The basic validation: the error shown before [st.stop()], or the
    user name; [None] where the exception of [urlparse] leaves the
    script. *)
Definition validate (github_url : pystr) : option (pystr + pystr) :=
  match strip github_url with
  | [] => Some (inl (lit "GitHub URL is required."))
  | _ :: _ =>
      match urlparse github_url with
      | None => None
      | Some (netloc, path) =>
          let host := rstrip_char 47%N (lower netloc) in
          if negb (pystr_eqb host (lit "github.com")
                   || pystr_eqb host (lit "www.github.com"))
          then Some (inl (lit "Enter a valid github.com URL."))
          else
            match user_path path with
            | [user] => Some (inr user)
            | _ =>
                Some (inl (lit "Provide a profile URL, not a repository URL."))
            end
      end
  end.

(** [fetch_readme(user, name, hdrs)] for the repository [name]: the text
    of its README, empty when there is none or the request fails. *)
Variable fetch_readme : pystr -> pystr.




End Checks.

End Generate.

(** ** The required inputs of main.py and mainswapnil1.py *)

Module Inputs.

Import Str.

(** [not s.strip()]. *)
Definition blank (s : pystr) : bool :=
  match strip s with
  | [] => true
  | _ :: _ => false
  end.

(** main.py: the test in front of the error that asks for all required
    inputs.  The portfolio URL is not part of it. *)
Definition inputs_missing
           (url_input student_name university_name linkedin_url
              openai_api_key : pystr) : bool :=
  blank url_input || blank student_name || blank university_name
  || blank linkedin_url || blank openai_api_key.

(** mainswapnil1.py: the check of the name, the error shown before
    [st.stop()]. *)
Definition name_check (student_name : pystr) : option pystr :=
  if blank student_name then Some (lit "Please enter your name.") else None.

End Inputs.

(** ** Vocabulary of the statements *)

Definition session_of (o : Outcome) : Session := fst (fst o).

(** The user submits [text] as the answer to the question on the page. *)
Definition submit (text : pystr) : Widgets := mkWidgets NotSubmitted text true.

(** The user submits the form and the chain returns [raw]. *)
Definition generate (raw : pystr) : Widgets := mkWidgets (Reply raw) [] false.

(** The session after a sequence of runs. *)
Definition run_all (run : Widgets -> Session -> Outcome) (ws : list Widgets)
           (st : Session) : Session :=
  fold_left (fun s w => session_of (run w s)) ws st.

Definition submit_all (run : Widgets -> Session -> Outcome)
           (texts : list pystr) (st : Session) : Session :=
  run_all run (List.map submit texts) st.

(** [a["question"]] of a stored answer. *)
Definition question_of (a : pyval) : option pyval := dict_get (lit "question") a.

(** What the Q&A loop does to the session, whichever script runs it. *)
Definition qa_step (w : Widgets) (st : Session) : Session :=
  match phase st with
  | InProgress =>
      if submit_clicked w
      then submit_handler (nth (idx st) (questions st) PNone) (answer_text w) st
      else st
  | _ => st
  end.

(** What a run does to the session, given the script's parsing block. *)
Definition script_step (parse : pystr -> Exn + list pyval)
           (w : Widgets) (st : Session) : Session :=
  match form w with
  | NotSubmitted => qa_step w st
  | Halted _ => st
  | Reply raw =>
      match parse raw with
      | inl _ => st
      | inr qs => qa_step w (store_state qs st)
      end
  end.

(** The stored answers of questions [Q] answered by [texts], in order. *)
Definition answered (Q : list pyval) (texts : list pystr) : list pyval :=
  List.map (fun p => qa_dict (fst p) (snd p)) (combine Q texts).

(** The reply of the scenario: wrapper prose, a line break, and a JSON
    array of two questions. *)
Definition scenario : pystr :=
  lit "Here are the questions:" ++ [10%N]
  ++ lit "[" ++ [34%N] ++ lit "What is X?" ++ [34%N] ++ lit ", "
  ++ [34%N] ++ lit "Explain Y." ++ [34%N] ++ lit "]".

Definition scenario_questions : list pyval :=
  [PStr (lit "What is X?"); PStr (lit "Explain Y.")].

(** Every question answered: the session after the last answer. *)
Definition all_answered (Q : list pyval) (texts : list pystr) (st : Session)
  : Prop :=
  questions st = Q
  /\ List.length (answers st) = List.length Q
  /\ idx st = List.length Q
  /\ (forall i, i < List.length Q ->
                question_of (nth i (answers st) PNone) = Some (nth i Q PNone))
  /\ answers st = answered Q texts.

(** What one run may do to the session: nothing, one answer appended with
    the cursor moved by one, or all three keys reset together (and then,
    in the same run, possibly one answer). *)
Definition forward_or_reset (st st' : Session) : Prop :=
  st' = st
  \/ (exists q a, st' = submit_handler q a st)
  \/ (exists qs, st' = store_state qs st)
  \/ (exists qs q a, st' = submit_handler q a (store_state qs st)).

(** *** Vocabulary of the facts about the decoder and the encoder *)

(** What the scanner would find as a second escape after a high
    surrogate: true when a low surrogate escape, or a broken escape,
    follows. *)
Definition low_escape_ahead (r : pystr) : bool :=
  match r with
  | x :: y :: r3 =>
      if ((x =? 92) && (y =? 117))%N then
        match r3 with
        | a :: b :: c :: d :: _ =>
            match hex4 a b c d with
            | Some u => is_low_surrogate u
            | None => true
            end
        | _ => true
        end
      else false
  | _ => false
  end.

(** The two halves [replace] computes for a character outside the BMP. *)
Definition high_half (c : char) : N :=
  N.lor 0xd800 (N.land (N.shiftr (c - 0x10000) 10) 0x3ff).
Definition low_half (c : char) : N :=
  N.lor 0xdc00 (N.land (c - 0x10000) 0x3ff).

(** The shapes a character's escape can take. *)
Inductive escape_shape (c : char) : pystr -> Prop :=
| shape_plain :
    c <> 34%N -> c <> 92%N -> (32 <= c)%N -> escape_shape c [c]
| shape_two (e : char) :
    e <> 117%N -> BACKSLASH e = Some c -> escape_shape c [92%N; e]
| shape_u :
    (c < 0x10000)%N ->
    escape_shape c ([92; 117]%N ++ hex4_of c)
| shape_pair :
    (0x10000 <= c)%N ->
    escape_shape c ([92; 117]%N ++ hex4_of (high_half c)
                    ++ [92; 117]%N ++ hex4_of (low_half c)).

(** Text that survives the trip through the encoder and the decoder. *)
Definition plain_text (s : pystr) : Prop :=
  str_ok s /\ no_surrogate_pair s = true.


(** *** Concrete inputs *)

(** [float.__repr__] is not needed where no float is encoded. *)
Definition no_floats (lexeme : pystr) : pystr := lexeme.

(** The scenario of two questions and their answers. *)
Definition two_questions : list pyval := [PStr (lit "Q1"); PStr (lit "Q2")].
Definition two_answers : list pystr := [lit "A1"; lit "A2"].


(** A reply that is a JSON array of one number. *)
Definition reply_number_list : pystr := lit "[1]".

(** A reply that is a JSON object: b first, a second. *)
Definition reply_object : pystr :=
  lit "{" ++ [34%N] ++ lit "b" ++ [34%N] ++ lit ": " ++ [34%N] ++ lit "Q1"
  ++ [34%N] ++ lit ", " ++ [34%N] ++ lit "a" ++ [34%N] ++ lit ": " ++ [34%N]
  ++ lit "Q2" ++ [34%N] ++ lit "}".

(** A string of two characters, a high surrogate and a low surrogate, as
    a reply can produce it (a literal high surrogate followed by the
    escape of a low one), and the single character the decoder joins
    their escapes into. *)
Definition surrogate_pair : pystr := [0xd83d; 0xde00]%N.
Definition joined_pair : pystr := [0x1f600%N].



(** ** Vocabulary of the further facts *)

(** The stored answers follow the question list: the cursor is within the
    list, and the answers are the questions before the cursor, each with
    some submitted text. *)
Definition paired (st : Session) : Prop :=
  idx st <= List.length (questions st)
  /\ exists texts,
       List.length texts = idx st
       /\ answers st = answered (firstn (idx st) (questions st)) texts.

(** A text that is empty or starts with JSON white space. *)
Definition blank_start (t : pystr) : Prop :=
  match t with
  | [] => True
  | c :: _ => is_ws c = true
  end.

(** A character an encoded value without floats starts with. *)
Definition value_start (c : char) : bool :=
  ((c =? 34) || (c =? 45) || is_digit c || (c =? 91) || (c =? 123)
   || (c =? 110) || (c =? 116) || (c =? 102))%N.

(** Text after a number that cannot be read as more of the number: it is
    empty, or starts with neither a digit, nor a dot, nor an exponent
    letter. *)
Definition value_end (rest : pystr) : bool :=
  match rest with
  | [] => true
  | c :: _ => negb (is_digit c || (c =? 46) || (c =? 101) || (c =? 69))%N
  end.

(** No float, and no string or key in which a high surrogate is directly
    followed by a low one, at any depth. *)
Fixpoint plain_values (v : pyval) : Prop :=
  match v with
  | PNone | PBool _ | PInt _ => True
  | PFloat _ => False
  | PStr s => plain_text s
  | PList l => fold_right and True (List.map plain_values l)
  | PDict d =>
      fold_right and True
        (List.map (fun kv => match kv with
                             | (key, value) =>
                                 plain_text key /\ plain_values value
                             end) d)
  end.

(** Every dict of a value has distinct keys, at any depth. *)
Fixpoint distinct_keys (v : pyval) : Prop :=
  match v with
  | PList l => fold_right and True (List.map distinct_keys l)
  | PDict d =>
      NoDup (List.map fst d)
      /\ fold_right and True
           (List.map (fun kv => match kv with
                                | (_, value) => distinct_keys value
                                end) d)
  | _ => True
  end.

(** Values that the encoder writes in a way the decoder reads back as
    the same value. *)
Definition comes_back (v : pyval) : Prop := plain_values v /\ distinct_keys v.

(** Printable ASCII, or a line feed. *)
Definition export_char (c : char) : bool :=
  (((32 <=? c) && (c <=? 126)) || (c =? 10))%N.

(** What a run puts on the page. *)
Definition page_of (out : Outcome) : list Element := snd (fst out).

(** How a run ends. *)
Definition control_of (out : Outcome) : Control := snd out.

(** The JSON download button of the completed page. *)
Definition json_button (floatstr : pystr -> pystr) (st : Session) : Element :=
  st_download_button (lit "Download Q&A JSON") (export_json floatstr st)
                     (lit "qa.json") (lit "application/json").

(** *** Concrete inputs of the further facts *)

(** A PDF generator that cannot render, as [fpdf] on text outside
    Latin-1. *)
Definition failing_render (answers : list pyval) : option pystr := None.

(** The session of the scenario with both questions answered. *)
Definition answered_session : Session :=
  mkSession two_questions (answered two_questions two_answers) 2.

(** An operating system that takes every assignment. *)
Definition putenv_any (k v : pystr) : bool := true.

(** A file of three lines: a comment, and two assignments. *)
Definition env_lines : list pystr :=
  [lit "# keys" ++ [10%N]; lit "A=1" ++ [10%N]; lit "B=2" ++ [10%N]].

(** An environment in which the first of the two names is set. *)
Definition env_before : Dotenv.Environ := [(lit "A", lit "0")].
Definition env_after : Dotenv.Environ := [(lit "A", lit "0"); (lit "B", lit "2")].

(** What [urlparse] finds in a profile URL with an upper-case host and a
    slash at the end, and [str.lower] on ASCII text. *)
Definition profile_url : pystr := lit "https://GitHub.com/octocat/".
Definition urlparse_profile (url : pystr) : option (pystr * pystr) :=
  Some (lit "GitHub.com", lit "/octocat/").
Definition ascii_lower (s : pystr) : pystr :=
  List.map (fun c => if ((65 <=? c) && (c <=? 90))%N then (c + 32)%N else c) s.


(** A reply with prose around the JSON object. *)
Definition wrapped_reply : pystr :=
  lit "Here it is: {" ++ [34%N] ++ lit "role" ++ [34%N] ++ lit ": 1} Done.".

(** Questions that are not strings: a negative number, a list, a dict. *)
Definition mixed_questions : list pyval :=
  [PInt (-12); PList [PStr (lit "a"); PNone; PList []];
   PDict [(lit "k", PBool true)]].
Definition mixed_texts : list pystr := [lit "A1"; []; lit "A3"].
Definition mixed_session : Session :=
  mkSession mixed_questions (answered mixed_questions mixed_texts) 3.

(** A reply that is a JSON object with a repeated member name. *)
Definition reply_repeated_name : pystr :=
  lit "{" ++ [34%N] ++ lit "a" ++ [34%N] ++ lit ": 1, " ++ [34%N] ++ lit "b"
  ++ [34%N] ++ lit ": 2, " ++ [34%N] ++ lit "a" ++ [34%N] ++ lit ": 3}".

(** * Facts about the decoder and the encoder *)

Module JsonFacts.

(** Turn the boolean tests of the goal and the context into arithmetic. *)
Ltac btest_hyps :=
  repeat match goal with
    | H : (_ =? _)%N = true |- _ => apply N.eqb_eq in H
    | H : (_ =? _)%N = false |- _ => apply N.eqb_neq in H
    | H : (_ <=? _)%N = true |- _ => apply N.leb_le in H
    | H : (_ <=? _)%N = false |- _ => apply N.leb_gt in H
    | H : (_ <? _)%N = true |- _ => apply N.ltb_lt in H
    | H : (_ <? _)%N = false |- _ => apply N.ltb_ge in H
    | H : (_ && _) = true |- _ => apply andb_true_iff in H; destruct H
    | H : (_ || _) = false |- _ => apply orb_false_iff in H; destruct H
    | H : negb _ = true |- _ => apply negb_true_iff in H
    | H : negb _ = false |- _ => apply negb_false_iff in H
    end.

(** Abstract the remainders of the goal before calling [lia]. *)
Ltac mod_lia :=
  repeat match goal with
    | |- context [(?a mod ?b)%N] =>
        let x := fresh "x" in
        set (x := (a mod b)%N) in *; clearbody x
    | H : context [(?a mod ?b)%N] |- _ =>
        let x := fresh "x" in
        set (x := (a mod b)%N) in *; clearbody x
    end;
  lia.

Lemma hex_val_hex_digit (x : N) :
  (x < 16)%N -> hex_val (hex_digit x) = Some x.
Proof.
  intros Hx. unfold hex_val, hex_digit.
  destruct (x <? 10)%N eqn:E; btest_hyps.
  - assert (H1 : ((48 <=? 48 + x) && (48 + x <=? 57))%N = true).
    { apply andb_true_iff; split; apply N.leb_le; lia. }
    rewrite H1. f_equal. lia.
  - assert (H1 : ((48 <=? 87 + x) && (87 + x <=? 57))%N = false).
    { apply andb_false_iff; right; apply N.leb_gt; lia. }
    assert (H2 : ((97 <=? 87 + x) && (87 + x <=? 102))%N = true).
    { apply andb_true_iff; split; apply N.leb_le; lia. }
    rewrite H1, H2. f_equal. lia.
Qed.

Lemma hex4_hex4_of (n : N) :
  (n < 0x10000)%N ->
  hex4 (hex_digit (N.shiftr n 12 mod 16)) (hex_digit (N.shiftr n 8 mod 16))
       (hex_digit (N.shiftr n 4 mod 16)) (hex_digit (n mod 16)) = Some n.
Proof.
  intros Hn. unfold hex4.
  rewrite !hex_val_hex_digit by (apply N.mod_lt; discriminate).
  f_equal. rewrite !N.shiftr_div_pow2.
  change (2 ^ 12)%N with 4096%N. change (2 ^ 8)%N with 256%N.
  change (2 ^ 4)%N with 16%N.
  change 0x10000%N with 65536%N in Hn.
  pose proof (N.div_mod n 16 ltac:(discriminate)).
  pose proof (N.div_mod (n / 16) 16 ltac:(discriminate)).
  pose proof (N.div_mod (n / 16 / 16) 16 ltac:(discriminate)).
  pose proof (N.mod_lt n 16 ltac:(discriminate)).
  pose proof (N.mod_lt (n / 16) 16 ltac:(discriminate)).
  pose proof (N.mod_lt (n / 16 / 16) 16 ltac:(discriminate)).
  assert (E2 : (n / 256 = n / 16 / 16)%N)
    by (rewrite N.Div0.div_div; reflexivity).
  assert (E3 : (n / 4096 = n / 16 / 16 / 16)%N)
    by (rewrite !N.Div0.div_div; reflexivity).
  assert (n / 16 / 16 / 16 < 16)%N.
  { rewrite !N.Div0.div_div. apply N.Div0.div_lt_upper_bound. simpl. lia. }
  rewrite E2, E3.
  pose proof (N.div_mod (n / 16 / 16 / 16) 16 ltac:(discriminate)).
  rewrite (N.mod_small (n / 16 / 16 / 16) 16) by lia.
  lia.
Qed.

Lemma land_shiftl_small (a y : N) :
  (y < 2 ^ 10)%N -> N.land (N.shiftl a 10) y = 0%N.
Proof.
  intros Hy. apply N.bits_inj. intro i.
  rewrite N.land_spec, N.bits_0.
  destruct (N.ltb_spec i 10) as [Hi | Hi].
  - rewrite N.shiftl_spec_low by assumption. reflexivity.
  - rewrite andb_comm.
    replace (N.testbit y i) with false; [reflexivity |].
    symmetry. rewrite <- (N.mod_small y (2 ^ 10)) by assumption.
    apply N.mod_pow2_bits_high. assumption.
Qed.

Lemma lor_shiftl_small (a y : N) :
  (y < 1024)%N -> N.lor (N.shiftl a 10) y = (a * 1024 + y)%N.
Proof.
  intros Hy.
  assert (H0 : N.land (N.shiftl a 10) y = 0%N)
    by (apply land_shiftl_small; exact Hy).
  rewrite <- (N.lxor_lor _ _ H0), <- (N.add_nocarry_lxor _ _ H0).
  rewrite N.shiftl_mul_pow2. reflexivity.
Qed.

Lemma high_half_eq (c : char) :
  high_half c = (0xd800 + ((c - 0x10000) / 1024) mod 1024)%N.
Proof.
  unfold high_half.
  change 0x3ff%N with (N.ones 10). rewrite N.land_ones.
  change 0xd800%N with (N.shiftl 54 10) at 1.
  rewrite lor_shiftl_small by (apply N.mod_lt; discriminate).
  rewrite N.shiftr_div_pow2. reflexivity.
Qed.

Lemma low_half_eq (c : char) :
  low_half c = (0xdc00 + (c - 0x10000) mod 1024)%N.
Proof.
  unfold low_half.
  change 0x3ff%N with (N.ones 10). rewrite N.land_ones.
  change 0xdc00%N with (N.shiftl 55 10) at 1.
  rewrite lor_shiftl_small by (apply N.mod_lt; discriminate).
  reflexivity.
Qed.

Lemma high_half_is_high (c : char) : is_high_surrogate (high_half c) = true.
Proof.
  rewrite high_half_eq. unfold is_high_surrogate.
  pose proof (N.mod_lt ((c - 0x10000) / 1024) 1024 ltac:(discriminate)).
  apply andb_true_iff; split; apply N.leb_le; mod_lia.
Qed.

Lemma high_half_not_low (c : char) : is_low_surrogate (high_half c) = false.
Proof.
  rewrite high_half_eq. unfold is_low_surrogate.
  pose proof (N.mod_lt ((c - 0x10000) / 1024) 1024 ltac:(discriminate)).
  apply andb_false_iff; left; apply N.leb_gt; mod_lia.
Qed.

Lemma low_half_is_low (c : char) : is_low_surrogate (low_half c) = true.
Proof.
  rewrite low_half_eq. unfold is_low_surrogate.
  pose proof (N.mod_lt (c - 0x10000) 1024 ltac:(discriminate)).
  apply andb_true_iff; split; apply N.leb_le; mod_lia.
Qed.

Lemma halves_bmp (c : char) :
  (high_half c < 0x10000)%N /\ (low_half c < 0x10000)%N.
Proof.
  rewrite high_half_eq, low_half_eq.
  pose proof (N.mod_lt ((c - 0x10000) / 1024) 1024 ltac:(discriminate)).
  pose proof (N.mod_lt (c - 0x10000) 1024 ltac:(discriminate)).
  split; mod_lia.
Qed.

Lemma join_halves (c : char) :
  (0x10000 <= c)%N -> (c < MAXUNICODE1)%N ->
  join_surrogates (high_half c) (low_half c) = c.
Proof.
  unfold MAXUNICODE1. intros Hlo Hhi. unfold join_surrogates.
  rewrite high_half_eq, low_half_eq.
  replace (0xd800 + ((c - 0x10000) / 1024) mod 1024 - 0xd800)%N
    with (((c - 0x10000) / 1024) mod 1024)%N by mod_lia.
  replace (0xdc00 + (c - 0x10000) mod 1024 - 0xdc00)%N
    with ((c - 0x10000) mod 1024)%N by mod_lia.
  rewrite lor_shiftl_small by (apply N.mod_lt; discriminate).
  assert (Hq : ((c - 0x10000) / 1024 < 1024)%N).
  { apply N.Div0.div_lt_upper_bound. lia. }
  rewrite (N.mod_small _ _ Hq).
  pose proof (N.div_mod (c - 0x10000) 1024 ltac:(discriminate)).
  mod_lia.
Qed.

(** *** The cases of [scanstring] *)

Lemma scanstring_plain (c : char) (r : pystr) :
  c <> 34%N -> c <> 92%N -> (32 <= c)%N ->
  scanstring (c :: r) = cons_chr c (scanstring r).
Proof.
  intros H1 H2 H3. cbn [scanstring].
  apply N.eqb_neq in H1, H2. rewrite H1, H2.
  assert (H4 : (c <? 32)%N = false) by (apply N.ltb_ge; exact H3).
  rewrite H4. reflexivity.
Qed.

Lemma scanstring_escape2 (e ch : char) (r : pystr) :
  e <> 117%N -> BACKSLASH e = Some ch ->
  scanstring (92%N :: e :: r) = cons_chr ch (scanstring r).
Proof.
  intros H1 H2. cbn [scanstring].
  change (92 =? 34)%N with false. change (92 =? 92)%N with true.
  cbv iota. apply N.eqb_neq in H1. rewrite H1, H2. reflexivity.
Qed.

Lemma scanstring_u (a b c d uni : char) (r : pystr) :
  hex4 a b c d = Some uni ->
  (is_high_surrogate uni = true -> low_escape_ahead r = false) ->
  scanstring (92%N :: 117%N :: a :: b :: c :: d :: r)
  = cons_chr uni (scanstring r).
Proof.
  intros H1 H2. cbn [scanstring].
  change (92 =? 34)%N with false. change (92 =? 92)%N with true.
  change (117 =? 117)%N with true. cbv iota. rewrite H1.
  destruct (is_high_surrogate uni); [| reflexivity].
  specialize (H2 eq_refl). unfold low_escape_ahead in H2.
  destruct r as [| x [| y r3]]; try reflexivity.
  destruct ((x =? 92) && (y =? 117))%N; [| reflexivity].
  destruct r3 as [| a2 [| b2 [| c2 [| d2 r4]]]]; try discriminate.
  destruct (hex4 a2 b2 c2 d2); [| discriminate].
  rewrite H2. reflexivity.
Qed.

Lemma scanstring_pair (a b c d a2 b2 c2 d2 uni uni2 : char) (r : pystr) :
  hex4 a b c d = Some uni -> is_high_surrogate uni = true ->
  hex4 a2 b2 c2 d2 = Some uni2 -> is_low_surrogate uni2 = true ->
  scanstring (92%N :: 117%N :: a :: b :: c :: d
              :: 92%N :: 117%N :: a2 :: b2 :: c2 :: d2 :: r)
  = cons_chr (join_surrogates uni uni2) (scanstring r).
Proof.
  intros H1 H2 H3 H4. cbn [scanstring].
  change (92 =? 34)%N with false. change (92 =? 92)%N with true.
  change (117 =? 117)%N with true. cbv iota. rewrite H1, H2.
  cbn [andb]. rewrite H3, H4. reflexivity.
Qed.

(** *** What [escape_char] produces *)

Lemma escape_char_shape (c : char) : escape_shape c (escape_char c).
Proof.
  unfold escape_char.
  destruct (c =? 92)%N eqn:E1;
    [apply N.eqb_eq in E1; subst; apply shape_two; [discriminate | reflexivity] |].
  destruct (c =? 34)%N eqn:E2;
    [apply N.eqb_eq in E2; subst; apply shape_two; [discriminate | reflexivity] |].
  destruct (c =? 8)%N eqn:E3;
    [apply N.eqb_eq in E3; subst; apply shape_two; [discriminate | reflexivity] |].
  destruct (c =? 12)%N eqn:E4;
    [apply N.eqb_eq in E4; subst; apply shape_two; [discriminate | reflexivity] |].
  destruct (c =? 10)%N eqn:E5;
    [apply N.eqb_eq in E5; subst; apply shape_two; [discriminate | reflexivity] |].
  destruct (c =? 13)%N eqn:E6;
    [apply N.eqb_eq in E6; subst; apply shape_two; [discriminate | reflexivity] |].
  destruct (c =? 9)%N eqn:E7;
    [apply N.eqb_eq in E7; subst; apply shape_two; [discriminate | reflexivity] |].
  destruct ((32 <=? c) && (c <=? 126))%N eqn:E8.
  - btest_hyps. apply shape_plain; assumption.
  - destruct (c <? 0x10000)%N eqn:E9; btest_hyps.
    + apply shape_u. assumption.
    + apply shape_pair. assumption.
Qed.

Lemma escape_cons (c : char) (s : pystr) :
  escape (c :: s) = escape_char c ++ escape s.
Proof. reflexivity. Qed.

Lemma hex4_of_decoded (n : N) (r : pystr) :
  (n < 0x10000)%N ->
  exists a b c d, hex4_of n ++ r = a :: b :: c :: d :: r /\ hex4 a b c d = Some n.
Proof.
  intros Hn. unfold hex4_of. do 4 eexists. split; [reflexivity |].
  apply hex4_hex4_of. exact Hn.
Qed.

(** After the escape of a string and its closing quote, the scanner
    finds no low surrogate escape unless the string starts with one. *)
Lemma low_escape_ahead_tail (s rest : pystr) :
  match s with
  | [] => True
  | d :: _ => is_low_surrogate d = false
  end ->
  low_escape_ahead (escape s ++ 34%N :: rest) = false.
Proof.
  destruct s as [| d s']; intros Hd.
  - cbn. destruct rest; reflexivity.
  - rewrite escape_cons, <- app_assoc.
    set (t := escape s' ++ 34%N :: rest).
    destruct (escape_char_shape d) as [H1 H2 H3 | e H1 H2 | H1 | H1].
    + cbn [app]. destruct t as [| y r3]; [reflexivity |].
      unfold low_escape_ahead. apply N.eqb_neq in H2. rewrite H2. reflexivity.
    + cbn [app]. unfold low_escape_ahead.
      apply N.eqb_neq in H1. rewrite H1, andb_false_r. reflexivity.
    + destruct (hex4_of_decoded t H1) as (a & b & c & d' & E & Hh).
      cbn [app]. rewrite E. unfold low_escape_ahead. cbn [N.eqb Pos.eqb andb].
      rewrite Hh. exact Hd.
    + destruct (halves_bmp d) as [Hb _].
      repeat rewrite <- app_assoc. cbn [app].
      destruct (hex4_of_decoded (92%N :: 117%N :: hex4_of (low_half d) ++ t) Hb)
        as (a & b & c & d' & E & Hh).
      rewrite E. unfold low_escape_ahead.
      cbn [N.eqb Pos.eqb andb]. rewrite Hh. apply high_half_not_low.
Qed.

(** [scanstring] undoes [escape]: the string comes back, and the scanner
    stops right after the closing quote. *)
Lemma scanstring_escape (s rest : pystr) :
  str_ok s -> no_surrogate_pair s = true ->
  scanstring (escape s ++ 34%N :: rest) = Some (s, rest).
Proof.
  induction s as [| c s' IH]; intros Hok Hns.
  - reflexivity.
  - rewrite escape_cons, <- app_assoc.
    assert (Hok' : str_ok s') by (inversion Hok; assumption).
    assert (Hc : (c < MAXUNICODE1)%N) by (inversion Hok; assumption).
    assert (Hns' : no_surrogate_pair s' = true).
    { destruct s' as [| d s'']; [reflexivity |].
      cbn [no_surrogate_pair] in Hns.
      apply andb_true_iff in Hns. destruct Hns as [_ Hns]. exact Hns. }
    specialize (IH Hok' Hns').
    set (t := escape s' ++ 34%N :: rest) in *.
    destruct (escape_char_shape c) as [H1 H2 H3 | e H1 H2 | H1 | H1].
    + cbn [app]. rewrite scanstring_plain by assumption.
      rewrite IH. reflexivity.
    + cbn [app]. rewrite (scanstring_escape2 t H1 H2).
      rewrite IH. reflexivity.
    + destruct (hex4_of_decoded t H1) as (a & b & c' & d & E & Hh).
      cbn [app]. rewrite E.
      rewrite (scanstring_u a b c' d t Hh).
      * rewrite IH. reflexivity.
      * intros Hhigh. apply low_escape_ahead_tail.
        destruct s' as [| d' s'']; [exact I |].
        cbn [no_surrogate_pair] in Hns. rewrite Hhigh in Hns.
        cbn [andb] in Hns.
        destruct (is_low_surrogate d'); [discriminate | reflexivity].
    + destruct (halves_bmp c) as [Hb1 Hb2].
      repeat rewrite <- app_assoc. cbn [app].
      destruct (hex4_of_decoded t Hb2) as (a2 & b2 & c2 & d2 & E2 & Hh2).
      rewrite E2.
      destruct (hex4_of_decoded
                  (92%N :: 117%N :: a2 :: b2 :: c2 :: d2 :: t) Hb1)
        as (a & b & c' & d & E & Hh).
      rewrite E.
      rewrite (scanstring_pair a b c' d a2 b2 c2 d2 t Hh
                 (high_half_is_high c) Hh2 (low_half_is_low c)).
      rewrite IH. cbn [cons_chr]. rewrite join_halves by assumption.
      reflexivity.
Qed.

(** *** White space *)

Lemma skip_ws_app (ws r : pystr) :
  forallb is_ws ws = true -> skip_ws (ws ++ r) = skip_ws r.
Proof.
  induction ws as [| c ws IH]; intros H; [reflexivity |].
  cbn [forallb] in H. apply andb_true_iff in H. destruct H as [Hc Hws].
  cbn [app skip_ws]. rewrite Hc. apply IH. exact Hws.
Qed.

Lemma skip_ws_head (c : char) (r : pystr) :
  is_ws c = false -> skip_ws (c :: r) = c :: r.
Proof. intros H. cbn [skip_ws]. rewrite H. reflexivity. Qed.

(** *** Strings as values *)

Lemma scan_once_string (f : nat) (s rest : pystr) :
  str_ok s -> no_surrogate_pair s = true ->
  scan_once (S f) (encode_basestring_ascii s ++ rest) = Some (PStr s, rest).
Proof.
  intros Hok Hns. unfold encode_basestring_ascii.
  repeat rewrite <- app_assoc. cbn [app scan_once].
  change (34 =? 34)%N with true. cbv iota.
  rewrite scanstring_escape by assumption. reflexivity.
Qed.

(** *** Arrays whose elements scan back *)

Lemma join_cons2 (sep c1 c2 : pystr) (l : list pystr) :
  join sep (c1 :: c2 :: l) = c1 ++ sep ++ join sep (c2 :: l).
Proof. reflexivity. Qed.

Section ArrayOf.

Variable A : Type.
Variable enc : A -> pystr.
Variable val : A -> pyval.
Variable good : A -> Prop.
Variable k : nat.
Variables ws0 ws1 ws2 : pystr.

Hypothesis ws0_ws : forallb is_ws ws0 = true.
Hypothesis ws1_ws : forallb is_ws ws1 = true.
Hypothesis ws2_ws : forallb is_ws ws2 = true.

Hypothesis enc_head :
  forall x, exists c r, enc x = c :: r /\ is_ws c = false /\ c <> 93%N.

Hypothesis enc_scan :
  forall x rest f, good x -> k <= f ->
    scan_once f (enc x ++ rest) = Some (val x, rest).

Lemma join_enc_head (x : A) (l : list A) (rest : pystr) :
  exists c r, join (44%N :: ws1) (List.map enc (x :: l)) ++ rest = c :: r
              /\ is_ws c = false /\ c <> 93%N.
Proof.
  destruct (enc_head x) as (c & r & E & Hc & Hn).
  destruct l as [| y l].
  - cbn [List.map join]. rewrite E. exists c, (r ++ rest). auto.
  - cbn [List.map]. rewrite join_cons2, E.
    exists c. eexists. split; [cbn [app]; reflexivity | auto].
Qed.

Lemma array_loop_join (l : list A) :
  forall (x : A) (values : list pyval) (rest : pystr) (f : nat),
    Forall good (x :: l) -> S k + List.length l <= f ->
    array_loop f (join (44%N :: ws1) (List.map enc (x :: l))
                  ++ ws2 ++ 93%N :: rest) values
    = Some (values ++ List.map val (x :: l), rest).
Proof.
  induction l as [| y l IH]; intros x values rest f Hg Hf.
  - destruct f as [| f]; [lia |].
    cbn [List.map join array_loop].
    rewrite enc_scan by (inversion Hg; subst; auto; cbn in Hf; lia).
    rewrite skip_ws_app by exact ws2_ws.
    rewrite skip_ws_head by reflexivity.
    change (93 =? 93)%N with true. reflexivity.
  - destruct f as [| f]; [lia |].
    cbn [List.map]. rewrite join_cons2.
    repeat rewrite <- app_assoc.
    cbn [array_loop].
    rewrite enc_scan by (inversion Hg; subst; auto; cbn in Hf; lia).
    cbn [app]. rewrite skip_ws_head by reflexivity.
    change (44 =? 93)%N with false. change (44 =? 44)%N with true.
    cbv iota.
    rewrite skip_ws_app by exact ws1_ws.
    destruct (join_enc_head y l (ws2 ++ 93%N :: rest))
      as (c & r & E & Hc & _).
    change (enc y :: List.map enc l) with (List.map enc (y :: l)).
    rewrite E, skip_ws_head by exact Hc. rewrite <- E.
    rewrite IH.
    + rewrite <- app_assoc. reflexivity.
    + inversion Hg; assumption.
    + cbn [List.length] in Hf. lia.
Qed.

Lemma scan_once_array (x : A) (l : list A) (rest : pystr) (f : nat) :
  Forall good (x :: l) -> S (S k) + List.length l <= f ->
  scan_once f (91%N :: ws0 ++ join (44%N :: ws1) (List.map enc (x :: l))
               ++ ws2 ++ 93%N :: rest)
  = Some (PList (List.map val (x :: l)), rest).
Proof.
  intros Hg Hf. destruct f as [| f]; [lia |].
  cbn [scan_once].
  change (91 =? 34)%N with false. change (91 =? 123)%N with false.
  change (91 =? 91)%N with true. cbv iota zeta.
  rewrite skip_ws_app by exact ws0_ws.
  destruct (join_enc_head x l (ws2 ++ 93%N :: rest))
    as (c & r & E & Hc & Hn).
  rewrite E, skip_ws_head by exact Hc.
  apply N.eqb_neq in Hn. rewrite Hn. rewrite <- E.
  rewrite array_loop_join by (auto; lia). reflexivity.
Qed.

Lemma join_length (l : list A) (sep : pystr) :
  List.length l <= List.length (join sep (List.map enc l)).
Proof.
  induction l as [| x l IH]; [apply Nat.le_0_l |].
  destruct (enc_head x) as (c & r & E & _).
  destruct l as [| y l].
  - cbn [List.map join]. rewrite E. cbn. lia.
  - cbn [List.map]. rewrite join_cons2, E.
    cbn [List.map] in IH. rewrite !length_app. cbn [List.length] in *. lia.
Qed.

Hypothesis k_small : k <= 5.

(** The whole document: an array of such elements decodes to the list
    of their values. *)
Lemma loads_array (x : A) (l : list A) :
  Forall good (x :: l) ->
  loads (91%N :: ws0 ++ join (44%N :: ws1) (List.map enc (x :: l))
         ++ ws2 ++ [93%N])
  = Some (PList (List.map val (x :: l))).
Proof.
  intros Hg. unfold loads.
  change (91 =? 65279)%N with false. cbv iota. unfold decode.
  rewrite skip_ws_head by reflexivity.
  rewrite scan_once_array.
  - reflexivity.
  - exact Hg.
  - pose proof (join_length (x :: l) (44%N :: ws1)) as Hl.
    cbn [List.length] in *. rewrite !length_app. cbn [List.length].
    lia.
Qed.

End ArrayOf.

Lemma encode_head (s : pystr) :
  exists c r, encode_basestring_ascii s = c :: r
              /\ is_ws c = false /\ c <> 93%N.
Proof.
  exists 34%N, (escape s ++ [34%N]).
  split; [reflexivity | split; [reflexivity | discriminate]].
Qed.

Lemma encode_scan (s rest : pystr) (f : nat) :
  plain_text s -> 1 <= f ->
  scan_once f (encode_basestring_ascii s ++ rest) = Some (PStr s, rest).
Proof.
  intros [Hok Hns] Hf. destruct f as [| f]; [lia |].
  apply scan_once_string; assumption.
Qed.

Lemma dumps_strings (floatstr : pystr -> pystr) (x : pystr) (l : list pystr) :
  dumps floatstr None (PList (List.map PStr (x :: l)))
  = 91%N :: [] ++ join (44%N :: [32%N])
                       (List.map encode_basestring_ascii (x :: l))
         ++ [] ++ [93%N].
Proof.
  unfold dumps. cbn [List.map iterencode].
  rewrite map_map.
  cbn [newline_indent app item_separator].
  reflexivity.
Qed.

(** [json.loads(json.dumps(Q)) == Q] for a list of plain texts. *)
Lemma loads_dumps_strings (floatstr : pystr -> pystr) (Q : list pystr) :
  Forall plain_text Q ->
  loads (dumps floatstr None (PList (List.map PStr Q)))
  = Some (PList (List.map PStr Q)).
Proof.
  intros HQ. destruct Q as [| x l]; [reflexivity |].
  rewrite dumps_strings.
  apply (@loads_array _ encode_basestring_ascii PStr plain_text 1
           [] [32%N] []);
    try reflexivity; try lia.
  - exact encode_head.
  - exact encode_scan.
  - exact HQ.
Qed.







(** *** Every scanner consumes input *)

Lemma cons_chr_some (c : char) (r : option (pystr * pystr))
      (t rest : pystr) :
  cons_chr c r = Some (t, rest) -> exists t', r = Some (t', rest).
Proof.
  destruct r as [[t' rest'] |]; cbn; intros H; [| discriminate].
  inversion H; subst. exists t'. reflexivity.
Qed.

Lemma scanstring_shorter_aux (n : nat) :
  forall s t rest, List.length s <= n ->
    scanstring s = Some (t, rest) -> List.length rest < List.length s.
Proof.
  induction n as [| n IH]; intros s t rest Hn H;
    destruct s as [| c r]; try discriminate; cbn [List.length] in Hn;
    [lia |].
  cbn [scanstring] in H.
  repeat match goal with
    | H : cons_chr _ (scanstring ?x) = Some _ |- _ =>
        apply cons_chr_some in H; destruct H as [? H];
        apply IH in H; cbn [List.length] in *; lia
    | H : Some _ = Some _ |- _ => inversion H; subst; cbn [List.length]; lia
    | H : None = Some _ |- _ => discriminate H
    | H : match ?x with _ => _ end = Some _ |- _ => destruct x
    end.
Qed.

Lemma scanstring_shorter (s t rest : pystr) :
  scanstring s = Some (t, rest) -> List.length rest < List.length s.
Proof. apply (@scanstring_shorter_aux (List.length s)). apply Nat.le_refl. Qed.

Lemma skip_ws_length (s : pystr) : List.length (skip_ws s) <= List.length s.
Proof.
  induction s as [| c r IH]; [apply Nat.le_refl |].
  cbn [skip_ws]. destruct (is_ws c); cbn [List.length]; lia.
Qed.

Lemma strip_prefix_length (w : pystr) :
  forall s rest, strip_prefix w s = Some rest ->
    List.length rest + List.length w = List.length s.
Proof.
  induction w as [| a w IH]; intros s rest H; cbn [strip_prefix] in H.
  - inversion H; subst. cbn. lia.
  - destruct s as [| c r]; [discriminate |].
    destruct (a =? c)%N; [| discriminate].
    apply IH in H. cbn [List.length]. lia.
Qed.

Lemma span_digits_length (s : pystr) :
  List.length (snd (span_digits s)) <= List.length s.
Proof.
  induction s as [| c r IH]; [apply Nat.le_refl |].
  cbn [span_digits]. destruct (is_digit c); [| apply Nat.le_refl].
  destruct (span_digits r) as [ds rest]. cbn [snd List.length] in *. lia.
Qed.

Lemma match_integer_length (s ip rest : pystr) :
  match_integer s = Some (ip, rest) -> List.length rest < List.length s.
Proof.
  unfold match_integer. destruct s as [| c r]; [discriminate |].
  destruct (c =? 48)%N.
  - intros H; inversion H; subst. cbn. lia.
  - destruct (is_digit c); [| discriminate].
    pose proof (span_digits_length r) as Hl.
    destruct (span_digits r) as [ds rest']. intros H; inversion H; subst.
    cbn [snd List.length] in *. lia.
Qed.

Lemma match_frac_length (s : pystr) :
  List.length (snd (match_frac s)) <= List.length s.
Proof.
  unfold match_frac. destruct s as [| c r]; [apply Nat.le_refl |].
  destruct (c =? 46)%N; [| apply Nat.le_refl].
  pose proof (span_digits_length r) as Hl.
  destruct (span_digits r) as [[| d ds] rest]; cbn [snd List.length] in *; lia.
Qed.

Lemma match_exp_length (s : pystr) :
  List.length (snd (match_exp s)) <= List.length s.
Proof.
  unfold match_exp. destruct s as [| c r]; [apply Nat.le_refl |].
  destruct ((c =? 101) || (c =? 69))%N; [| apply Nat.le_refl].
  destruct r as [| g r1]; [apply Nat.le_refl |].
  destruct ((g =? 45) || (g =? 43))%N.
  - pose proof (span_digits_length r1) as Hl.
    destruct (span_digits r1) as [[| d ds] rest];
      cbn [snd List.length] in *; lia.
  - pose proof (span_digits_length (g :: r1)) as Hl.
    destruct (span_digits (g :: r1)) as [[| d ds] rest];
      cbn [snd List.length] in *; lia.
Qed.

Lemma match_number_length (s : pystr) (v : pyval) (rest : pystr) :
  match_number s = Some (v, rest) -> List.length rest < List.length s.
Proof.
  unfold match_number.
  set (p := match s with
            | [] => (false, s)
            | c :: r => if (c =? 45)%N then (true, r) else (false, s)
            end).
  assert (Hp : List.length (snd p) <= List.length s).
  { subst p. destruct s as [| c r]; [apply Nat.le_refl |].
    destruct (c =? 45)%N; cbn [snd List.length]; lia. }
  destruct p as [neg s1]. cbn [snd] in Hp.
  destruct (match_integer s1) as [[ip s2] |] eqn:Ei; [| discriminate].
  apply match_integer_length in Ei.
  pose proof (match_frac_length s2) as Hf.
  destruct (match_frac s2) as [fp s3]. cbn [snd] in Hf.
  pose proof (match_exp_length s3) as He.
  destruct (match_exp s3) as [ep s4]. cbn [snd] in He.
  destruct fp, ep; intros H; inversion H; subst; lia.
Qed.


Ltac shorter_step IH1 IH2 IH3 :=
  match goal with
  | H : Some _ = Some _ |- _ => inversion H; subst; clear H
  | H : None = Some _ |- _ => discriminate H
  | H : match scanstring ?r with _ => _ end = Some _ |- _ =>
      let E := fresh "E" in
      destruct (scanstring r) as [[? ?] |] eqn:E;
      [apply scanstring_shorter in E |]
  | H : match skip_ws ?r with _ => _ end = Some _ |- _ =>
      pose proof (skip_ws_length r); destruct (skip_ws r)
  | H : match object_loop ?f ?r ?p with _ => _ end = Some _ |- _ =>
      let E := fresh "E" in
      destruct (object_loop f r p) as [[? ?] |] eqn:E;
      [apply IH3 in E |]
  | H : match array_loop ?f ?r ?p with _ => _ end = Some _ |- _ =>
      let E := fresh "E" in
      destruct (array_loop f r p) as [[? ?] |] eqn:E;
      [apply IH2 in E |]
  | H : match scan_once ?f (skip_ws ?r) with _ => _ end = Some _ |- _ =>
      let E := fresh "E" in
      pose proof (skip_ws_length r);
      destruct (scan_once f (skip_ws r)) as [[? ?] |] eqn:E;
      [apply IH1 in E |]
  | H : match scan_once ?f ?r with _ => _ end = Some _ |- _ =>
      let E := fresh "E" in
      destruct (scan_once f r) as [[? ?] |] eqn:E;
      [apply IH1 in E |]
  | H : match strip_prefix ?w ?r with _ => _ end = Some _ |- _ =>
      let E := fresh "E" in
      destruct (strip_prefix w r) eqn:E;
      [apply strip_prefix_length in E; cbn in E |]
  | H : match match_number ?r with _ => _ end = Some _ |- _ =>
      let E := fresh "E" in
      destruct (match_number r) as [[? ?] |] eqn:E;
      [apply match_number_length in E |]
  | H : array_loop _ (skip_ws ?r) _ = Some _ |- _ =>
      pose proof (skip_ws_length r); apply IH2 in H
  | H : object_loop _ _ _ = Some _ |- _ => apply IH3 in H
  | H : match ?x with _ => _ end = Some _ |- _ => destruct x
  end.

(** A value, an array tail and an object tail each take at least one
    character. *)
Lemma scan_shorter (f : nat) :
  (forall s v rest,
      scan_once f s = Some (v, rest) -> List.length rest < List.length s)
  /\ (forall s values vs rest,
         array_loop f s values = Some (vs, rest) ->
         List.length rest < List.length s)
  /\ (forall s pairs ps rest,
         object_loop f s pairs = Some (ps, rest) ->
         List.length rest < List.length s).
Proof.
  induction f as [| f (IH1 & IH2 & IH3)];
    [repeat split; intros; discriminate |].
  repeat split.
  - intros s v rest H. cbn [scan_once] in H. cbv zeta in H.
    destruct s as [| c r]; [discriminate |].
    repeat shorter_step IH1 IH2 IH3;
      cbn [List.length] in *; lia.
  - intros s values vs rest H. cbn [array_loop] in H. cbv zeta in H.
    repeat shorter_step IH1 IH2 IH3;
      cbn [List.length] in *; lia.
  - intros s pairs ps rest H. cbn [object_loop] in H. cbv zeta in H.
    repeat shorter_step IH1 IH2 IH3;
      cbn [List.length] in *; lia.
Qed.


(** *** Fuel

    Above twice the length of the input, the fuel does not matter: the
    scanners' [None] is a decoding error, never a lack of fuel. *)
Lemma scan_fuel (f : nat) :
  forall f',
    (forall s, 2 * List.length s < f -> 2 * List.length s < f' ->
               scan_once f s = scan_once f' s)
    /\ (forall s values,
           2 * List.length s + 1 < f -> 2 * List.length s + 1 < f' ->
           array_loop f s values = array_loop f' s values)
    /\ (forall s pairs,
           2 * List.length s < f -> 2 * List.length s < f' ->
           object_loop f s pairs = object_loop f' s pairs).
Proof.
  induction f as [| f IH]; intros f';
    [repeat split; intros; lia |].
  destruct f' as [| f']; [repeat split; intros; lia |].
  destruct (IH f') as (IH1 & IH2 & IH3).
  repeat split.
  - intros s Hf Hf'. cbn [scan_once]. cbv zeta.
    destruct s as [| c r]; [reflexivity |].
    cbn [List.length] in Hf, Hf'.
    destruct (c =? 34)%N; [reflexivity |].
    destruct (c =? 123)%N.
    { pose proof (skip_ws_length r).
      destruct (skip_ws r) as [| c1 r2]; [reflexivity |].
      cbn [List.length] in *.
      destruct (c1 =? 125)%N; [reflexivity |].
      destruct (c1 =? 34)%N; [| reflexivity].
      rewrite (IH3 r2 []) by lia. reflexivity. }
    destruct (c =? 91)%N; [| reflexivity].
    pose proof (skip_ws_length r).
    destruct (skip_ws r) as [| c1 r2]; [reflexivity |].
    cbn [List.length] in *.
    destruct (c1 =? 93)%N; [reflexivity |].
    rewrite (IH2 (c1 :: r2) []) by (cbn [List.length]; lia). reflexivity.
  - intros s values Hf Hf'. cbn [array_loop]. cbv zeta.
    rewrite (IH1 s) by lia.
    destruct (scan_once f' s) as [[v rest] |] eqn:E; [| reflexivity].
    apply (proj1 (scan_shorter f')) in E.
    pose proof (skip_ws_length rest).
    destruct (skip_ws rest) as [| c r]; [reflexivity |].
    cbn [List.length] in *.
    destruct (c =? 93)%N; [reflexivity |].
    destruct (c =? 44)%N; [| reflexivity].
    pose proof (skip_ws_length r).
    apply IH2; lia.
  - intros s pairs Hf Hf'. cbn [object_loop]. cbv zeta.
    destruct (scanstring s) as [[key rest] |] eqn:E; [| reflexivity].
    apply scanstring_shorter in E.
    pose proof (skip_ws_length rest).
    destruct (skip_ws rest) as [| c r]; [reflexivity |].
    cbn [List.length] in *.
    destruct (c =? 58)%N; [| reflexivity].
    pose proof (skip_ws_length r).
    rewrite (IH1 (skip_ws r)) by lia.
    destruct (scan_once f' (skip_ws r)) as [[value rest1] |] eqn:E1;
      [| reflexivity].
    apply (proj1 (scan_shorter f')) in E1.
    pose proof (skip_ws_length rest1).
    destruct (skip_ws rest1) as [| c1 r1]; [reflexivity |].
    cbn [List.length] in *.
    destruct (c1 =? 125)%N; [reflexivity |].
    destruct (c1 =? 44)%N; [| reflexivity].
    pose proof (skip_ws_length r1).
    destruct (skip_ws r1) as [| c2 r2]; [reflexivity |].
    cbn [List.length] in *.
    destruct (c2 =? 34)%N; [| reflexivity].
    apply IH3; lia.
Qed.

(** [decode] gives the scanner all the fuel it can use. *)
Lemma scan_once_fuel (s : pystr) (f : nat) :
  2 * List.length s < f ->
  scan_once f (skip_ws s) = scan_once (2 * List.length s + 1) (skip_ws s).
Proof.
  intros Hf. pose proof (skip_ws_length s).
  apply (proj1 (scan_fuel f (2 * List.length s + 1))); lia.
Qed.

(** *** Dicts *)

Lemma pystr_eqb_neq (a b : pystr) : a <> b -> pystr_eqb a b = false.
Proof.
  intros H. unfold pystr_eqb.
  destruct (list_eq_dec N.eq_dec a b); [contradiction | reflexivity].
Qed.

Lemma dict_set_new (d : list (pystr * pyval)) (k : pystr) (v : pyval) :
  ~ In k (List.map fst d) -> dict_set d k v = d ++ [(k, v)].
Proof.
  induction d as [| [k' v'] d IH]; intros H; [reflexivity |].
  cbn [dict_set List.map fst In] in *.
  assert (Hne : k' <> k) by tauto.
  rewrite (pystr_eqb_neq Hne).
  rewrite IH by tauto. reflexivity.
Qed.

Lemma dict_of_pairs_acc (pairs : list (pystr * pyval)) :
  forall acc, NoDup (List.map fst (acc ++ pairs)) ->
    fold_left (fun d kv => dict_set d (fst kv) (snd kv)) pairs acc
    = acc ++ pairs.
Proof.
  induction pairs as [| [k v] pairs IH]; intros acc H.
  - rewrite app_nil_r. reflexivity.
  - cbn [fold_left fst snd].
    rewrite dict_set_new.
    + rewrite IH by (rewrite <- app_assoc; exact H).
      rewrite <- app_assoc. reflexivity.
    + rewrite map_app in H. cbn [List.map fst] in H.
      apply NoDup_remove_2 in H. intros Hin. apply H.
      apply in_or_app. left. exact Hin.
Qed.

(** Members with distinct names come out of [dict(pairs)] as written. *)
Lemma dict_of_pairs_distinct (pairs : list (pystr * pyval)) :
  NoDup (List.map fst pairs) -> dict_of_pairs pairs = pairs.
Proof. intros H. apply (dict_of_pairs_acc pairs []). exact H. Qed.

(** Text without surrogate code points, the text UTF-8 can carry, makes
    the round trip. *)
Lemma unicode_text_plain (s : pystr) :
  str_ok s -> no_surrogates s = true -> plain_text s.
Proof.
  intros Hok H. split; [exact Hok |].
  clear Hok. induction s as [| c s IH]; [reflexivity |].
  cbn [no_surrogates forallb] in H. apply andb_true_iff in H.
  destruct H as [Hc Hs]. destruct s as [| d s]; [reflexivity |].
  cbn [no_surrogate_pair]. apply andb_true_iff in Hc. destruct Hc as [Hc _].
  apply negb_true_iff in Hc. rewrite Hc. cbn [andb negb].
  apply IH. exact Hs.
Qed.

End JsonFacts.

(** * The session controller *)

Module SessionFacts.

Lemma qa_step_idle (st : Session) : qa_step idle st = st.
Proof. unfold qa_step. destruct (phase st); reflexivity. Qed.

Lemma mainswapnil_qa_loop_session (fs : pystr -> pystr) (w : Widgets)
      (st : Session) :
  session_of (Mainswapnil.qa_loop fs w st) = qa_step w st.
Proof.
  unfold Mainswapnil.qa_loop, qa_step, phase.
  destruct (questions st) as [| q0 qs]; [reflexivity |].
  destruct (idx st <? List.length (q0 :: qs)); [| reflexivity].
  destruct (submit_clicked w); reflexivity.
Qed.

Lemma mainswapnil1_qa_loop_session (fs : pystr -> pystr)
      (FPDF : option (list pyval -> option pystr)) (w : Widgets)
      (st : Session) :
  session_of (Mainswapnil1.qa_loop fs FPDF w st) = qa_step w st.
Proof.
  unfold Mainswapnil1.qa_loop, qa_step, phase.
  destruct (questions st) as [| q0 qs]; [reflexivity |].
  destruct (idx st <? List.length (q0 :: qs)).
  - destruct (submit_clicked w); reflexivity.
  - destruct FPDF as [render |]; [| reflexivity].
    destruct (render (answers st)); reflexivity.
Qed.

Lemma mainswapnil_script_session (fs : pystr -> pystr) (w : Widgets)
      (st : Session) :
  session_of (Mainswapnil.script fs w st)
  = script_step Mainswapnil.parse_questions w st.
Proof.
  unfold Mainswapnil.script, script_step.
  destruct (form w) as [| message | raw].
  - apply mainswapnil_qa_loop_session.
  - reflexivity.
  - destruct (Mainswapnil.parse_questions raw) as [exc | qs];
      [reflexivity | apply mainswapnil_qa_loop_session].
Qed.

Lemma mainswapnil1_script_session (fs : pystr -> pystr)
      (FPDF : option (list pyval -> option pystr)) (w : Widgets)
      (st : Session) :
  session_of (Mainswapnil1.script fs FPDF w st)
  = script_step Mainswapnil1.parse_questions w st.
Proof.
  unfold Mainswapnil1.script, script_step.
  destruct (form w) as [| message | raw].
  - apply mainswapnil1_qa_loop_session.
  - reflexivity.
  - destruct (Mainswapnil1.parse_questions raw) as [exc | qs];
      [reflexivity | apply mainswapnil1_qa_loop_session].
Qed.

(** The rerun a submitted answer asks for shows the next page and
    leaves the session as the handler made it. *)
Lemma mainswapnil_interact_session (fs : pystr -> pystr) (w : Widgets)
      (st : Session) :
  session_of (Mainswapnil.interact fs w st)
  = script_step Mainswapnil.parse_questions w st.
Proof.
  rewrite <- (mainswapnil_script_session fs). unfold Mainswapnil.interact.
  destruct (Mainswapnil.script fs w st) as [[st' page] c].
  destruct c; try reflexivity.
  rewrite mainswapnil_script_session. cbn. apply qa_step_idle.
Qed.

Lemma mainswapnil1_interact_session (fs : pystr -> pystr)
      (FPDF : option (list pyval -> option pystr)) (w : Widgets)
      (st : Session) :
  session_of (Mainswapnil1.interact fs FPDF w st)
  = script_step Mainswapnil1.parse_questions w st.
Proof.
  rewrite <- (mainswapnil1_script_session fs FPDF).
  unfold Mainswapnil1.interact.
  destruct (Mainswapnil1.script fs FPDF w st) as [[st' page] c].
  destruct c; try reflexivity.
  rewrite mainswapnil1_script_session. cbn. apply qa_step_idle.
Qed.

(** One submitted answer, while questions remain. *)
Lemma qa_step_submit (Qd Qr : list pyval) (q : pyval) (ans : list pyval)
      (t : pystr) :
  qa_step (submit t) (mkSession (Qd ++ q :: Qr) ans (List.length Qd))
  = mkSession (Qd ++ q :: Qr) (ans ++ [qa_dict q t]) (S (List.length Qd)).
Proof.
  unfold qa_step, phase. cbn [questions idx submit submit_clicked answer_text].
  destruct (Qd ++ q :: Qr) as [| q0 qs] eqn:E;
    [destruct Qd; discriminate |].
  rewrite <- E.
  assert (Hlt : (List.length Qd <? List.length (Qd ++ q :: Qr)) = true).
  { apply Nat.ltb_lt. rewrite length_app. cbn [List.length]. lia. }
  rewrite Hlt. unfold submit_handler. cbn [questions answers idx].
  rewrite nth_middle. reflexivity.
Qed.

(** As many answers as questions remain: every question is paired with
    its answer, and the cursor ends at the length of the list. *)
Lemma submit_steps (parse : pystr -> Exn + list pyval) (texts : list pystr) :
  forall (Qd Qr ans : list pyval),
    List.length texts = List.length Qr ->
    fold_left (fun s w => script_step parse w s) (List.map submit texts)
              (mkSession (Qd ++ Qr) ans (List.length Qd))
    = mkSession (Qd ++ Qr) (ans ++ answered Qr texts)
                (List.length (Qd ++ Qr)).
Proof.
  induction texts as [| t texts IH]; intros Qd Qr ans Hlen.
  - destruct Qr; [| discriminate]. cbn. rewrite !app_nil_r. reflexivity.
  - destruct Qr as [| q Qr]; [discriminate |].
    cbn [List.map fold_left]. unfold script_step at 2.
    cbn [form submit]. fold (submit t). rewrite qa_step_submit.
    replace (Qd ++ q :: Qr) with ((Qd ++ [q]) ++ Qr)
      by (rewrite <- app_assoc; reflexivity).
    replace (S (List.length Qd)) with (List.length (Qd ++ [q]))
      by (rewrite length_app; cbn; lia).
    rewrite IH by (cbn in Hlen; lia).
    unfold answered. cbn [combine List.map fst snd].
    rewrite <- !app_assoc. reflexivity.
Qed.

End SessionFacts.

(** * The job-details clean-up of main.py *)

Module MainFacts.

Import Main.

Lemma upto_last_closer_none (r : pystr) :
  upto_last_closer r = None ->
  forallb (fun c => negb (is_closer c)) r = true.
Proof.
  induction r as [| c r IH]; [reflexivity |].
  cbn [upto_last_closer forallb].
  destruct (upto_last_closer r); [discriminate |].
  destruct (is_closer c); [discriminate |].
  intros _. apply IH. reflexivity.
Qed.

Lemma upto_last_closer_some (r : pystr) :
  forall p, upto_last_closer r = Some p ->
    exists post mid c,
      r = p ++ post /\ p = mid ++ [c] /\ is_closer c = true
      /\ forallb (fun c => negb (is_closer c)) post = true.
Proof.
  induction r as [| c r IH]; intros p H; [discriminate |].
  cbn [upto_last_closer] in H.
  destruct (upto_last_closer r) as [p' |] eqn:E.
  - inversion H; subst.
    destruct (IH p' eq_refl) as (post & mid & c' & Hr & Hp & Hc & Hpost).
    exists post, (c :: mid), c'. subst. repeat split; auto.
  - destruct (is_closer c) eqn:Ec; [| discriminate].
    inversion H; subst.
    exists r, [], c. repeat split; auto.
    apply upto_last_closer_none. exact E.
Qed.

Lemma json_match_needs_closer (r : pystr) :
  upto_last_closer r = None -> json_match r = None.
Proof.
  induction r as [| c r IH]; [reflexivity |].
  cbn [upto_last_closer json_match].
  destruct (upto_last_closer r); [discriminate |].
  intros _. rewrite (IH eq_refl). destruct (is_opener c); reflexivity.
Qed.

(** The match runs from the first opening bracket or brace to the last
    closing one, matching pair or not. *)
Lemma json_match_span (content : pystr) :
  forall m, json_match content = Some m ->
    exists pre post o mid c,
      content = pre ++ m ++ post /\ m = o :: mid ++ [c]
      /\ is_opener o = true /\ is_closer c = true
      /\ forallb (fun c => negb (is_opener c)) pre = true
      /\ forallb (fun c => negb (is_closer c)) post = true.
Proof.
  induction content as [| c r IH]; intros m H; [discriminate |].
  cbn [json_match] in H.
  destruct (is_opener c) eqn:Eo.
  - destruct (upto_last_closer r) as [p |] eqn:E.
    + inversion H; subst.
      destruct (upto_last_closer_some r E)
        as (post & mid & c' & Hr & Hp & Hc & Hpost).
      exists [], post, c, mid, c'. subst. repeat split; auto.
    + rewrite (json_match_needs_closer r E) in H. discriminate.
  - destruct (IH m H) as (pre & post & o & mid & c' & Hr & Hm & Ho & Hc & Hpre & Hpost).
    exists (c :: pre), post, o, mid, c'. subst.
    cbn [forallb]. rewrite Eo. repeat split; auto.
Qed.

End MainFacts.

(** * The session controller, as the specification states it *)

Section Controller.

Import SessionFacts.

Variable fs : pystr -> pystr.
Variable FPDF : option (list pyval -> option pystr).

Lemma fold_left_same (A B : Type) (f g : A -> B -> A) (l : list B) :
  (forall a b, f a b = g a b) ->
  forall a, fold_left f l a = fold_left g l a.
Proof.
  intros H. induction l as [| b l IH]; intros a; [reflexivity |].
  cbn [fold_left]. rewrite H. apply IH.
Qed.

Lemma question_of_answered (Q : list pyval) (texts : list pystr) (i : nat) :
  List.length texts = List.length Q -> i < List.length Q ->
  question_of (nth i (answered Q texts) PNone) = Some (nth i Q PNone).
Proof.
  intros Hlen Hi. unfold answered.
  set (d := (PNone, @nil N) : pyval * pystr).
  rewrite (nth_indep _ PNone (qa_dict (fst d) (snd d)))
    by (rewrite length_map, length_combine; lia).
  rewrite (map_nth (fun p : pyval * pystr => qa_dict (fst p) (snd p))).
  subst d.
  rewrite combine_nth by (symmetry; exact Hlen).
  reflexivity.
Qed.

Lemma steps_all_answered (parse : pystr -> Exn + list pyval)
      (Q : list pyval) (texts : list pystr) (st0 : Session) :
  List.length texts = List.length Q ->
  let st := fold_left (fun s w => script_step parse w s)
                      (List.map submit texts) (store_state Q st0) in
  all_answered Q texts st
  /\ phase st = match Q with [] => NoQuestions | _ :: _ => Completed end.
Proof.
  intros Hlen st. subst st. unfold store_state.
  pose proof (submit_steps parse texts [] Q [] Hlen) as E.
  cbn [app List.length] in E. rewrite E. clear E.
  unfold all_answered. cbn [questions answers idx].
  repeat split.
  - unfold answered. rewrite length_map, length_combine. lia.
  - intros i Hi. apply question_of_answered; assumption.
  - unfold phase. cbn [questions idx]. destruct Q as [| q Q]; [reflexivity |].
    rewrite Nat.ltb_irrefl. reflexivity.
Qed.

(** C1, as amended: a list of n questions is loaded, n answers are
    submitted.  Then there are n stored answers, the cursor is n, the
    i-th stored answer carries the i-th question (and the i-th text), in
    both scripts; and the Q&A block is in its all-questions-answered
    branch when n is at least 1, while for n = 0 its outer test fails and
    it takes neither branch. *)
Theorem session_completion (Q : list pyval) (texts : list pystr)
        (st0 : Session) :
  List.length texts = List.length Q ->
  (let st := submit_all (Mainswapnil.interact fs) texts (store_state Q st0) in
   all_answered Q texts st
   /\ phase st = match Q with [] => NoQuestions | _ :: _ => Completed end)
  /\ (let st := submit_all (Mainswapnil1.interact fs FPDF) texts
                           (store_state Q st0) in
      all_answered Q texts st
      /\ phase st = match Q with [] => NoQuestions | _ :: _ => Completed end).
Proof.
  intros Hlen. split.
  - unfold submit_all, run_all.
    rewrite (fold_left_same _
               (fun s w => script_step Mainswapnil.parse_questions w s))
      by (intros; apply mainswapnil_interact_session).
    apply steps_all_answered. exact Hlen.
  - unfold submit_all, run_all.
    rewrite (fold_left_same _
               (fun s w => script_step Mainswapnil1.parse_questions w s))
      by (intros; apply mainswapnil1_interact_session).
    apply steps_all_answered. exact Hlen.
Qed.

Lemma qa_step_shape (w : Widgets) (st : Session) :
  qa_step w st = st \/ exists q a, qa_step w st = submit_handler q a st.
Proof.
  unfold qa_step. destruct (phase st); auto.
  destruct (submit_clicked w); eauto.
Qed.

Lemma script_step_shape (parse : pystr -> Exn + list pyval) (w : Widgets)
      (st : Session) :
  forward_or_reset st (script_step parse w st).
Proof.
  unfold script_step, forward_or_reset.
  destruct (form w) as [| message | raw].
  - destruct (qa_step_shape w st) as [E | (q & a & E)]; rewrite E; eauto.
  - auto.
  - destruct (parse raw) as [exc | qs]; [auto |].
    destruct (qa_step_shape w (store_state qs st)) as [E | (q & a & E)];
      rewrite E; eauto 7.
Qed.

Lemma forward_or_reset_invariant (st st' : Session) :
  forward_or_reset st st' ->
  List.length (answers st) = idx st -> List.length (answers st') = idx st'.
Proof.
  intros [E | [(q & a & E) | [(qs & E) | (qs & q & a & E)]]] H; subst;
    cbn [submit_handler store_state answers idx]; try assumption;
    try reflexivity; rewrite length_app; cbn [List.length]; lia.
Qed.

Lemma run_all_invariant (run : Widgets -> Session -> Outcome) :
  (forall w st, forward_or_reset st (session_of (run w st))) ->
  forall ws st,
    List.length (answers st) = idx st ->
    List.length (answers (run_all run ws st)) = idx (run_all run ws st).
Proof.
  intros Hrun ws. induction ws as [| w ws IH]; intros st H; [exact H |].
  unfold run_all in *. cbn [fold_left]. apply IH.
  apply (forward_or_reset_invariant (Hrun w st) H).
Qed.

(** C3: after any sequence of runs of either script from the session
    defaults, the number of stored answers equals the cursor; and a run
    only leaves the session alone, appends one answer while moving the
    cursor by one, or resets questions, answers and cursor together. *)
Theorem answers_follow_cursor (ws : list Widgets) :
  (let st := run_all (Mainswapnil.script fs) ws session_defaults in
   List.length (answers st) = idx st)
  /\ (let st := run_all (Mainswapnil1.script fs FPDF) ws session_defaults in
      List.length (answers st) = idx st)
  /\ (forall w st,
         forward_or_reset st (session_of (Mainswapnil.script fs w st)))
  /\ (forall w st,
         forward_or_reset st (session_of (Mainswapnil1.script fs FPDF w st))).
Proof.
  assert (H1 : forall w st,
             forward_or_reset st (session_of (Mainswapnil.script fs w st))).
  { intros w st. rewrite mainswapnil_script_session.
    apply script_step_shape. }
  assert (H2 : forall w st,
             forward_or_reset st
               (session_of (Mainswapnil1.script fs FPDF w st))).
  { intros w st. rewrite mainswapnil1_script_session.
    apply script_step_shape. }
  repeat split; try assumption.
  - apply run_all_invariant; [exact H1 | reflexivity].
  - apply run_all_invariant; [exact H2 | reflexivity].
Qed.

(** C8: whatever runs came before (a load of other questions, any number
    of submitted answers), a reply that parses to Q2 gives the very
    outcome it gives on a new session: the same page, and the session
    with questions Q2, no answer and cursor 0. *)
Theorem load_resets (ws : list Widgets) (raw2 : pystr) :
  (forall Q2, Mainswapnil.parse_questions raw2 = inr Q2 ->
     let prior := run_all (Mainswapnil.interact fs) ws session_defaults in
     Mainswapnil.interact fs (generate raw2) prior
     = Mainswapnil.interact fs (generate raw2) session_defaults
     /\ session_of (Mainswapnil.interact fs (generate raw2) prior)
        = mkSession Q2 [] 0)
  /\ (forall Q2, Mainswapnil1.parse_questions raw2 = inr Q2 ->
        let prior := run_all (Mainswapnil1.interact fs FPDF) ws
                             session_defaults in
        Mainswapnil1.interact fs FPDF (generate raw2) prior
        = Mainswapnil1.interact fs FPDF (generate raw2) session_defaults
        /\ session_of (Mainswapnil1.interact fs FPDF (generate raw2) prior)
           = mkSession Q2 [] 0).
Proof.
  split; intros Q2 H prior.
  - split.
    + unfold Mainswapnil.interact, Mainswapnil.script.
      cbn [generate form]. rewrite H. reflexivity.
    + rewrite mainswapnil_interact_session. unfold script_step.
      cbn [generate form]. rewrite H. unfold qa_step.
      cbn [submit_clicked]. destruct (phase (store_state Q2 prior));
        reflexivity.
  - split.
    + unfold Mainswapnil1.interact, Mainswapnil1.script.
      cbn [generate form]. rewrite H. reflexivity.
    + rewrite mainswapnil1_interact_session. unfold script_step.
      cbn [generate form]. rewrite H. unfold qa_step.
      cbn [submit_clicked]. destruct (phase (store_state Q2 prior));
        reflexivity.
Qed.

(** C10: with an empty question list the Q&A block of either script
    puts nothing on the page, whatever the stored answers and the cursor
    are: no question, no completion message, no download button. *)
Theorem empty_list_shows_nothing (w : Widgets) (ans : list pyval) (i : nat) :
  Mainswapnil.qa_loop fs w (mkSession [] ans i)
  = (mkSession [] ans i, [], Done)
  /\ Mainswapnil1.qa_loop fs FPDF w (mkSession [] ans i)
     = (mkSession [] ans i, [], Done)
  /\ phase (mkSession [] ans i) = NoQuestions
  /\ Mainswapnil.script fs idle (store_state [] (mkSession [] ans i))
     = (mkSession [] [] 0, [], Done)
  /\ Mainswapnil1.script fs FPDF idle (store_state [] (mkSession [] ans i))
     = (mkSession [] [] 0, [], Done).
Proof. repeat split. Qed.

End Controller.

(** * The extractor and the export, as the specification states them *)

Section Extractor.

Import JsonFacts.

Variable fs : pystr -> pystr.
Variable FPDF : option (list pyval -> option pystr).

(** C2, as amended: the question scripts decode the whole reply and
    nothing else.  A reply that is not one JSON document fails in both
    with the decoder's error, the scenario's reply among them; only the
    job-details step of main.py cuts out the text from the first opening
    bracket or brace to the last closing one, and that text, for the
    scenario's reply, decodes to the two questions. *)
Theorem question_scripts_decode_the_whole_reply (raw : pystr) :
  loads raw = None ->
  Mainswapnil.parse_questions raw = inl (JSONDecodeError raw)
  /\ Mainswapnil1.parse_questions raw = inl (JSONDecodeError raw)
  /\ loads scenario = None
  /\ Main.job_details scenario = Some (PList scenario_questions)
  /\ (forall content m, Main.json_match content = Some m ->
        exists pre post o mid c,
          content = pre ++ m ++ post /\ m = o :: mid ++ [c]
          /\ Main.is_opener o = true /\ Main.is_closer c = true
          /\ forallb (fun c => negb (Main.is_opener c)) pre = true
          /\ forallb (fun c => negb (Main.is_closer c)) post = true).
Proof.
  intros H. unfold Mainswapnil.parse_questions, Mainswapnil1.parse_questions.
  rewrite H.
  split; [reflexivity |]. split; [reflexivity |].
  split; [vm_compute; reflexivity |].
  split; [vm_compute; reflexivity |].
  exact MainFacts.json_match_span.
Qed.




(** C5, as amended: a reply that decodes to an object gives, in
    mainswapnil.py, the object's values as the questions, in the order
    of the decoded dict (the order the members are written in, when
    their names are distinct); mainswapnil1.py rejects it with its
    not-an-array error. *)
Theorem mapping_values_or_rejection (raw : pystr) (d : list (pystr * pyval)) :
  loads raw = Some (PDict d) ->
  Mainswapnil.parse_questions raw = inr (dict_values d)
  /\ Mainswapnil1.parse_questions raw
     = inl (ValueError (lit "LLM did not return a JSON array of questions."))
  /\ (forall pairs, NoDup (List.map fst pairs) ->
        dict_values (dict_of_pairs pairs) = List.map snd pairs).
Proof.
  intros H. unfold Mainswapnil.parse_questions, Mainswapnil1.parse_questions.
  rewrite H.
  split; [reflexivity |]. split; [reflexivity |].
  intros pairs Hp. rewrite dict_of_pairs_distinct by exact Hp. reflexivity.
Qed.

(** C6, as amended: a reply that decodes to a list is taken as the
    question list as it stands, in both scripts; its elements are not
    looked at, so a list with elements that are not strings is accepted
    too. *)
Theorem decoded_list_is_taken_as_is (raw : pystr) (l : list pyval) :
  loads raw = Some (PList l) ->
  Mainswapnil.parse_questions raw = inr l
  /\ Mainswapnil1.parse_questions raw = inr l.
Proof.
  intros H. unfold Mainswapnil.parse_questions, Mainswapnil1.parse_questions.
  rewrite H. split; reflexivity.
Qed.

(** C7, as amended: for every list Q of strings in none of which a high
    surrogate code point is directly followed by a low one, parsing
    [json.dumps(Q)] succeeds in both scripts and returns exactly Q: the
    same strings in the same order, duplicates kept. *)
Theorem parse_dumps_round_trip (Q : list pystr) :
  Forall plain_text Q ->
  Mainswapnil.parse_questions (dumps fs None (PList (List.map PStr Q)))
  = inr (List.map PStr Q)
  /\ Mainswapnil1.parse_questions (dumps fs None (PList (List.map PStr Q)))
     = inr (List.map PStr Q).
Proof.
  intros HQ. unfold Mainswapnil.parse_questions, Mainswapnil1.parse_questions.
  rewrite (loads_dumps_strings fs HQ). split; reflexivity.
Qed.


End Extractor.

(** * Concrete runs *)

Section Runs.

Import JsonFacts.

(** C1 as stated fails for the empty question list: no answer is due,
    the cursor equals the length of the list, and yet the Q&A block is
    not in its completed branch and shows nothing. *)
Lemma completion_fails_without_questions :
  let st := submit_all (Mainswapnil.interact no_floats) []
                       (store_state [] session_defaults) in
  idx st = List.length (questions st)
  /\ phase st <> Completed
  /\ Mainswapnil.script no_floats idle st = (st, [], Done).
Proof.
  cbn. split; [reflexivity |]. split; [discriminate | reflexivity].
Qed.

(** The scenario of two questions and two answers, in both scripts. *)
Lemma session_completion_witness :
  List.length two_answers = List.length two_questions
  /\ (let st := submit_all (Mainswapnil.interact no_floats) two_answers
                           (store_state two_questions session_defaults) in
      all_answered two_questions two_answers st /\ phase st = Completed)
  /\ (let st := submit_all (Mainswapnil1.interact no_floats None) two_answers
                           (store_state two_questions session_defaults) in
      all_answered two_questions two_answers st /\ phase st = Completed).
Proof.
  split; [reflexivity |].
  apply (session_completion no_floats None two_questions two_answers
           session_defaults).
  reflexivity.
Defined.

(** C2 as stated fails on its own scenario: neither script recovers the
    embedded array. *)
Lemma scenario_reply_is_rejected :
  Mainswapnil.parse_questions scenario = inl (JSONDecodeError scenario)
  /\ Mainswapnil1.parse_questions scenario = inl (JSONDecodeError scenario)
  /\ Mainswapnil.parse_questions scenario <> inr scenario_questions.
Proof.
  split; [vm_compute; reflexivity |].
  split; [vm_compute; reflexivity |].
  vm_compute. discriminate.
Qed.

(** The scenario's reply is not a JSON document, and both scripts fail
    on it with the decoder's error. *)
Lemma question_scripts_decode_the_whole_reply_witness :
  loads scenario = None
  /\ Mainswapnil.parse_questions scenario = inl (JSONDecodeError scenario)
  /\ Mainswapnil1.parse_questions scenario = inl (JSONDecodeError scenario).
Proof.
  assert (H : loads scenario = None) by (vm_compute; reflexivity).
  split; [exact H |].
  pose proof (question_scripts_decode_the_whole_reply scenario H) as T.
  split; [exact (proj1 T) | exact (proj1 (proj2 T))].
Defined.



(** C5 as stated fails in mainswapnil1.py: a reply that decodes to an
    object is rejected there. *)
Lemma mapping_is_rejected_by_mainswapnil1 :
  loads reply_object
  = Some (PDict [(lit "b", PStr (lit "Q1")); (lit "a", PStr (lit "Q2"))])
  /\ Mainswapnil1.parse_questions reply_object
     = inl (ValueError (lit "LLM did not return a JSON array of questions."))
  /\ Mainswapnil1.parse_questions reply_object
     <> inr [PStr (lit "Q1"); PStr (lit "Q2")].
Proof.
  split; [vm_compute; reflexivity |].
  split; [vm_compute; reflexivity |].
  vm_compute. discriminate.
Qed.

(** An object with members b and a, in this order: its values come out
    in this order, not sorted by name. *)
Lemma mapping_values_or_rejection_witness :
  loads reply_object
  = Some (PDict [(lit "b", PStr (lit "Q1")); (lit "a", PStr (lit "Q2"))])
  /\ Mainswapnil.parse_questions reply_object
     = inr [PStr (lit "Q1"); PStr (lit "Q2")].
Proof.
  assert (H : loads reply_object
              = Some (PDict [(lit "b", PStr (lit "Q1"));
                             (lit "a", PStr (lit "Q2"))]))
    by (vm_compute; reflexivity).
  split; [exact H |].
  exact (proj1 (mapping_values_or_rejection reply_object H)).
Defined.

(** C6 as stated fails: a list whose only element is a number is
    accepted by both scripts, and the number becomes a question. *)
Lemma number_list_is_accepted :
  loads reply_number_list = Some (PList [PInt 1])
  /\ Mainswapnil.parse_questions reply_number_list = inr [PInt 1]
  /\ Mainswapnil1.parse_questions reply_number_list = inr [PInt 1]
  /\ (forall s, PInt 1 <> PStr s).
Proof.
  split; [vm_compute; reflexivity |].
  split; [vm_compute; reflexivity |].
  split; [vm_compute; reflexivity |].
  intros s. discriminate.
Qed.

(** The reply [[1]]: both scripts take the number as the one question. *)
Lemma decoded_list_is_taken_as_is_witness :
  loads reply_number_list = Some (PList [PInt 1])
  /\ Mainswapnil.parse_questions reply_number_list = inr [PInt 1]
  /\ Mainswapnil1.parse_questions reply_number_list = inr [PInt 1].
Proof.
  assert (H : loads reply_number_list = Some (PList [PInt 1]))
    by (vm_compute; reflexivity).
  split; [exact H |].
  exact (decoded_list_is_taken_as_is reply_number_list H).
Defined.

(** C7 as stated fails for a string in which a high surrogate is followed
    by a low one: the encoder escapes the two, the decoder joins the two
    escapes into one character, and the parsed list differs from Q. *)
Lemma surrogate_pair_is_joined :
  str_ok surrogate_pair
  /\ Mainswapnil.parse_questions
       (dumps no_floats None (PList [PStr surrogate_pair]))
     = inr [PStr joined_pair]
  /\ Mainswapnil.parse_questions
       (dumps no_floats None (PList [PStr surrogate_pair]))
     <> inr [PStr surrogate_pair].
Proof.
  split; [repeat constructor |].
  split; [vm_compute; reflexivity |].
  vm_compute. discriminate.
Qed.

(** The two texts of the examples are plain. *)
Lemma plain_lit_Q1 : plain_text (lit "Q1").
Proof. split; [repeat constructor | reflexivity]. Defined.


(** A list with the same question twice comes back with both. *)
Lemma parse_dumps_round_trip_witness :
  Forall plain_text [lit "Q1"; lit "Q1"]
  /\ Mainswapnil.parse_questions
       (dumps no_floats None (PList (List.map PStr [lit "Q1"; lit "Q1"])))
     = inr (List.map PStr [lit "Q1"; lit "Q1"])
  /\ Mainswapnil1.parse_questions
       (dumps no_floats None (PList (List.map PStr [lit "Q1"; lit "Q1"])))
     = inr (List.map PStr [lit "Q1"; lit "Q1"]).
Proof.
  assert (H : Forall plain_text [lit "Q1"; lit "Q1"])
    by (constructor; [apply plain_lit_Q1 |];
        constructor; [apply plain_lit_Q1 | constructor]).
  split; [exact H |].
  exact (parse_dumps_round_trip no_floats H).
Defined.



(** An object reply, one submitted answer, and then a second reply: the
    outcome is the outcome of the second reply on a new session. *)
Lemma load_resets_witness :
  Mainswapnil.parse_questions reply_number_list = inr [PInt 1]
  /\ (let prior := run_all (Mainswapnil.interact no_floats)
                           [generate reply_object; submit (lit "A1")]
                           session_defaults in
      answers prior = [qa_dict (PStr (lit "Q1")) (lit "A1")]
      /\ Mainswapnil.interact no_floats (generate reply_number_list) prior
         = Mainswapnil.interact no_floats (generate reply_number_list)
                                session_defaults
      /\ session_of (Mainswapnil.interact no_floats
                       (generate reply_number_list) prior)
         = mkSession [PInt 1] [] 0).
Proof.
  assert (P : Mainswapnil.parse_questions reply_number_list = inr [PInt 1])
    by (vm_compute; reflexivity).
  split; [exact P |]. cbv zeta.
  split; [vm_compute; reflexivity |].
  exact (proj1 (load_resets no_floats None
                  [generate reply_object; submit (lit "A1")]
                  reply_number_list) _ P).
Defined.

End Runs.


(** * More on the session controller *)

Section Pairing.

Import SessionFacts.

Variable fs : pystr -> pystr.
Variable FPDF : option (list pyval -> option pystr).

Lemma firstn_succ_nth (A : Type) (l : list A) (d : A) :
  forall n, n < List.length l -> firstn (S n) l = firstn n l ++ [nth n l d].
Proof.
  induction l as [| a l IH]; intros n Hn; cbn [List.length] in Hn; [lia |].
  destruct n as [| n]; [reflexivity |].
  rewrite firstn_cons, IH by lia. reflexivity.
Qed.

Lemma answered_snoc (Q : list pyval) :
  forall (texts : list pystr) (q : pyval) (t : pystr),
    List.length texts = List.length Q ->
    answered (Q ++ [q]) (texts ++ [t]) = answered Q texts ++ [qa_dict q t].
Proof.
  unfold answered.
  induction Q as [| q0 Q IH]; intros texts q t Hlen;
    destruct texts as [| t0 texts]; try discriminate; [reflexivity |].
  cbn [app combine List.map]. f_equal. apply IH. cbn in Hlen. lia.
Qed.

Lemma phase_in_progress (st : Session) :
  phase st = InProgress -> idx st < List.length (questions st).
Proof.
  unfold phase. destruct (questions st) as [| q qs]; [discriminate |].
  destruct (idx st <? List.length (q :: qs)) eqn:E; [| discriminate].
  intros _. apply Nat.ltb_lt. exact E.
Qed.

Lemma qa_step_paired (w : Widgets) (st : Session) :
  paired st -> paired (qa_step w st).
Proof.
  intros Hp. unfold qa_step.
  destruct (phase st) eqn:Eph; try exact Hp.
  destruct (submit_clicked w); [| exact Hp].
  apply phase_in_progress in Eph.
  destruct Hp as (_ & texts & Hlen & Hans).
  unfold paired, submit_handler. cbn [questions answers idx].
  split; [lia |].
  exists (texts ++ [answer_text w]). split.
  - rewrite length_app. cbn [List.length]. lia.
  - rewrite (firstn_succ_nth (questions st) PNone Eph), Hans.
    rewrite answered_snoc; [reflexivity |].
    rewrite firstn_length_le by lia. exact Hlen.
Qed.

Lemma store_state_paired (qs : list pyval) (st : Session) :
  paired (store_state qs st).
Proof.
  unfold paired, store_state. cbn [questions answers idx].
  split; [lia |]. exists []. split; reflexivity.
Qed.

Lemma script_step_paired (parse : pystr -> Exn + list pyval) (w : Widgets)
      (st : Session) :
  paired st -> paired (script_step parse w st).
Proof.
  intros Hp. unfold script_step.
  destruct (form w) as [| msg | raw].
  - apply qa_step_paired. exact Hp.
  - exact Hp.
  - destruct (parse raw) as [exc | qs]; [exact Hp |].
    apply qa_step_paired. apply store_state_paired.
Qed.

Lemma run_all_paired (run : Widgets -> Session -> Outcome)
      (parse : pystr -> Exn + list pyval) :
  (forall w st, session_of (run w st) = script_step parse w st) ->
  forall ws st, paired st -> paired (run_all run ws st).
Proof.
  intros Hrun ws. induction ws as [| w ws IH]; intros st Hp; [exact Hp |].
  unfold run_all in *. cbn [fold_left]. apply IH.
  rewrite Hrun. apply script_step_paired. exact Hp.
Qed.

Lemma defaults_paired : paired session_defaults.
Proof. split; [apply Nat.le_refl |]. exists []. split; reflexivity. Qed.

Lemma paired_question (st : Session) (i : nat) :
  paired st -> i < idx st ->
  question_of (nth i (answers st) PNone) = Some (nth i (questions st) PNone).
Proof.
  intros (Hle & texts & Hlen & Hans) Hi. rewrite Hans.
  rewrite question_of_answered.
  - rewrite nth_firstn.
    assert (E : (i <? idx st) = true) by (apply Nat.ltb_lt; exact Hi).
    rewrite E. reflexivity.
  - rewrite firstn_length_le by exact Hle. exact Hlen.
  - rewrite firstn_length_le by exact Hle. exact Hi.
Qed.

(** X1: after any sequence of runs of either script from the session
    defaults, the cursor is at most the number of questions: the index
    used on the question list is never out of range by more than the
    completed position. *)
Theorem cursor_within_questions (ws : list Widgets) :
  (let st := run_all (Mainswapnil.script fs) ws session_defaults in
   idx st <= List.length (questions st))
  /\ (let st := run_all (Mainswapnil1.script fs FPDF) ws session_defaults in
      idx st <= List.length (questions st)).
Proof.
  split; cbv zeta.
  - apply (@run_all_paired (Mainswapnil.script fs) Mainswapnil.parse_questions
             (mainswapnil_script_session fs) ws _ defaults_paired).
  - apply (@run_all_paired (Mainswapnil1.script fs FPDF)
             Mainswapnil1.parse_questions
             (mainswapnil1_script_session fs FPDF) ws _ defaults_paired).
Qed.

(** X2: after any sequence of runs of either script (loads, failed
    loads, submitted answers, in any order), every stored answer carries
    the question that stands at its own position in the current question
    list. *)
Theorem stored_answers_match_questions (ws : list Widgets) (i : nat) :
  (let st := run_all (Mainswapnil.script fs) ws session_defaults in
   i < idx st ->
   question_of (nth i (answers st) PNone) = Some (nth i (questions st) PNone))
  /\ (let st := run_all (Mainswapnil1.script fs FPDF) ws session_defaults in
      i < idx st ->
      question_of (nth i (answers st) PNone)
      = Some (nth i (questions st) PNone)).
Proof.
  split; cbv zeta; intros Hi; apply paired_question; try exact Hi.
  - apply (@run_all_paired (Mainswapnil.script fs) Mainswapnil.parse_questions
             (mainswapnil_script_session fs) ws _ defaults_paired).
  - apply (@run_all_paired (Mainswapnil1.script fs FPDF)
             Mainswapnil1.parse_questions
             (mainswapnil1_script_session fs FPDF) ws _ defaults_paired).
Qed.

End Pairing.


(** * The methods of [str] *)

Module StrFacts.

Import Str.

Lemma pystr_eqb_true (a b : pystr) : pystr_eqb a b = true <-> a = b.
Proof.
  unfold pystr_eqb. destruct (list_eq_dec N.eq_dec a b); split; intros H;
    try assumption; try reflexivity; try discriminate; contradiction.
Qed.

Lemma contains_lstrip (x : char) (s : pystr) :
  isspace x = false -> contains x (lstrip s) = contains x s.
Proof.
  intros Hx. induction s as [| c r IH]; [reflexivity |].
  cbn [lstrip]. destruct (isspace c) eqn:Ec; [| reflexivity].
  rewrite IH. unfold contains. cbn [existsb].
  destruct (c =? x)%N eqn:E; [| reflexivity].
  apply N.eqb_eq in E. subst. rewrite Hx in Ec. discriminate.
Qed.

Lemma contains_rstrip (x : char) (s : pystr) :
  isspace x = false -> contains x (rstrip s) = contains x s.
Proof.
  intros Hx. unfold contains. induction s as [| c r IH]; [reflexivity |].
  cbn [rstrip existsb]. rewrite <- IH.
  destruct (rstrip r) as [| d r'].
  - destruct (isspace c) eqn:Ec; cbn [existsb]; [| reflexivity].
    destruct (c =? x)%N eqn:E; [| reflexivity].
    apply N.eqb_eq in E. subst. rewrite Hx in Ec. discriminate.
  - reflexivity.
Qed.

Lemma contains_strip (x : char) (s : pystr) :
  isspace x = false -> contains x (strip s) = contains x s.
Proof.
  intros Hx. unfold strip.
  rewrite contains_lstrip, contains_rstrip by exact Hx. reflexivity.
Qed.

(** A string holding the separator splits, at its first occurrence, in
    exactly two parts. *)
Lemma split1_parts (sep : char) (s : pystr) :
  contains sep s = true ->
  exists k v, split1 sep s = [k; v] /\ s = k ++ sep :: v
              /\ contains sep k = false.
Proof.
  unfold contains. induction s as [| c r IH]; [discriminate |].
  cbn [existsb split1]. destruct (c =? sep)%N eqn:E.
  - intros _. apply N.eqb_eq in E. subst. exists [], r. repeat split.
  - cbn [orb]. intros H. destruct (IH H) as (k & v & Hs & Hr & Hk).
    rewrite Hs. exists (c :: k), v. subst r. cbn [existsb app].
    rewrite E, Hk. repeat split.
Qed.


Lemma split_nonempty (sep : char) (s : pystr) : split sep s <> [].
Proof.
  destruct s as [| c r]; cbn [split]; [discriminate |].
  destruct (c =? sep)%N; [discriminate |].
  destruct (split sep r); discriminate.
Qed.

Lemma split_repeat (sep : char) (n : nat) :
  split sep (repeat sep n) = repeat [] (S n).
Proof.
  induction n as [| n IH]; [reflexivity |].
  cbn [repeat split]. rewrite N.eqb_refl, IH. reflexivity.
Qed.

Lemma split_prefix (sep : char) (u rest : pystr) :
  contains sep u = false ->
  exists h t, split sep rest = h :: t /\ split sep (u ++ rest) = (u ++ h) :: t.
Proof.
  unfold contains. induction u as [| c u IH]; intros Hu.
  - destruct (split sep rest) as [| h t] eqn:E;
      [exfalso; exact (split_nonempty sep rest E) |].
    exists h, t. split; [reflexivity | exact E].
  - cbn [existsb] in Hu. apply orb_false_iff in Hu. destruct Hu as [Hc Hu].
    destruct (IH Hu) as (h & t & E1 & E2).
    exists h, t. split; [exact E1 |].
    cbn [app split]. rewrite Hc, E2. reflexivity.
Qed.

End StrFacts.

(** * The .env file without dotenv *)

Section DotenvFacts.

Import Str Dotenv StrFacts.

Variable putenv_ok : pystr -> pystr -> bool.

Lemma environ_get_app (env : Environ) (k v k' : pystr) :
  environ_get (env ++ [(k, v)]) k'
  = match environ_get env k' with
    | Some x => Some x
    | None => if pystr_eqb k k' then Some v else None
    end.
Proof.
  unfold environ_get. induction env as [| [k0 v0] env IH].
  - cbn. destruct (pystr_eqb k k'); reflexivity.
  - cbn [app find fst]. destruct (pystr_eqb k0 k'); [reflexivity | exact IH].
Qed.

Lemma setdefault_keeps (env env' : Environ) (k v k' v' : pystr) :
  setdefault putenv_ok env k v = Some env' ->
  environ_get env k' = Some v' -> environ_get env' k' = Some v'.
Proof.
  unfold setdefault. destruct (environ_get env k); intros H Hg.
  - inversion H; subst. exact Hg.
  - destruct (putenv_ok k v); [| discriminate]. inversion H; subst.
    rewrite environ_get_app, Hg. reflexivity.
Qed.

Lemma setdefault_origin (env env' : Environ) (k v k' v' : pystr) :
  setdefault putenv_ok env k v = Some env' ->
  environ_get env' k' = Some v' ->
  environ_get env k' = Some v' \/ (k' = k /\ v' = v).
Proof.
  unfold setdefault. destruct (environ_get env k); intros H Hg.
  - inversion H; subst. left. exact Hg.
  - destruct (putenv_ok k v); [| discriminate]. inversion H; subst.
    rewrite environ_get_app in Hg.
    destruct (environ_get env k'); [left; exact Hg |].
    destruct (pystr_eqb k k') eqn:E; [| discriminate].
    apply pystr_eqb_true in E. inversion Hg; subst. right. split; reflexivity.
Qed.

(** X3: a line that holds an equals sign always unpacks: the stripped
    line splits in exactly a name and a value, the name has no equals
    sign, and name, equals sign and value make up the stripped line. *)
Theorem env_line_unpacks (line : pystr) :
  contains 61%N line = true ->
  exists k v, split1 61%N (strip line) = [k; v]
              /\ strip line = k ++ [61%N] ++ v
              /\ contains 61%N k = false.
Proof.
  intros H. apply split1_parts.
  rewrite contains_strip by reflexivity. exact H.
Qed.


(** X5: the loop never changes a variable that is already set, in the
    environment it starts from or by an earlier line of the file. *)
Theorem env_loader_keeps_variables (fh : list pystr) :
  forall env env' k v,
    load_lines putenv_ok fh env = Some env' ->
    environ_get env k = Some v -> environ_get env' k = Some v.
Proof.
  induction fh as [| line rest IH]; intros env env' k v H Hg.
  - inversion H; subst. exact Hg.
  - cbn [load_lines] in H.
    destruct (contains 61%N line && negb (startswith 35%N (lstrip line)));
      [| exact (IH _ _ _ _ H Hg)].
    destruct (split1 61%N (strip line)) as [| k0 [| v0 [| x l]]];
      try discriminate.
    destruct (setdefault putenv_ok env k0 v0) as [env1 |] eqn:E;
      [| discriminate].
    apply (IH _ _ _ _ H). eapply setdefault_keeps; eassumption.
Qed.

(** X6: every variable the environment holds after the loop was either
    set before it, or is the name and the value of a line of the file
    that holds an equals sign and does not start, after white space, with
    a hash. *)
Theorem env_loader_adds_only_lines (fh : list pystr) :
  forall env env' k v,
    load_lines putenv_ok fh env = Some env' ->
    environ_get env' k = Some v ->
    environ_get env k = Some v
    \/ exists line, In line fh
                    /\ strip line = k ++ [61%N] ++ v
                    /\ startswith 35%N (lstrip line) = false.
Proof.
  induction fh as [| line rest IH]; intros env env' k v H Hg.
  - inversion H; subst. left. exact Hg.
  - cbn [load_lines] in H.
    destruct (contains 61%N line) eqn:Ec; cbn [andb] in H.
    2:{ destruct (IH _ _ _ _ H Hg) as [Hl | (l & Hin & Hl)];
          [left; exact Hl | right; exists l; split; [right; exact Hin | exact Hl]]. }
    destruct (startswith 35%N (lstrip line)) eqn:Eh; cbn [negb] in H.
    { destruct (IH _ _ _ _ H Hg) as [Hl | (l & Hin & Hl)];
        [left; exact Hl | right; exists l; split; [right; exact Hin | exact Hl]]. }
    destruct (env_line_unpacks line Ec) as (k0 & v0 & Hs & Hline & _).
    rewrite Hs in H.
    destruct (setdefault putenv_ok env k0 v0) as [env1 |] eqn:E;
      [| discriminate].
    destruct (IH _ _ _ _ H Hg) as [Hl | (l & Hin & Hl)].
    + destruct (setdefault_origin _ _ _ _ E Hl) as [Ho | [Hk Hv]];
        [left; exact Ho |].
      subst. right. exists line. split; [left; reflexivity |].
      split; [exact Hline | exact Eh].
    + right. exists l. split; [right; exact Hin | exact Hl].
Qed.

End DotenvFacts.


(** * mainswapnil.py: the checks before the LLM call *)

Section GenerateFacts.

Import Str Generate StrFacts.

Variable urlparse : pystr -> option (pystr * pystr).
Variable lower : pystr -> pystr.
Variable fetch_readme : pystr -> pystr.

Lemma user_path_slash (r : pystr) : user_path (47%N :: r) = user_path r.
Proof. reflexivity. Qed.

Lemma user_path_repeat (n : nat) : user_path (repeat 47%N n) = [].
Proof.
  unfold user_path. rewrite split_repeat.
  induction n as [| n IH]; [reflexivity | exact IH].
Qed.

Lemma user_path_none (r : pystr) :
  user_path r = [] -> r = repeat 47%N (List.length r).
Proof.
  induction r as [| c r IH]; [reflexivity |].
  destruct (c =? 47)%N eqn:E.
  - apply N.eqb_eq in E. subst. rewrite user_path_slash. intros H.
    cbn [List.length repeat]. f_equal. apply IH. exact H.
  - unfold user_path. cbn [split]. rewrite E.
    destruct (split 47%N r); discriminate.
Qed.

Lemma split_head_parts (r : pystr) :
  forall h t, split 47%N r = h :: t ->
    contains 47%N h = false
    /\ ((t = [] /\ r = h)
        \/ exists r', r = h ++ 47%N :: r' /\ split 47%N r' = t).
Proof.
  unfold contains. induction r as [| c r IH]; intros h t H.
  - inversion H; subst. split; [reflexivity | left; split; reflexivity].
  - cbn [split] in H. destruct (c =? 47)%N eqn:E.
    + apply N.eqb_eq in E. inversion H; subst.
      split; [reflexivity |]. right. exists r. split; reflexivity.
    + destruct (split 47%N r) as [| h0 t0] eqn:Es;
        [exfalso; exact (split_nonempty _ _ Es) |].
      injection H as Hh0 Ht0. subst h t.
      destruct (IH h0 t0 eq_refl) as (Hh & [[Ht Hr] | (r' & Hr & Hs)]).
      * split; [cbn [existsb]; rewrite E, Hh; reflexivity |].
        left. subst. split; reflexivity.
      * split; [cbn [existsb]; rewrite E, Hh; reflexivity |].
        right. exists r'. subst. split; reflexivity.
Qed.

Lemma user_path_one (path : pystr) :
  forall user, user_path path = [user] ->
    user <> [] /\ contains 47%N user = false
    /\ exists a b, path = repeat 47%N a ++ user ++ repeat 47%N b.
Proof.
  induction path as [| c r IH]; intros user H; [discriminate |].
  destruct (c =? 47)%N eqn:E.
  - apply N.eqb_eq in E. subst. rewrite user_path_slash in H.
    destruct (IH user H) as (Hne & Hc & a & b & Hp).
    split; [exact Hne |]. split; [exact Hc |].
    exists (S a), b. subst r. reflexivity.
  - unfold user_path in H. cbn [split] in H. rewrite E in H.
    destruct (split 47%N r) as [| h t] eqn:Es;
      [exfalso; exact (split_nonempty _ _ Es) |].
    cbn [filter] in H. inversion H as [[Hu Ht]]. clear H.
    destruct (split_head_parts r Es) as (Hh & [[Ht0 Hr] | (r' & Hr & Hs)]).
    + split; [discriminate |].
      split; [unfold contains in *; cbn [existsb]; rewrite E, Hh; reflexivity |].
      exists 0, 0. subst. cbn [repeat app]. rewrite app_nil_r. reflexivity.
    + split; [discriminate |].
      split; [unfold contains in *; cbn [existsb]; rewrite E, Hh; reflexivity |].
      subst t. fold (user_path r') in Ht.
      exists 0, (S (List.length r')). cbn [repeat app].
      rewrite <- (user_path_none r' Ht). subst r. reflexivity.
Qed.

Lemma user_path_shape (a b : nat) (user : pystr) :
  user <> [] -> contains 47%N user = false ->
  user_path (repeat 47%N a ++ user ++ repeat 47%N b) = [user].
Proof.
  intros Hne Hc. induction a as [| a IH].
  - cbn [repeat app]. unfold user_path.
    destruct (split_prefix 47%N user (repeat 47%N b) Hc) as (h & t & E1 & E2).
    rewrite E2. rewrite split_repeat in E1. cbn [repeat] in E1.
    inversion E1; subst. rewrite app_nil_r.
    destruct user as [| c u]; [contradiction |]. cbn [filter].
    f_equal. clear. induction b as [| b IH]; [reflexivity | exact IH].
  - cbn [repeat app]. rewrite user_path_slash. exact IH.
Qed.

(** X7: the path of a profile URL.  The path is taken for a user name
    exactly when it is one segment that is not empty and holds no slash,
    with any number of slashes before and after it; that segment is the
    user name. *)
Theorem profile_path_is_one_segment (path user : pystr) :
  user_path path = [user]
  <-> (user <> [] /\ contains 47%N user = false
       /\ exists a b, path = repeat 47%N a ++ user ++ repeat 47%N b).
Proof.
  split.
  - apply user_path_one.
  - intros (Hne & Hc & a & b & Hp). subst path.
    apply user_path_shape; assumption.
Qed.

(** X8: what the validation accepts.  It returns a user name exactly
    when the URL is not blank, the URL parses, the lowered host without
    trailing slashes is github.com or www.github.com, and the path is
    that one user name between slashes. *)
Theorem validate_accepts (github_url user : pystr) :
  validate urlparse lower github_url = Some (inr user)
  <-> (strip github_url <> []
       /\ exists netloc path,
            urlparse github_url = Some (netloc, path)
            /\ (let host := rstrip_char 47%N (lower netloc) in
                host = lit "github.com" \/ host = lit "www.github.com")
            /\ user <> [] /\ contains 47%N user = false
            /\ exists a b, path = repeat 47%N a ++ user ++ repeat 47%N b).
Proof.
  unfold validate. cbv zeta. split.
  - destruct (strip github_url) as [| c r]; [discriminate |].
    destruct (urlparse github_url) as [[netloc path] |]; [| discriminate].
    set (host := rstrip_char 47%N (lower netloc)).
    destruct (pystr_eqb host (lit "github.com")
              || pystr_eqb host (lit "www.github.com")) eqn:Eh;
      cbn [negb]; [| discriminate].
    destruct (user_path path) as [| u [| u2 l]] eqn:Eu; try discriminate.
    intros H. inversion H; subst u.
    split; [discriminate |]. exists netloc, path.
    split; [reflexivity |]. split.
    + apply orb_true_iff in Eh.
      destruct Eh as [Eh | Eh]; apply pystr_eqb_true in Eh; auto.
    + apply user_path_one. exact Eu.
  - intros (Hs & netloc & path & Ep & Hh & Hne & Hc & a & b & Hp).
    destruct (strip github_url) as [| c r]; [contradiction |].
    rewrite Ep.
    set (host := rstrip_char 47%N (lower netloc)) in *.
    assert (Eh : pystr_eqb host (lit "github.com")
                 || pystr_eqb host (lit "www.github.com") = true).
    { apply orb_true_iff.
      destruct Hh as [Hh | Hh]; [left | right]; apply pystr_eqb_true; exact Hh. }
    rewrite Eh. cbn [negb]. subst path.
    rewrite (user_path_shape a b Hne Hc). reflexivity.
Qed.



End GenerateFacts.


(** * The required inputs *)

Section InputsFacts.

Import Str Inputs StrFacts.

Lemma rstrip_spaces (s : pystr) :
  forallb isspace s = true -> rstrip s = [].
Proof.
  induction s as [| c r IH]; [reflexivity |].
  cbn [forallb rstrip]. intros H. apply andb_true_iff in H.
  destruct H as [Hc Hr]. rewrite (IH Hr), Hc. reflexivity.
Qed.

Lemma rstrip_nil (s : pystr) : rstrip s = [] -> forallb isspace s = true.
Proof.
  induction s as [| c r IH]; [reflexivity |].
  cbn [forallb rstrip]. destruct (rstrip r) as [| c' r'] eqn:E;
    [| discriminate].
  destruct (isspace c); [| discriminate].
  intros _. apply IH. reflexivity.
Qed.

Lemma rstrip_ends (s : pystr) :
  forallb isspace (rstrip s) = true -> rstrip s = [].
Proof.
  induction s as [| c r IH]; [reflexivity |].
  cbn [rstrip]. destruct (rstrip r) as [| c' r'] eqn:E.
  - destruct (isspace c) eqn:Ec; [reflexivity |].
    cbn [forallb]. rewrite Ec. discriminate.
  - intros H. cbn [forallb] in H. apply andb_true_iff in H.
    destruct H as [_ H]. specialize (IH H). discriminate.
Qed.

Lemma lstrip_nil (s : pystr) : lstrip s = [] -> forallb isspace s = true.
Proof.
  induction s as [| c r IH]; [reflexivity |].
  cbn [forallb lstrip]. destruct (isspace c); [exact IH | discriminate].
Qed.

(** A text is blank exactly when it holds white space only. *)
Lemma blank_spaces (s : pystr) : blank s = forallb isspace s.
Proof.
  unfold blank, strip.
  destruct (lstrip (rstrip s)) as [| c r] eqn:E.
  - symmetry. apply rstrip_nil. apply rstrip_ends. apply lstrip_nil.
    exact E.
  - destruct (forallb isspace s) eqn:F; [| reflexivity].
    rewrite (rstrip_spaces s F) in E. discriminate.
Qed.

Lemma not_blank (s : pystr) :
  blank s = false <-> exists c, In c s /\ isspace c = false.
Proof.
  rewrite blank_spaces. split.
  - intros H. induction s as [| c r IH]; [discriminate |].
    cbn [forallb] in H. destruct (isspace c) eqn:Ec.
    + destruct (IH H) as (x & Hx & Hs). exists x.
      split; [right; exact Hx | exact Hs].
    + exists c. split; [left; reflexivity | exact Ec].
  - intros (c & Hc & Hs). destruct (forallb isspace s) eqn:F;
      [| reflexivity].
    rewrite forallb_forall in F. rewrite (F c Hc) in Hs. discriminate.
Qed.

(** X14 (main.py, the test on the required inputs; mainswapnil1.py, the
    check of the name).  An input of white space alone counts as
    missing: main.py goes on exactly when each of its five required
    inputs holds a character that is not white space, and mainswapnil1.py
    shows no error for the name exactly when the name holds one. *)
Theorem required_inputs_need_text
        (url_input student_name university_name linkedin_url
           openai_api_key : pystr) :
  (inputs_missing url_input student_name university_name linkedin_url
                  openai_api_key = false
   <-> Forall (fun s => exists c, In c s /\ isspace c = false)
              [url_input; student_name; university_name; linkedin_url;
               openai_api_key])
  /\ (name_check student_name = None
      <-> exists c, In c student_name /\ isspace c = false).
Proof.
  split.
  - unfold inputs_missing. rewrite !orb_false_iff, !not_blank. split.
    + intros ((((H1 & H2) & H3) & H4) & H5).
      repeat (constructor; [assumption |]). constructor.
    + intros H. inversion_clear H as [| ? ? H1 Hr].
      inversion_clear Hr as [| ? ? H2 Hr'].
      inversion_clear Hr' as [| ? ? H3 Hr].
      inversion_clear Hr as [| ? ? H4 Hr'].
      inversion_clear Hr' as [| ? ? H5 _]. tauto.
  - unfold name_check. rewrite <- not_blank.
    destruct (blank student_name); split; intros H;
      try reflexivity; discriminate.
Qed.

End InputsFacts.


(** * More on the job-details clean-up of main.py *)

Section CleanUp.

Import Main MainFacts.

Lemma upto_last_closer_absent (post : pystr) :
  forallb (fun c => negb (is_closer c)) post = true ->
  upto_last_closer post = None.
Proof.
  induction post as [| c r IH]; [reflexivity |].
  cbn [forallb upto_last_closer]. intros H.
  apply andb_true_iff in H. destruct H as [Hc Hr].
  rewrite (IH Hr). apply negb_true_iff in Hc. rewrite Hc. reflexivity.
Qed.

Lemma upto_last_closer_found (mid post : pystr) (c : char) :
  is_closer c = true ->
  forallb (fun c => negb (is_closer c)) post = true ->
  upto_last_closer (mid ++ c :: post) = Some (mid ++ [c]).
Proof.
  intros Hc Hp. induction mid as [| x mid IH].
  - cbn [app upto_last_closer].
    rewrite (upto_last_closer_absent post Hp), Hc. reflexivity.
  - cbn [app upto_last_closer]. rewrite IH. reflexivity.
Qed.

Lemma json_match_skips (pre s : pystr) :
  forallb (fun c => negb (is_opener c)) pre = true ->
  json_match (pre ++ s) = json_match s.
Proof.
  induction pre as [| x pre IH]; [reflexivity |].
  cbn [forallb app json_match]. intros H.
  apply andb_true_iff in H. destruct H as [Hx Hp].
  apply negb_true_iff in Hx. rewrite Hx. apply IH. exact Hp.
Qed.

Lemma json_match_found (pre mid post : pystr) (o c : char) :
  is_opener o = true -> is_closer c = true ->
  forallb (fun c => negb (is_opener c)) pre = true ->
  forallb (fun c => negb (is_closer c)) post = true ->
  json_match (pre ++ (o :: mid ++ [c]) ++ post) = Some (o :: mid ++ [c]).
Proof.
  intros Ho Hc Hpre Hpost. rewrite json_match_skips by exact Hpre.
  cbn [app json_match]. rewrite Ho. rewrite <- app_assoc. cbn [app].
  rewrite upto_last_closer_found by assumption. reflexivity.
Qed.

(** X10: text around the JSON is dropped.  When the reply is a text that
    starts with an opening bracket or brace and ends with a closing one,
    with anything before it that holds no opening bracket or brace and
    anything after it that holds no closing one, the job details are
    what decoding that text alone gives. *)
Theorem job_details_drops_the_wrapper (pre mid post : pystr) (o c : char) :
  is_opener o = true -> is_closer c = true ->
  forallb (fun c => negb (is_opener c)) pre = true ->
  forallb (fun c => negb (is_closer c)) post = true ->
  json_str (pre ++ (o :: mid ++ [c]) ++ post) = o :: mid ++ [c]
  /\ job_details (pre ++ (o :: mid ++ [c]) ++ post) = loads (o :: mid ++ [c]).
Proof.
  intros Ho Hc Hpre Hpost. unfold job_details, json_str.
  rewrite json_match_found by assumption. split; reflexivity.
Qed.

(** X11: the clean-up is idempotent: cleaning a cleaned reply changes
    nothing. *)
Theorem json_str_idempotent (content : pystr) :
  json_str (json_str content) = json_str content.
Proof.
  unfold json_str.
  destruct (json_match content) as [m |] eqn:E.
  - destruct (json_match_span content E)
      as (pre & post & o & mid & c & _ & Hm & Ho & Hc & _ & _).
    subst m.
    pose proof (@json_match_found [] mid [] o c Ho Hc eq_refl eq_refl) as H.
    cbn [app] in H. rewrite app_nil_r in H. rewrite H. reflexivity.
  - rewrite E. reflexivity.
Qed.

End CleanUp.


(** * More on the decoder: fuel and white space *)

Module ScanFacts.

Import JsonFacts.

(** More fuel never changes a result. *)
Lemma scan_mono (f : nat) :
  forall f', f <= f' ->
    (forall s r, scan_once f s = Some r -> scan_once f' s = Some r)
    /\ (forall s values r,
           array_loop f s values = Some r -> array_loop f' s values = Some r)
    /\ (forall s pairs r,
           object_loop f s pairs = Some r -> object_loop f' s pairs = Some r).
Proof.
  induction f as [| f IH]; intros f' Hle;
    [repeat split; intros; discriminate |].
  destruct f' as [| f']; [lia |].
  destruct (IH f' ltac:(lia)) as (IH1 & IH2 & IH3).
  repeat split.
  - intros s r H. cbn [scan_once] in H |- *. cbv zeta in H |- *.
    destruct s as [| c r0]; [discriminate |].
    destruct (c =? 34)%N; [exact H |].
    destruct (c =? 123)%N.
    { destruct (skip_ws r0) as [| c1 r2]; [exact H |].
      destruct (c1 =? 125)%N; [exact H |].
      destruct (c1 =? 34)%N; [| exact H].
      destruct (object_loop f r2 []) as [[ps rest] |] eqn:E; [| discriminate].
      rewrite (IH3 _ _ _ E). exact H. }
    destruct (c =? 91)%N; [| exact H].
    destruct (skip_ws r0) as [| c1 r2]; [exact H |].
    destruct (c1 =? 93)%N; [exact H |].
    destruct (array_loop f (c1 :: r2) []) as [[vs rest] |] eqn:E;
      [| discriminate].
    rewrite (IH2 _ _ _ E). exact H.
  - intros s values r H. cbn [array_loop] in H |- *. cbv zeta in H |- *.
    destruct (scan_once f s) as [[v rest] |] eqn:E; [| discriminate].
    rewrite (IH1 _ _ E).
    destruct (skip_ws rest) as [| c r1]; [exact H |].
    destruct (c =? 93)%N; [exact H |].
    destruct (c =? 44)%N; [| exact H].
    apply IH2. exact H.
  - intros s pairs r H. cbn [object_loop] in H |- *. cbv zeta in H |- *.
    destruct (scanstring s) as [[key rest] |]; [| discriminate].
    destruct (skip_ws rest) as [| c r1]; [exact H |].
    destruct (c =? 58)%N; [| exact H].
    destruct (scan_once f (skip_ws r1)) as [[v rest1] |] eqn:E;
      [| discriminate].
    rewrite (IH1 _ _ E).
    destruct (skip_ws rest1) as [| c1 r2]; [exact H |].
    destruct (c1 =? 125)%N; [exact H |].
    destruct (c1 =? 44)%N; [| exact H].
    destruct (skip_ws r2) as [| c2 r3]; [exact H |].
    destruct (c2 =? 34)%N; [| exact H].
    apply IH3. exact H.
Qed.

(** What [decode] finds with its own fuel is what any fuel that finds
    something finds. *)
Lemma decode_fuel (s : pystr) (f : nat) (r : pyval * pystr) :
  scan_once f (skip_ws s) = Some r ->
  scan_once (2 * List.length s + 1) (skip_ws s) = Some r.
Proof.
  intros H.
  destruct (Nat.le_gt_cases f (2 * List.length s + 1)) as [Hle | Hgt].
  - exact (proj1 (scan_mono Hle) _ _ H).
  - rewrite <- (scan_once_fuel s) with (f := f) by lia. exact H.
Qed.

(** ** Text added after the scanned text *)

Section Appended.

Variable t : pystr.

Ltac by_induction IH :=
  match goal with
  | H : cons_chr ?u (scanstring ?r) = Some _ |- _ =>
      let E := fresh "E" in
      let IH' := fresh "IH'" in
      destruct (scanstring r) as [[? ?] |] eqn:E; [| discriminate H];
      cbn [cons_chr] in H; inversion H; subst; clear H;
      pose proof (IH r _ _ ltac:(cbn [List.length] in *; lia) E) as IH';
      cbn [app] in IH' |- *; rewrite IH'; reflexivity
  end.

Lemma scanstring_app_aux (n : nat) :
  forall s x rest, List.length s <= n ->
    scanstring s = Some (x, rest) ->
    scanstring (s ++ t) = Some (x, rest ++ t).
Proof.
  induction n as [| n IH]; intros s x rest Hn H;
    destruct s as [| c r]; try discriminate; cbn [List.length] in Hn;
    [lia |].
  cbn [app]. cbn [scanstring] in H |- *.
  destruct (c =? 34)%N; [inversion H; subst; reflexivity |].
  destruct (c =? 92)%N.
  2:{ destruct (c <? 32)%N; [discriminate |]. by_induction IH. }
  destruct r as [| e r1]; [discriminate |]. cbn [app].
  destruct (e =? 117)%N.
  2:{ destruct (BACKSLASH e); [| discriminate]. by_induction IH. }
  destruct r1 as [| a [| b [| c1 [| d r2]]]]; try discriminate. cbn [app].
  destruct (hex4 a b c1 d) as [uni |]; [| discriminate].
  destruct (is_high_surrogate uni); [| by_induction IH].
  destruct r2 as [| x0 [| y r3]].
  - cbn in H. discriminate.
  - cbn [app]. destruct t as [| y r3] eqn:Et.
    + rewrite app_nil_r. exact H.
    + cbn [scanstring] in H. destruct (x0 =? 34)%N eqn:Ex.
      * apply N.eqb_eq in Ex. subst x0. cbn [cons_chr] in H.
        inversion H; subst. reflexivity.
      * destruct (x0 =? 92)%N; [discriminate |].
        destruct (x0 <? 32)%N; discriminate.
  - cbn [app]. destruct ((x0 =? 92) && (y =? 117))%N; [| by_induction IH].
    destruct r3 as [| a2 [| b2 [| c2 [| d2 r4]]]]; try discriminate.
    cbn [app]. destruct (hex4 a2 b2 c2 d2) as [uni2 |]; [| discriminate].
    destruct (is_low_surrogate uni2); by_induction IH.
Qed.

Lemma scanstring_app (s x rest : pystr) :
  scanstring s = Some (x, rest) -> scanstring (s ++ t) = Some (x, rest ++ t).
Proof. apply (@scanstring_app_aux (List.length s)). apply Nat.le_refl. Qed.

Lemma strip_prefix_app (w : pystr) :
  forall s rest, strip_prefix w s = Some rest ->
    strip_prefix w (s ++ t) = Some (rest ++ t).
Proof.
  induction w as [| a w IH]; intros s rest H; cbn [strip_prefix] in H |- *.
  - inversion H; subst. reflexivity.
  - destruct s as [| c r]; [discriminate |]. cbn [app].
    destruct (a =? c)%N; [apply IH; exact H | discriminate].
Qed.

Hypothesis t_blank : blank_start t.

Lemma ws_not_digit (c : char) : is_ws c = true -> is_digit c = false.
Proof.
  unfold is_ws. intros H.
  repeat (apply orb_true_iff in H; destruct H as [H | H]);
    apply N.eqb_eq in H; subst; reflexivity.
Qed.

Lemma strip_prefix_app_none (w : pystr) :
  forallb (fun c => negb (is_ws c)) w = true ->
  forall s, strip_prefix w s = None -> strip_prefix w (s ++ t) = None.
Proof.
  induction w as [| a w IH]; intros Hw s H; cbn [strip_prefix] in H |- *;
    [discriminate |].
  cbn [forallb] in Hw. apply andb_true_iff in Hw. destruct Hw as [Ha Hw].
  destruct s as [| c r].
  - cbn [app]. destruct t as [| c0 r0]; [reflexivity |].
    cbn in t_blank. destruct (a =? c0)%N eqn:E; [| reflexivity].
    apply N.eqb_eq in E. subst. rewrite t_blank in Ha. discriminate.
  - cbn [app]. destruct (a =? c)%N; [apply IH; assumption | reflexivity].
Qed.

Lemma span_digits_app (s : pystr) :
  span_digits (s ++ t) = (fst (span_digits s), snd (span_digits s) ++ t).
Proof.
  induction s as [| c r IH].
  - cbn [app span_digits fst snd]. destruct t as [| c0 r0]; [reflexivity |].
    cbn [span_digits]. rewrite (ws_not_digit c0 t_blank). reflexivity.
  - cbn [app span_digits]. destruct (is_digit c); [| reflexivity].
    rewrite IH. destruct (span_digits r) as [ds rest]. reflexivity.
Qed.

Lemma match_integer_app (s ip rest : pystr) :
  match_integer s = Some (ip, rest) ->
  match_integer (s ++ t) = Some (ip, rest ++ t).
Proof.
  unfold match_integer. destruct s as [| c r]; [discriminate |]. cbn [app].
  destruct (c =? 48)%N; [intros H; inversion H; subst; reflexivity |].
  destruct (is_digit c); [| discriminate].
  rewrite span_digits_app. destruct (span_digits r) as [ds rest'].
  cbn [fst snd]. intros H; inversion H; subst. reflexivity.
Qed.

Lemma match_integer_app_none (s : pystr) :
  match_integer s = None -> match_integer (s ++ t) = None.
Proof.
  unfold match_integer. destruct s as [| c r].
  - intros _. cbn [app]. destruct t as [| c0 r0]; [reflexivity |].
    cbn in t_blank. pose proof (ws_not_digit c0 t_blank) as Hd.
    rewrite Hd. destruct (c0 =? 48)%N eqn:E; [| reflexivity].
    apply N.eqb_eq in E. subst. discriminate.
  - cbn [app]. destruct (c =? 48)%N; [discriminate |].
    destruct (is_digit c); [| reflexivity].
    destruct (span_digits r); discriminate.
Qed.

Lemma match_frac_app (s : pystr) :
  match_frac (s ++ t) = (fst (match_frac s), snd (match_frac s) ++ t).
Proof.
  unfold match_frac. destruct s as [| c r].
  - cbn [app fst snd]. destruct t as [| c0 r0]; [reflexivity |].
    cbn in t_blank. destruct (c0 =? 46)%N eqn:E; [| reflexivity].
    apply N.eqb_eq in E. subst. discriminate.
  - cbn [app]. destruct (c =? 46)%N; [| reflexivity].
    rewrite span_digits_app. destruct (span_digits r) as [[| d ds] rest];
      reflexivity.
Qed.

Lemma match_exp_app (s : pystr) :
  match_exp (s ++ t) = (fst (match_exp s), snd (match_exp s) ++ t).
Proof.
  unfold match_exp. destruct s as [| c r].
  - cbn [app fst snd]. destruct t as [| c0 r0]; [reflexivity |].
    cbn in t_blank.
    destruct ((c0 =? 101) || (c0 =? 69))%N eqn:E; [| reflexivity].
    apply orb_true_iff in E. destruct E as [E | E];
      apply N.eqb_eq in E; subst; discriminate.
  - cbn [app]. destruct ((c =? 101) || (c =? 69))%N; [| reflexivity].
    destruct r as [| g r1].
    + cbn [app fst snd]. destruct t as [| c0 r0]; [reflexivity |].
      cbn in t_blank.
      assert (Hs : ((c0 =? 45) || (c0 =? 43))%N = false).
      { destruct ((c0 =? 45) || (c0 =? 43))%N eqn:E; [| reflexivity].
        apply orb_true_iff in E. destruct E as [E | E];
          apply N.eqb_eq in E; subst; discriminate. }
      rewrite Hs. cbn [span_digits].
      rewrite (ws_not_digit c0 t_blank). reflexivity.
    + cbn [app]. destruct ((g =? 45) || (g =? 43))%N.
      * rewrite span_digits_app.
        destruct (span_digits r1) as [[| d ds] rest]; reflexivity.
      * change (g :: r1 ++ t) with ((g :: r1) ++ t).
        rewrite span_digits_app.
        destruct (span_digits (g :: r1)) as [[| d ds] rest]; reflexivity.
Qed.

Lemma match_number_app (s : pystr) (v : pyval) (rest : pystr) :
  match_number s = Some (v, rest) ->
  match_number (s ++ t) = Some (v, rest ++ t).
Proof.
  unfold match_number. destruct s as [| c r]; [discriminate |]. cbn [app].
  destruct (c =? 45)%N.
  - destruct (match_integer r) as [[ip s2] |] eqn:Ei; [| discriminate].
    rewrite (match_integer_app r Ei).
    rewrite match_frac_app. destruct (match_frac s2) as [fp s3].
    cbn [fst snd]. rewrite match_exp_app.
    destruct (match_exp s3) as [ep s4]. cbn [fst snd].
    destruct fp, ep; intros H; inversion H; subst; reflexivity.
  - destruct (match_integer (c :: r)) as [[ip s2] |] eqn:Ei; [| discriminate].
    change (c :: r ++ t) with ((c :: r) ++ t).
    rewrite (match_integer_app (c :: r) Ei).
    rewrite match_frac_app. destruct (match_frac s2) as [fp s3].
    cbn [fst snd]. rewrite match_exp_app.
    destruct (match_exp s3) as [ep s4]. cbn [fst snd].
    destruct fp, ep; intros H; inversion H; subst; reflexivity.
Qed.

Lemma match_number_app_none (c : char) (r : pystr) :
  match_number (c :: r) = None -> match_number ((c :: r) ++ t) = None.
Proof.
  unfold match_number. cbn [app]. destruct (c =? 45)%N.
  - destruct (match_integer r) as [[ip s2] |] eqn:Ei.
    + destruct (match_frac s2) as [fp s3]. destruct (match_exp s3) as [ep s4].
      destruct fp, ep; discriminate.
    + intros _. rewrite (match_integer_app_none r Ei). reflexivity.
  - destruct (match_integer (c :: r)) as [[ip s2] |] eqn:Ei.
    + destruct (match_frac s2) as [fp s3]. destruct (match_exp s3) as [ep s4].
      destruct fp, ep; discriminate.
    + intros _. change (c :: r ++ t) with ((c :: r) ++ t).
      rewrite (match_integer_app_none (c :: r) Ei). reflexivity.
Qed.

Lemma skip_ws_app_cons (s : pystr) (c : char) (r : pystr) :
  skip_ws s = c :: r -> skip_ws (s ++ t) = c :: r ++ t.
Proof.
  induction s as [| c0 s IH]; [discriminate |].
  cbn [skip_ws app]. destruct (is_ws c0); [exact IH |].
  intros H. inversion H; subst. reflexivity.
Qed.

Lemma scan_once_nil (f : nat) : scan_once f [] = None.
Proof. destruct f; reflexivity. Qed.

Lemma array_loop_nil (f : nat) (values : list pyval) :
  array_loop f [] values = None.
Proof.
  destruct f as [| f]; [reflexivity |].
  cbn [array_loop]. rewrite scan_once_nil. reflexivity.
Qed.

Ltac literal_case H :=
  match goal with
  | |- context [strip_prefix ?w (?s ++ t)] =>
      let E := fresh "E" in
      destruct (strip_prefix w s) as [? |] eqn:E;
      [ rewrite (strip_prefix_app w s E); inversion H; subst; reflexivity
      | rewrite (@strip_prefix_app_none w eq_refl s E) ]
  end.

(** A scan that succeeds is not changed by text that follows, as long as
    that text starts with white space (or is empty). *)
Lemma scan_app (f : nat) :
  (forall s v rest,
      scan_once f s = Some (v, rest) ->
      scan_once f (s ++ t) = Some (v, rest ++ t))
  /\ (forall s values vs rest,
         array_loop f s values = Some (vs, rest) ->
         array_loop f (s ++ t) values = Some (vs, rest ++ t))
  /\ (forall s pairs ps rest,
         object_loop f s pairs = Some (ps, rest) ->
         object_loop f (s ++ t) pairs = Some (ps, rest ++ t)).
Proof.
  induction f as [| f (IH1 & IH2 & IH3)];
    [repeat split; intros; discriminate |].
  repeat split.
  - intros s v rest H. destruct s as [| c r]; [discriminate |].
    cbn [app]. cbn [scan_once] in H |- *. cbv zeta in H |- *.
    destruct (c =? 34)%N.
    { destruct (scanstring r) as [[x rest0] |] eqn:E; [| discriminate].
      rewrite (scanstring_app r E). inversion H; subst. reflexivity. }
    destruct (c =? 123)%N.
    { destruct (skip_ws r) as [| c1 r2] eqn:Es; [discriminate |].
      rewrite (skip_ws_app_cons r Es).
      destruct (c1 =? 125)%N; [inversion H; subst; reflexivity |].
      destruct (c1 =? 34)%N; [| discriminate].
      destruct (object_loop f r2 []) as [[ps rest0] |] eqn:E;
        [| discriminate].
      rewrite (IH3 _ _ _ _ E). inversion H; subst. reflexivity. }
    destruct (c =? 91)%N.
    { destruct (skip_ws r) as [| c1 r2] eqn:Es; [discriminate |].
      rewrite (skip_ws_app_cons r Es).
      destruct (c1 =? 93)%N; [inversion H; subst; reflexivity |].
      destruct (array_loop f (c1 :: r2) []) as [[vs rest0] |] eqn:E;
        [| discriminate].
      change (c1 :: r2 ++ t) with ((c1 :: r2) ++ t).
      rewrite (IH2 _ _ _ _ E). inversion H; subst. reflexivity. }
    change (c :: r ++ t) with ((c :: r) ++ t).
    literal_case H. literal_case H. literal_case H.
    destruct (match_number (c :: r)) as [[v0 rest0] |] eqn:En.
    { rewrite (match_number_app (c :: r) En). inversion H; subst.
      reflexivity. }
    rewrite (match_number_app_none c r En).
    literal_case H. literal_case H. literal_case H. discriminate.
  - intros s values vs rest H. cbn [array_loop] in H |- *.
    cbv zeta in H |- *.
    destruct (scan_once f s) as [[v rest0] |] eqn:E; [| discriminate].
    rewrite (IH1 _ _ _ E).
    destruct (skip_ws rest0) as [| c r] eqn:Es; [discriminate |].
    rewrite (skip_ws_app_cons rest0 Es).
    destruct (c =? 93)%N; [inversion H; subst; reflexivity |].
    destruct (c =? 44)%N; [| discriminate].
    destruct (skip_ws r) as [| c1 r1] eqn:Er;
      [rewrite array_loop_nil in H; discriminate |].
    rewrite (skip_ws_app_cons r Er).
    change (c1 :: r1 ++ t) with ((c1 :: r1) ++ t).
    apply IH2. exact H.
  - intros s pairs ps rest H. cbn [object_loop] in H |- *.
    cbv zeta in H |- *.
    destruct (scanstring s) as [[key rest0] |] eqn:E; [| discriminate].
    rewrite (scanstring_app s E).
    destruct (skip_ws rest0) as [| c r] eqn:Es; [discriminate |].
    rewrite (skip_ws_app_cons rest0 Es).
    destruct (c =? 58)%N; [| discriminate].
    destruct (skip_ws r) as [| c0 r0] eqn:Er;
      [rewrite scan_once_nil in H; discriminate |].
    rewrite (skip_ws_app_cons r Er).
    change (c0 :: r0 ++ t) with ((c0 :: r0) ++ t).
    destruct (scan_once f (c0 :: r0)) as [[v rest1] |] eqn:Ev;
      [| discriminate].
    rewrite (IH1 _ _ _ Ev).
    destruct (skip_ws rest1) as [| c1 r1] eqn:Es1; [discriminate |].
    rewrite (skip_ws_app_cons rest1 Es1).
    destruct (c1 =? 125)%N; [inversion H; subst; reflexivity |].
    destruct (c1 =? 44)%N; [| discriminate].
    destruct (skip_ws r1) as [| c2 r2] eqn:Es2; [discriminate |].
    rewrite (skip_ws_app_cons r1 Es2).
    destruct (c2 =? 34)%N; [| discriminate].
    apply IH3. exact H.
Qed.

End Appended.

Lemma skip_ws_app_nil (rest ws : pystr) :
  skip_ws rest = [] -> forallb is_ws ws = true -> skip_ws (rest ++ ws) = [].
Proof.
  intros Hr Hws. induction rest as [| c rest IH].
  - cbn [app]. rewrite <- (app_nil_r ws).
    rewrite (skip_ws_app ws [] Hws). reflexivity.
  - cbn [skip_ws app] in Hr |- *. destruct (is_ws c); [| discriminate].
    apply IH. exact Hr.
Qed.

Lemma blank_start_ws (ws : pystr) : forallb is_ws ws = true -> blank_start ws.
Proof.
  destruct ws as [| c ws]; [exact (fun _ => I) |].
  cbn [forallb blank_start]. intros H. apply andb_true_iff in H. apply H.
Qed.

Lemma ws_not_bom (c : char) : is_ws c = true -> (c =? 0xfeff)%N = false.
Proof.
  unfold is_ws. intros H.
  repeat (apply orb_true_iff in H; destruct H as [H | H]);
    apply N.eqb_eq in H; subst; reflexivity.
Qed.

Lemma decode_leading (ws s : pystr) :
  forallb is_ws ws = true -> decode (ws ++ s) = decode s.
Proof.
  intros Hws. unfold decode. rewrite (skip_ws_app ws s Hws).
  rewrite (@scan_once_fuel s (2 * List.length (ws ++ s) + 1))
    by (rewrite length_app; lia).
  reflexivity.
Qed.

Lemma decode_trailing (s ws : pystr) (v : pyval) :
  forallb is_ws ws = true -> decode s = Some v -> decode (s ++ ws) = Some v.
Proof.
  intros Hws. unfold decode.
  destruct (scan_once (2 * List.length s + 1) (skip_ws s))
    as [[obj rest] |] eqn:E; [| discriminate].
  destruct (skip_ws rest) as [| c r] eqn:Er; [| discriminate].
  intros H. inversion H; subst obj.
  destruct (skip_ws s) as [| c0 s0] eqn:Es;
    [rewrite scan_once_nil in E; discriminate |].
  rewrite (@skip_ws_app_cons ws s c0 s0 Es).
  pose proof (proj1 (@scan_app ws (blank_start_ws ws Hws) _) _ _ _ E) as E'.
  assert (Hle : 2 * List.length s + 1 <= 2 * List.length (s ++ ws) + 1)
    by (rewrite length_app; lia).
  change (c0 :: s0 ++ ws) with ((c0 :: s0) ++ ws).
  rewrite (proj1 (scan_mono Hle) _ _ E').
  rewrite (skip_ws_app_nil rest ws Er Hws). reflexivity.
Qed.

Lemma decode_bom (r : pystr) : decode (0xfeff%N :: r) = None.
Proof.
  unfold decode. replace (2 * List.length (0xfeff%N :: r) + 1)
    with (S (2 * List.length (0xfeff%N :: r))) by lia.
  reflexivity.
Qed.

Lemma loads_leading (ws s : pystr) :
  forallb is_ws ws = true -> loads (ws ++ s) = loads s.
Proof.
  intros Hws. destruct ws as [| c ws]; [reflexivity |].
  unfold loads at 1. cbn [app].
  cbn [forallb] in Hws. pose proof Hws as Hc.
  apply andb_true_iff in Hc. destruct Hc as [Hc _].
  rewrite (ws_not_bom c Hc).
  change (c :: ws ++ s) with ((c :: ws) ++ s).
  rewrite (decode_leading (c :: ws) s Hws).
  unfold loads. destruct s as [| c0 r]; [reflexivity |].
  destruct (c0 =? 0xfeff)%N eqn:E; [| reflexivity].
  apply N.eqb_eq in E. subst c0. apply decode_bom.
Qed.

Lemma loads_trailing (s ws : pystr) (v : pyval) :
  forallb is_ws ws = true -> loads s = Some v -> loads (s ++ ws) = Some v.
Proof.
  intros Hws. unfold loads. destruct s as [| c r].
  - intros H. discriminate.
  - cbn [app]. destruct (c =? 0xfeff)%N; [discriminate |].
    apply (@decode_trailing (c :: r) ws v Hws).
Qed.

Lemma loads_padded (ws1 s ws2 : pystr) (v : pyval) :
  forallb is_ws ws1 = true -> forallb is_ws ws2 = true ->
  loads s = Some v -> loads (ws1 ++ s ++ ws2) = Some v.
Proof.
  intros H1 H2 H. rewrite (loads_leading ws1 (s ++ ws2) H1).
  apply loads_trailing; assumption.
Qed.

End ScanFacts.

Section WhiteSpace.

(** X12 (json.loads as both question scripts and main.py call it).
    White space (space, tab, line feed, carriage return) before the reply
    never changes what the decoder returns: the same value, or a failure
    in both cases, also for a reply that starts with a byte order
    mark. *)
Theorem loads_skips_leading_white_space (ws s : pystr) :
  forallb is_ws ws = true -> loads (ws ++ s) = loads s.
Proof. apply ScanFacts.loads_leading. Qed.

(** X13 (parse of the reply in mainswapnil.py and mainswapnil1.py).
    Leading and trailing white space around the reply is tolerated: a
    reply that decodes gives, with white space put before and after it,
    the same result in each script (the same question list, or the same
    [ValueError]). *)
Theorem padded_reply_parses_alike (ws1 raw ws2 : pystr) :
  forallb is_ws ws1 = true -> forallb is_ws ws2 = true ->
  loads raw <> None ->
  Mainswapnil.parse_questions (ws1 ++ raw ++ ws2)
    = Mainswapnil.parse_questions raw
  /\ Mainswapnil1.parse_questions (ws1 ++ raw ++ ws2)
     = Mainswapnil1.parse_questions raw.
Proof.
  intros H1 H2 Hraw.
  destruct (loads raw) as [v |] eqn:E; [| contradiction].
  unfold Mainswapnil.parse_questions, Mainswapnil1.parse_questions.
  rewrite (ScanFacts.loads_padded ws1 raw ws2 H1 H2 E), E. split; reflexivity.
Qed.

End WhiteSpace.


(** * Integers as text *)

Unset Implicit Arguments.

Module IntFacts.

(** The digits of a positive number, as [int.__repr__] writes them. *)
Local Notation digits_of d := (lit (DecimalString.NilEmpty.string_of_uint d)).

Lemma digits_are_digits (d : Decimal.uint) :
  forallb is_digit (digits_of d) = true.
Proof. induction d; cbn; auto. Qed.

Lemma int_of_digits_acc (d : Decimal.uint) :
  forall acc : positive,
    fold_left (fun acc c => (acc * 10 + Z.of_N (c - 48))%Z) (digits_of d)
              (Z.pos acc)
    = Z.pos (Pos.of_uint_acc d acc).
Proof.
  induction d; intros acc; cbn [Pos.of_uint_acc];
    [reflexivity | ..];
    rewrite <- IHd; unfold lit;
    cbn [DecimalString.NilEmpty.string_of_uint list_ascii_of_string
         List.map fold_left];
    f_equal;
    match goal with
    | |- context [Z.of_N ?n] =>
        let v := eval vm_compute in (Z.of_N n) in change (Z.of_N n) with v
    end; lia.
Qed.

Lemma int_of_digits_of (d : Decimal.uint) :
  int_of_digits (digits_of d) = Z.of_N (Pos.of_uint d).
Proof.
  unfold int_of_digits.
  induction d; cbn [Pos.of_uint]; [reflexivity | exact IHd | ..];
    cbn [Z.of_N]; rewrite <- int_of_digits_acc; reflexivity.
Qed.

Lemma nzhead_head (d u : Decimal.uint) : Decimal.nzhead d <> Decimal.D0 u.
Proof. induction d; cbn; try discriminate. exact IHd. Qed.

Lemma to_uint_head (p : positive) (u : Decimal.uint) :
  Pos.to_uint p <> Decimal.D0 u.
Proof.
  intros E.
  pose proof (DecimalPos.Unsigned.to_of (Pos.to_uint p)) as H.
  rewrite DecimalPos.Unsigned.of_to in H. cbn [N.to_uint] in H.
  rewrite E in H. unfold Decimal.unorm in H. cbn [Decimal.nzhead] in H.
  destruct (Decimal.nzhead u) eqn:N; try discriminate H.
  - injection H as H. subst u.
    exact (DecimalPos.Unsigned.to_uint_nonzero p E).
  - exact (@nzhead_head u u0 N).
Qed.

(** The text of a positive number: a digit that is not zero, then
    digits; read as a number, it is that number. *)
Lemma digits_of_pos (p : positive) :
  exists c r, digits_of (Pos.to_uint p) = c :: r
              /\ is_digit c = true /\ (c =? 48)%N = false
              /\ forallb is_digit r = true
              /\ int_of_digits (c :: r) = Z.pos p.
Proof.
  pose proof (digits_are_digits (Pos.to_uint p)) as Hd.
  pose proof (int_of_digits_of (Pos.to_uint p)) as Hv.
  rewrite DecimalPos.Unsigned.of_to in Hv.
  pose proof (to_uint_head p) as Hh.
  pose proof (DecimalPos.Unsigned.to_uint_nonnil p) as Hn.
  destruct (Pos.to_uint p) as [| u | u | u | u | u | u | u | u | u | u];
    [contradiction | exfalso; exact (Hh u eq_refl) | ..];
    eexists; eexists; (split; [reflexivity |]);
    (split; [reflexivity |]); (split; [reflexivity |]);
    (split; [exact Hd | exact Hv]).
Qed.

Lemma intstr_pos (p : positive) :
  intstr (Z.pos p) = digits_of (Pos.to_uint p).
Proof.
  unfold intstr. cbn [Z.to_int DecimalString.NilZero.string_of_int].
  pose proof (DecimalPos.Unsigned.to_uint_nonnil p) as Hn.
  destruct (Pos.to_uint p); [contradiction | reflexivity ..].
Qed.

Lemma intstr_neg (p : positive) :
  intstr (Z.neg p) = 45%N :: digits_of (Pos.to_uint p).
Proof.
  unfold intstr. cbn [Z.to_int DecimalString.NilZero.string_of_int].
  pose proof (DecimalPos.Unsigned.to_uint_nonnil p) as Hn.
  destruct (Pos.to_uint p); [contradiction | reflexivity ..].
Qed.

End IntFacts.


(** * Values through the encoder and the decoder *)

Module ValueFacts.

Import JsonFacts ScanFacts IntFacts.

Lemma pyval_values_ind (P : pyval -> Prop) :
  P PNone -> (forall b, P (PBool b)) -> (forall z, P (PInt z)) ->
  (forall x, P (PFloat x)) -> (forall s, P (PStr s)) ->
  (forall l, Forall P l -> P (PList l)) ->
  (forall d, Forall (fun kv => P (snd kv)) d -> P (PDict d)) ->
  forall v, P v.
Proof.
  intros HN HB HI HF HS HL HD.
  fix IH 1.
  intros [| b | z | x | s | l | d];
    [exact HN | apply HB | apply HI | apply HF | apply HS | |].
  - apply HL.
    exact ((fix all (l : list pyval) : Forall P l :=
              match l with
              | [] => Forall_nil P
              | v :: r => Forall_cons v (IH v) (all r)
              end) l).
  - apply HD.
    exact ((fix all (d : list (pystr * pyval))
              : Forall (fun kv => P (snd kv)) d :=
              match d with
              | [] => Forall_nil _
              | kv :: r =>
                  @Forall_cons _ (fun kv => P (snd kv)) kv r
                               (IH (snd kv)) (all r)
              end) d).
Qed.

(** *** Numbers *)

Lemma value_end_digit (c : char) (r : pystr) :
  value_end (c :: r) = true -> is_digit c = false.
Proof.
  cbn [value_end]. intros H. apply negb_true_iff in H.
  apply orb_false_iff in H. destruct H as [H _].
  apply orb_false_iff in H. destruct H as [H _].
  apply orb_false_iff in H. apply H.
Qed.

Lemma span_digits_end (r rest : pystr) :
  forallb is_digit r = true -> value_end rest = true ->
  span_digits (r ++ rest) = (r, rest).
Proof.
  intros Hr He. induction r as [| c r IH].
  - cbn [app]. destruct rest as [| c r]; [reflexivity |].
    cbn [span_digits]. rewrite (value_end_digit c r He). reflexivity.
  - cbn [forallb] in Hr. apply andb_true_iff in Hr. destruct Hr as [Hc Hr].
    cbn [app span_digits]. rewrite Hc, (IH Hr). reflexivity.
Qed.

Lemma match_frac_end (rest : pystr) :
  value_end rest = true -> match_frac rest = ([], rest).
Proof.
  destruct rest as [| c r]; [reflexivity |].
  cbn [value_end match_frac]. intros H. apply negb_true_iff in H.
  apply orb_false_iff in H. destruct H as [H _].
  apply orb_false_iff in H. destruct H as [H _].
  apply orb_false_iff in H. destruct H as [_ H]. rewrite H. reflexivity.
Qed.

Lemma match_exp_end (rest : pystr) :
  value_end rest = true -> match_exp rest = ([], rest).
Proof.
  destruct rest as [| c r]; [reflexivity |].
  cbn [value_end match_exp]. intros H. apply negb_true_iff in H.
  apply orb_false_iff in H. destruct H as [H H69].
  apply orb_false_iff in H. destruct H as [_ H101].
  rewrite H101, H69. reflexivity.
Qed.

Lemma match_number_intstr (z : Z) (rest : pystr) :
  value_end rest = true ->
  match_number (intstr z ++ rest) = Some (PInt z, rest).
Proof.
  intros He. destruct z as [| p | p].
  - change (intstr 0) with [48%N]. cbn [app]. unfold match_number.
    change (48 =? 45)%N with false. cbv iota.
    cbn [match_integer]. change (48 =? 48)%N with true. cbv iota.
    rewrite (match_frac_end rest He), (match_exp_end rest He). reflexivity.
  - rewrite intstr_pos.
    destruct (digits_of_pos p) as (c & r & E & Hc & H0 & Hr & Hv).
    rewrite E. cbn [app]. unfold match_number.
    assert (H45 : (c =? 45)%N = false).
    { destruct (c =? 45)%N eqn:E45; [| reflexivity].
      apply N.eqb_eq in E45. subst c. discriminate. }
    rewrite H45. cbn [match_integer]. rewrite H0, Hc.
    rewrite (span_digits_end r rest Hr He).
    rewrite (match_frac_end rest He), (match_exp_end rest He).
    rewrite Hv. reflexivity.
  - rewrite intstr_neg.
    destruct (digits_of_pos p) as (c & r & E & Hc & H0 & Hr & Hv).
    rewrite E. cbn [app]. unfold match_number.
    change (45 =? 45)%N with true. cbv iota.
    cbn [match_integer]. rewrite H0, Hc.
    rewrite (span_digits_end r rest Hr He).
    rewrite (match_frac_end rest He), (match_exp_end rest He).
    rewrite Hv. reflexivity.
Qed.

(** The text of an integer starts with a minus sign or a digit. *)
Lemma intstr_head (z : Z) :
  exists c r, intstr z = c :: r /\ ((c =? 45)%N || is_digit c) = true.
Proof.
  destruct z as [| p | p].
  - exists 48%N, []. split; reflexivity.
  - rewrite intstr_pos.
    destruct (digits_of_pos p) as (c & r & E & Hc & _).
    exists c, r. split; [exact E |]. rewrite Hc. apply orb_true_r.
  - rewrite intstr_neg. eexists; eexists. split; reflexivity.
Qed.

Ltac eval_lits :=
  repeat match goal with
         | |- context [lit ?s] =>
             let v := eval vm_compute in (lit s) in change (lit s) with v
         end.

Lemma strip_prefix_other (a c : char) (w s : pystr) :
  (a =? c)%N = false -> strip_prefix (a :: w) (c :: s) = None.
Proof. intros H. cbn [strip_prefix]. rewrite H. reflexivity. Qed.

Lemma scan_once_intstr (f : nat) (z : Z) (rest : pystr) :
  value_end rest = true ->
  scan_once (S f) (intstr z ++ rest) = Some (PInt z, rest).
Proof.
  intros He. pose proof (match_number_intstr z rest He) as Hm.
  destruct (intstr_head z) as (c & r & E & Hc). rewrite E in *.
  cbn [app] in *. cbn [scan_once].
  assert (Hne : forall x, ((x =? 45)%N || is_digit x) = false ->
                          (c =? x)%N = false).
  { intros x Hx. destruct (c =? x)%N eqn:Ex; [| reflexivity].
    apply N.eqb_eq in Ex. subst x. rewrite Hx in Hc. discriminate. }
  rewrite (Hne 34%N eq_refl), (Hne 123%N eq_refl), (Hne 91%N eq_refl).
  eval_lits.
  rewrite !strip_prefix_other
    by (rewrite N.eqb_sym; apply Hne; reflexivity).
  rewrite Hm. reflexivity.
Qed.

(** *** Lists and dicts of values that scan back *)

Lemma value_start_not_ws (c : char) : value_start c = true -> is_ws c = false.
Proof.
  intros H. destruct (is_ws c) eqn:E; [| reflexivity].
  unfold is_ws in E.
  repeat (apply orb_true_iff in E; destruct E as [E | E]);
    apply N.eqb_eq in E; subst; discriminate.
Qed.

Lemma value_start_not (c x : char) :
  value_start c = true -> value_start x = false -> (c =? x)%N = false.
Proof.
  intros Hc Hx. destruct (c =? x)%N eqn:E; [| reflexivity].
  apply N.eqb_eq in E. subst x. rewrite Hx in Hc. discriminate.
Qed.

Lemma skip_ws_cons (c : char) (r : pystr) :
  is_ws c = true -> skip_ws (c :: r) = skip_ws r.
Proof. intros H. cbn [skip_ws]. rewrite H. reflexivity. Qed.

Lemma value_end_ws (ws : pystr) (c : char) (r : pystr) :
  forallb is_ws ws = true -> value_end [c] = true ->
  value_end (ws ++ c :: r) = true.
Proof.
  destruct ws as [| w ws]; [intros _ H; exact H |].
  cbn [forallb app value_end]. intros H _.
  apply andb_true_iff in H. destruct H as [H _].
  unfold is_ws in H.
  repeat (apply orb_true_iff in H; destruct H as [H | H]);
    apply N.eqb_eq in H; subst; reflexivity.
Qed.

Section ValuesOf.

Variable enc : pyval -> pystr.
Variable k : nat.
Variables ws0 ws1 ws2 : pystr.

Hypothesis ws0_ws : forallb is_ws ws0 = true.
Hypothesis ws1_ws : forallb is_ws ws1 = true.
Hypothesis ws2_ws : forallb is_ws ws2 = true.

(** What the loops need of an element: its text starts as a value does,
    and scans back to the element before any text a value can end at. *)
Local Notation good :=
  (fun v : pyval =>
     (exists c r, enc v = c :: r /\ value_start c = true)
     /\ forall rest f, value_end rest = true -> k <= f ->
                       scan_once f (enc v ++ rest) = Some (v, rest)).

Lemma join_value_head (sep : pystr) (x : pyval) (l : list pyval)
      (rest : pystr) :
  good x ->
  exists c r, join sep (List.map enc (x :: l)) ++ rest = c :: r
              /\ value_start c = true.
Proof.
  intros ((c & r & E & Hc) & _).
  destruct l as [| y l].
  - cbn [List.map join]. rewrite E. exists c, (r ++ rest). auto.
  - cbn [List.map]. rewrite join_cons2, E.
    exists c. eexists. split; [cbn [app]; reflexivity | exact Hc].
Qed.

Lemma array_loop_values (l : list pyval) :
  forall (x : pyval) (values : list pyval) (rest : pystr) (f : nat),
    Forall good (x :: l) -> S k + List.length l <= f ->
    array_loop f (join (44%N :: ws1) (List.map enc (x :: l))
                  ++ ws2 ++ 93%N :: rest) values
    = Some (values ++ x :: l, rest).
Proof.
  induction l as [| y l IH]; intros x values rest f Hg Hf.
  - destruct f as [| f]; [lia |].
    cbn [List.map join array_loop].
    destruct (Forall_inv Hg) as (_ & Hx).
    rewrite Hx by (try apply value_end_ws; auto; cbn in Hf; lia).
    rewrite skip_ws_app by exact ws2_ws.
    rewrite skip_ws_head by reflexivity.
    change (93 =? 93)%N with true. reflexivity.
  - destruct f as [| f]; [lia |].
    cbn [List.map]. rewrite join_cons2.
    repeat rewrite <- app_assoc.
    cbn [array_loop].
    destruct (Forall_inv Hg) as (_ & Hx).
    pose proof (Forall_inv_tail Hg) as Hg'.
    rewrite Hx by (try reflexivity; cbn [List.length] in Hf; lia).
    cbn [app]. rewrite skip_ws_head by reflexivity.
    change (44 =? 93)%N with false. change (44 =? 44)%N with true.
    cbv iota.
    rewrite skip_ws_app by exact ws1_ws.
    destruct (join_value_head (44%N :: ws1) y l (ws2 ++ 93%N :: rest)
                              (Forall_inv Hg'))
      as (c & r & E & Hc).
    change (enc y :: List.map enc l) with (List.map enc (y :: l)).
    rewrite E, skip_ws_head by (apply value_start_not_ws; exact Hc).
    rewrite <- E.
    rewrite IH.
    + rewrite <- app_assoc. reflexivity.
    + exact Hg'.
    + cbn [List.length] in Hf. lia.
Qed.

Lemma scan_once_values (x : pyval) (l : list pyval) (rest : pystr)
      (f : nat) :
  Forall good (x :: l) -> S (S k) + List.length l <= f ->
  scan_once f (91%N :: ws0 ++ join (44%N :: ws1) (List.map enc (x :: l))
               ++ ws2 ++ 93%N :: rest)
  = Some (PList (x :: l), rest).
Proof.
  intros Hg Hf. destruct f as [| f]; [lia |].
  cbn [scan_once].
  change (91 =? 34)%N with false. change (91 =? 123)%N with false.
  change (91 =? 91)%N with true. cbv iota zeta.
  rewrite skip_ws_app by exact ws0_ws.
  destruct (join_value_head (44%N :: ws1) x l (ws2 ++ 93%N :: rest)
                            (Forall_inv Hg))
    as (c & r & E & Hc).
  rewrite E, skip_ws_head by (apply value_start_not_ws; exact Hc).
  rewrite (value_start_not c 93 Hc eq_refl). rewrite <- E.
  rewrite array_loop_values by (auto; lia). reflexivity.
Qed.

(** The text of a member: its name, the separator, its value. *)
Local Notation item :=
  (fun kv : pystr * pyval =>
     match kv with
     | (key, value) => encode_basestring_ascii key ++ key_separator ++ enc value
     end).

Local Notation good_item :=
  (fun kv : pystr * pyval => plain_text (fst kv) /\ good (snd kv)).

Lemma join_item_head (sep : pystr) (kv : pystr * pyval)
      (d : list (pystr * pyval)) (rest : pystr) :
  exists body, join sep (List.map item (kv :: d)) ++ rest = 34%N :: body.
Proof.
  destruct kv as [key v]. destruct d as [| kv2 d].
  - cbn [List.map join]. unfold encode_basestring_ascii.
    eexists. cbn [app]. reflexivity.
  - cbn [List.map]. rewrite join_cons2. unfold encode_basestring_ascii.
    eexists. cbn [app]. reflexivity.
Qed.

Lemma object_loop_values (d : list (pystr * pyval)) :
  forall (kv : pystr * pyval) (pairs : list (pystr * pyval))
         (rest : pystr) (f : nat) (body : pystr),
    Forall good_item (kv :: d) -> S k + List.length d <= f ->
    join (44%N :: ws1) (List.map item (kv :: d)) ++ ws2 ++ 125%N :: rest
    = 34%N :: body ->
    object_loop f body pairs = Some (pairs ++ kv :: d, rest).
Proof.
  induction d as [| kv2 d IH]; intros [key v] pairs rest f body Hg Hf Hb.
  - destruct f as [| f]; [lia |].
    cbn [List.map join] in Hb. unfold encode_basestring_ascii in Hb.
    repeat rewrite <- app_assoc in Hb. cbn [app] in Hb.
    injection Hb as Hb. subst body.
    pose proof (Forall_inv Hg) as Hkv. cbn [fst snd] in Hkv.
    destruct Hkv as ((Hok & Hns) & (c & r & E & Hc) & Hx).
    cbn [object_loop]. rewrite scanstring_escape by assumption.
    change key_separator with [58; 32]%N. cbn [app].
    rewrite skip_ws_head by reflexivity.
    change (58 =? 58)%N with true. cbv iota.
    rewrite skip_ws_cons by reflexivity.
    rewrite E. cbn [app].
    rewrite skip_ws_head by (apply value_start_not_ws; exact Hc).
    change (c :: r ++ ws2 ++ 125%N :: rest)
      with ((c :: r) ++ ws2 ++ 125%N :: rest).
    rewrite <- E.
    rewrite Hx by (try apply value_end_ws; auto; lia).
    rewrite skip_ws_app by exact ws2_ws.
    rewrite skip_ws_head by reflexivity.
    change (125 =? 125)%N with true. reflexivity.
  - destruct f as [| f]; [lia |].
    cbn [List.map] in Hb. rewrite join_cons2 in Hb.
    unfold encode_basestring_ascii in Hb at 1.
    repeat rewrite <- app_assoc in Hb. cbn [app] in Hb.
    injection Hb as Hb. subst body.
    pose proof (Forall_inv Hg) as Hkv. cbn [fst snd] in Hkv.
    destruct Hkv as ((Hok & Hns) & (c & r & E & Hc) & Hx).
    pose proof (Forall_inv_tail Hg) as Hg'.
    cbn [object_loop]. rewrite scanstring_escape by assumption.
    change key_separator with [58; 32]%N. cbn [app].
    rewrite skip_ws_head by reflexivity.
    change (58 =? 58)%N with true. cbv iota.
    rewrite skip_ws_cons by reflexivity.
    rewrite E. cbn [app].
    rewrite skip_ws_head by (apply value_start_not_ws; exact Hc).
    match goal with
    | |- context [scan_once f (c :: r ++ ?t)] =>
        change (c :: r ++ t) with ((c :: r) ++ t)
    end.
    rewrite <- E.
    rewrite Hx by (try reflexivity; cbn [List.length] in Hf; lia).
    rewrite skip_ws_head by reflexivity.
    change (44 =? 125)%N with false. change (44 =? 44)%N with true.
    cbv iota.
    rewrite skip_ws_app by exact ws1_ws.
    destruct (join_item_head (44%N :: ws1) kv2 d (ws2 ++ 125%N :: rest))
      as (body & Eb).
    match goal with
    | |- context [skip_ws ?t] =>
        replace t with (34%N :: body) by (symmetry; exact Eb)
    end.
    rewrite skip_ws_head by reflexivity.
    change (34 =? 34)%N with true. cbv iota.
    rewrite (IH kv2 _ rest f body Hg') by (try exact Eb; cbn [List.length] in Hf; lia).
    rewrite <- app_assoc. reflexivity.
Qed.

Lemma scan_once_members (kv : pystr * pyval) (d : list (pystr * pyval))
      (rest : pystr) (f : nat) :
  Forall good_item (kv :: d) -> NoDup (List.map fst (kv :: d)) ->
  S (S k) + List.length d <= f ->
  scan_once f (123%N :: ws0 ++ join (44%N :: ws1) (List.map item (kv :: d))
               ++ ws2 ++ 125%N :: rest)
  = Some (PDict (kv :: d), rest).
Proof.
  intros Hg Hn Hf. destruct f as [| f]; [lia |].
  cbn [scan_once].
  change (123 =? 34)%N with false. change (123 =? 123)%N with true.
  cbv iota zeta.
  rewrite skip_ws_app by exact ws0_ws.
  destruct (join_item_head (44%N :: ws1) kv d (ws2 ++ 125%N :: rest))
    as (body & Eb).
  rewrite Eb, skip_ws_head by reflexivity.
  change (34 =? 125)%N with false. change (34 =? 34)%N with true.
  cbv iota.
  rewrite (@object_loop_values d kv [] rest f body Hg) by (try exact Eb; lia).
  cbn [app]. rewrite dict_of_pairs_distinct by exact Hn. reflexivity.
Qed.

End ValuesOf.

(** *** Every value *)

Lemma all_Forall (A : Type) (P : A -> Prop) (l : list A) :
  fold_right and True (List.map P l) <-> Forall P l.
Proof.
  induction l as [| x l IH]; cbn [List.map fold_right].
  - split; [constructor | exact (fun _ => I)].
  - rewrite IH. split.
    + intros [Hx Hl]. constructor; assumption.
    + intros H. split; [exact (Forall_inv H) | exact (Forall_inv_tail H)].
Qed.

(** One bound for all the elements of a list. *)
Lemma Forall_bound (A : Type) (R : nat -> A -> Prop) (l : list A) :
  (forall k k' x, k <= k' -> R k x -> R k' x) ->
  Forall (fun x => exists k, R k x) l -> exists K, Forall (R K) l.
Proof.
  intros Hmono H. induction H as [| x l (k & Hx) _ (K & HK)].
  - exists 0. constructor.
  - exists (Nat.max k K). constructor.
    + apply (Hmono k); [apply Nat.le_max_l | exact Hx].
    + apply (Forall_impl (R (Nat.max k K))
                         (fun y => Hmono K _ y (Nat.le_max_r k K)) HK).
Qed.

Lemma comes_back_list (l : list pyval) :
  comes_back (PList l) <-> Forall comes_back l.
Proof.
  unfold comes_back. cbn [plain_values distinct_keys].
  rewrite !all_Forall, !Forall_forall. split.
  - intros [H1 H2] x Hx. split; [apply H1 | apply H2]; exact Hx.
  - intros H. split; intros x Hx; apply (H x Hx).
Qed.

Lemma comes_back_dict (d : list (pystr * pyval)) :
  comes_back (PDict d)
  <-> NoDup (List.map fst d)
      /\ Forall (fun kv => plain_text (fst kv) /\ comes_back (snd kv)) d.
Proof.
  unfold comes_back. cbn [plain_values distinct_keys].
  rewrite !all_Forall, !Forall_forall. split.
  - intros (H1 & Hn & H2). split; [exact Hn |]. intros [k x] Hx.
    specialize (H1 _ Hx). specialize (H2 _ Hx). cbn [fst snd] in *. tauto.
  - intros (Hn & H). split; [| split; [exact Hn |]]; intros [k x] Hx;
      specialize (H _ Hx); cbn [fst snd] in H; tauto.
Qed.

Section Values.

Variable fs : pystr -> pystr.
Variable indent : option nat.

Lemma repeat_ws (n : nat) : forallb is_ws (repeat 32%N n) = true.
Proof. induction n as [| n IH]; [reflexivity | exact IH]. Qed.

Lemma newline_indent_ws (lv : nat) :
  forallb is_ws (newline_indent indent lv) = true.
Proof.
  unfold newline_indent. destruct indent as [n |]; [| reflexivity].
  cbn [forallb]. apply repeat_ws.
Qed.

Lemma separator_shape (lv : nat) :
  exists w, item_separator indent ++ newline_indent indent lv = 44%N :: w
            /\ forallb is_ws w = true.
Proof.
  unfold item_separator, newline_indent. destruct indent as [n |].
  - eexists. split; [reflexivity |]. cbn [forallb]. apply repeat_ws.
  - exists [32%N]. split; reflexivity.
Qed.

Lemma encode_value_head (v : pyval) (lv : nat) :
  comes_back v ->
  exists c r, iterencode fs indent v lv = c :: r /\ value_start c = true.
Proof.
  destruct v as [| [|] | z | x | s | [| y l] | [| kv d]];
    intros [H _]; cbn [plain_values] in H; try contradiction;
    try (eexists; eexists; split; [reflexivity | reflexivity]).
  cbn [iterencode].
  destruct (intstr_head z) as (c & r & E & Hc).
  exists c, r. split; [exact E |].
  unfold value_start. apply orb_true_iff in Hc.
  destruct Hc as [Hc | Hc]; rewrite Hc;
    repeat rewrite ?orb_true_r, ?orb_true_l; reflexivity.
Qed.

(** [scans k v lv]: with fuel [k] or more, the text of [v] at level [lv]
    scans back to [v], whatever follows it that a value can end at. *)
Local Notation scans :=
  (fun (lv k : nat) (v : pyval) =>
     forall rest f, value_end rest = true -> k <= f ->
       scan_once f (iterencode fs indent v lv ++ rest) = Some (v, rest)).

Lemma scan_value (v : pyval) :
  comes_back v -> forall lv, exists k, scans lv k v.
Proof.
  induction v as [| b | z | x | s | l IH | d IH] using pyval_values_ind;
    intros Hv lv.
  - exists 1. intros rest f _ Hf. destruct f as [| f]; [lia |]. reflexivity.
  - exists 1. intros rest f _ Hf. destruct f as [| f]; [lia |].
    destruct b; reflexivity.
  - exists 1. intros rest f He Hf. destruct f as [| f]; [lia |].
    apply scan_once_intstr. exact He.
  - destruct Hv as [[] _].
  - exists 1. intros rest f _ Hf. destruct f as [| f]; [lia |].
    destruct Hv as [[Hok Hns] _]. apply scan_once_string; assumption.
  - destruct l as [| x l].
    { exists 1. intros rest f _ Hf. destruct f as [| f]; [lia |].
      reflexivity. }
    apply comes_back_list in Hv.
    assert (Hs : Forall (fun v => exists k, scans (S lv) k v) (x :: l)).
    { rewrite Forall_forall in *. intros y Hy.
      apply (IH y Hy). apply Hv. exact Hy. }
    apply (@Forall_bound _ (scans (S lv))) in Hs.
    2:{ intros k k' y Hk Hy rest f He Hf. apply Hy; [exact He | lia]. }
    destruct Hs as (K & HK).
    exists (S (S K) + List.length l). intros rest f He Hf.
    cbn [iterencode].
    destruct (separator_shape (S lv)) as (w & Ew & Hw). rewrite Ew.
    repeat rewrite <- app_assoc. cbn [app].
    apply (@scan_once_values (fun v => iterencode fs indent v (S lv)) K
             (newline_indent indent (S lv)) w (newline_indent indent lv));
      try apply newline_indent_ws; try exact Hw; try exact Hf.
    rewrite Forall_forall in *. intros y Hy.
    split; [apply encode_value_head; apply Hv; exact Hy | apply HK; exact Hy].
  - destruct d as [| kv d].
    { exists 1. intros rest f _ Hf. destruct f as [| f]; [lia |].
      reflexivity. }
    apply comes_back_dict in Hv. destruct Hv as [Hn Hv].
    assert (Hs : Forall (fun kv => exists k, scans (S lv) k (snd kv))
                        (kv :: d)).
    { rewrite Forall_forall in *. intros [key y] Hy.
      apply (IH _ Hy). apply (Hv _ Hy). }
    apply (@Forall_bound _ (fun k kv => scans (S lv) k (snd kv))) in Hs.
    2:{ intros k k' y Hk Hy rest f He Hf. apply Hy; [exact He | lia]. }
    destruct Hs as (K & HK).
    exists (S (S K) + List.length d). intros rest f He Hf.
    cbn [iterencode].
    destruct (separator_shape (S lv)) as (w & Ew & Hw). rewrite Ew.
    repeat rewrite <- app_assoc. cbn [app].
    apply (@scan_once_members (fun v => iterencode fs indent v (S lv)) K
             (newline_indent indent (S lv)) w (newline_indent indent lv));
      try apply newline_indent_ws; try exact Hw; try exact Hf;
      try exact Hn.
    rewrite Forall_forall in *. intros [key y] Hy.
    destruct (Hv _ Hy) as [Hkey Hy']. split; [exact Hkey |].
    split; [apply encode_value_head; exact Hy' | apply (HK _ Hy)].
Qed.

(** What the encoder writes for a value that holds no float, whose
    strings hold no high surrogate directly followed by a low one, and
    whose dicts have distinct keys, the decoder reads back as that
    value. *)
Lemma loads_dumps_value (v : pyval) :
  comes_back v -> loads (dumps fs indent v) = Some v.
Proof.
  intros Hv. unfold dumps.
  destruct (encode_value_head v 0 Hv) as (c & r & E & Hc).
  destruct (scan_value v Hv 0) as (k & Hk).
  specialize (Hk [] k eq_refl (Nat.le_refl k)).
  rewrite app_nil_r in Hk.
  unfold loads. rewrite E.
  rewrite (value_start_not c 0xfeff Hc eq_refl).
  rewrite <- E. unfold decode.
  assert (Hs : skip_ws (iterencode fs indent v 0) = iterencode fs indent v 0).
  { rewrite E. apply skip_ws_head. apply value_start_not_ws. exact Hc. }
  rewrite <- Hs in Hk.
  rewrite (decode_fuel _ _ Hk). reflexivity.
Qed.

End Values.

(** *** The characters of an encoded value *)

Lemma hex_digit_char (n : N) : (n < 16)%N -> export_char (hex_digit n) = true.
Proof.
  intros H. unfold hex_digit, export_char.
  destruct (n <? 10)%N eqn:E.
  - apply N.ltb_lt in E. apply orb_true_iff. left. apply andb_true_iff.
    split; apply N.leb_le; lia.
  - apply N.ltb_ge in E. apply orb_true_iff. left. apply andb_true_iff.
    split; apply N.leb_le; lia.
Qed.

Lemma hex4_of_chars (n : N) : forallb export_char (hex4_of n) = true.
Proof.
  unfold hex4_of. cbn [forallb].
  rewrite !hex_digit_char by (apply N.mod_lt; discriminate). reflexivity.
Qed.

Lemma escape_char_chars (c : char) :
  forallb export_char (escape_char c) = true.
Proof.
  unfold escape_char.
  repeat match goal with
         | |- forallb _ (if ?b then _ else _) = true =>
             destruct b eqn:?; [try reflexivity |]
         end.
  - cbn [forallb]. unfold export_char.
    match goal with H : (_ && _)%bool = true |- _ => rewrite H end.
    reflexivity.
  - rewrite forallb_app, hex4_of_chars. reflexivity.
  - cbv zeta. rewrite !forallb_app, !hex4_of_chars. reflexivity.
Qed.

Lemma escape_chars (s : pystr) : forallb export_char (escape s) = true.
Proof.
  unfold escape. induction s as [| c s IH]; [reflexivity |].
  cbn [flat_map]. rewrite forallb_app, escape_char_chars, IH. reflexivity.
Qed.

Lemma encode_string_chars (s : pystr) :
  forallb export_char (encode_basestring_ascii s) = true.
Proof.
  unfold encode_basestring_ascii.
  rewrite !forallb_app, escape_chars. reflexivity.
Qed.

Lemma digit_char (c : char) : is_digit c = true -> export_char c = true.
Proof.
  unfold is_digit, export_char. intros H. apply andb_true_iff in H.
  destruct H as [H1 H2]. apply N.leb_le in H1, H2.
  apply orb_true_iff. left. apply andb_true_iff.
  split; apply N.leb_le; lia.
Qed.

Lemma digits_chars (s : pystr) :
  forallb is_digit s = true -> forallb export_char s = true.
Proof.
  induction s as [| c s IH]; [reflexivity |]. cbn [forallb].
  intros H. apply andb_true_iff in H. destruct H as [Hc Hs].
  rewrite (digit_char c Hc), (IH Hs). reflexivity.
Qed.

Lemma intstr_chars (z : Z) : forallb export_char (intstr z) = true.
Proof.
  destruct z as [| p | p].
  - reflexivity.
  - rewrite intstr_pos. apply digits_chars. apply digits_are_digits.
  - rewrite intstr_neg. cbn [forallb].
    rewrite digits_chars by apply digits_are_digits. reflexivity.
Qed.

Lemma join_chars (sep : pystr) (l : list pystr) :
  forallb export_char sep = true ->
  Forall (fun s => forallb export_char s = true) l ->
  forallb export_char (join sep l) = true.
Proof.
  intros Hsep H. induction H as [| s l Hs Hl IH]; [reflexivity |].
  destruct l as [| s2 l]; [exact Hs |].
  rewrite join_cons2, !forallb_app, Hs, Hsep. exact IH.
Qed.

Section Chars.

Variable fs : pystr -> pystr.
Variable indent : option nat.

Hypothesis fs_chars : forall x, forallb export_char (fs x) = true.

Lemma newline_indent_chars (lv : nat) :
  forallb export_char (newline_indent indent lv) = true.
Proof.
  unfold newline_indent. destruct indent as [n |]; [| reflexivity].
  cbn [forallb]. change (export_char 10) with true. cbn [andb].
  induction (n * lv) as [| m IH]; [reflexivity | exact IH].
Qed.

Lemma item_separator_chars : forallb export_char (item_separator indent) = true.
Proof. unfold item_separator. destruct indent; reflexivity. Qed.

Lemma iterencode_chars (v : pyval) :
  forall lv, forallb export_char (iterencode fs indent v lv) = true.
Proof.
  induction v as [| b | z | x | s | l IH | d IH] using pyval_values_ind;
    intros lv; cbn [iterencode].
  - reflexivity.
  - destruct b; reflexivity.
  - apply intstr_chars.
  - apply fs_chars.
  - apply encode_string_chars.
  - destruct l as [| x l]; [reflexivity |].
    rewrite !forallb_app, !newline_indent_chars.
    rewrite join_chars; [reflexivity | |].
    + rewrite forallb_app, item_separator_chars, newline_indent_chars.
      reflexivity.
    + rewrite Forall_map. apply (Forall_impl _ (fun v H => H (S lv)) IH).
  - destruct d as [| kv d]; [reflexivity |].
    rewrite !forallb_app, !newline_indent_chars.
    rewrite join_chars; [reflexivity | |].
    + rewrite forallb_app, item_separator_chars, newline_indent_chars.
      reflexivity.
    + rewrite Forall_map. rewrite Forall_forall in *. intros [key y] Hy.
      rewrite !forallb_app, encode_string_chars, (IH _ Hy). reflexivity.
Qed.

End Chars.

(** *** The text of an integer determines the integer *)

Lemma lit_inj (s s' : string) : lit s = lit s' -> s = s'.
Proof.
  unfold lit. intros H.
  rewrite <- (string_of_list_ascii_of_string s),
          <- (string_of_list_ascii_of_string s').
  f_equal. revert H.
  generalize (list_ascii_of_string s) (list_ascii_of_string s').
  intros l. induction l as [| a l IH]; intros [| b l'] H;
    try discriminate; [reflexivity |].
  cbn [List.map] in H. injection H as Ha Hl.
  f_equal; [| apply IH; exact Hl].
  rewrite <- (ascii_N_embedding a), <- (ascii_N_embedding b), Ha.
  reflexivity.
Qed.

Lemma intstr_inj (z z' : Z) : intstr z = intstr z' -> z = z'.
Proof.
  unfold intstr. intros H. apply lit_inj in H.
  apply DecimalZ.to_int_inj.
  assert (Hn : forall n, Z.to_int n <> Decimal.Pos Decimal.Nil
                         /\ Z.to_int n <> Decimal.Neg Decimal.Nil).
  { intros [| p | p]; cbn [Z.to_int]; split; try discriminate;
      intros E; injection E as E;
      exact (DecimalPos.Unsigned.to_uint_nonnil p E). }
  destruct (Hn z) as [H1 H2]. destruct (Hn z') as [H1' H2'].
  pose proof (DecimalString.NilZero.isi (Z.to_int z) H1 H2) as E.
  pose proof (DecimalString.NilZero.isi (Z.to_int z') H1' H2') as E'.
  rewrite H in E. rewrite E in E'. injection E' as E'. exact E'.
Qed.

(** *** Decoded dicts *)

Lemma dict_set_keys_in (d : list (pystr * pyval)) (k : pystr) (v : pyval) :
  In k (List.map fst d) ->
  List.map fst (dict_set d k v) = List.map fst d.
Proof.
  induction d as [| [k' v'] d IH]; intros Hin; [destruct Hin |].
  cbn [dict_set]. destruct (pystr_eqb k' k) eqn:E; [reflexivity |].
  cbn [List.map fst] in *. f_equal. apply IH.
  destruct Hin as [Hk | Hin]; [| exact Hin].
  subst k'. unfold pystr_eqb in E.
  destruct (list_eq_dec N.eq_dec k k); [discriminate | contradiction].
Qed.

Lemma dict_set_keys (d : list (pystr * pyval)) (k : pystr) (v : pyval) :
  NoDup (List.map fst d) -> NoDup (List.map fst (dict_set d k v)).
Proof.
  intros H.
  destruct (in_dec (list_eq_dec N.eq_dec) k (List.map fst d)) as [Hin | Hout].
  - rewrite dict_set_keys_in by exact Hin. exact H.
  - rewrite dict_set_new by exact Hout. rewrite map_app.
    cbn [List.map fst]. apply NoDup_app; [exact H | |].
    + constructor; [intros [] | constructor].
    + intros a Ha [E | []]. subst a. exact (Hout Ha).
Qed.

Lemma dict_set_values (P : pyval -> Prop) (d : list (pystr * pyval))
      (k : pystr) (v : pyval) :
  Forall (fun kv => P (snd kv)) d -> P v ->
  Forall (fun kv => P (snd kv)) (dict_set d k v).
Proof.
  intros Hd Hv. induction Hd as [| [k' v'] d Hkv Hd IH]; cbn [dict_set].
  - constructor; [exact Hv | constructor].
  - destruct (pystr_eqb k' k); constructor; auto.
Qed.

Lemma dict_of_pairs_invariant (P : pyval -> Prop)
      (pairs : list (pystr * pyval)) :
  Forall (fun kv => P (snd kv)) pairs ->
  NoDup (List.map fst (dict_of_pairs pairs))
  /\ Forall (fun kv => P (snd kv)) (dict_of_pairs pairs).
Proof.
  unfold dict_of_pairs. intros H.
  assert (G : forall acc,
             NoDup (List.map fst acc) /\ Forall (fun kv => P (snd kv)) acc ->
             NoDup (List.map fst
                      (fold_left (fun d kv => dict_set d (fst kv) (snd kv))
                                 pairs acc))
             /\ Forall (fun kv => P (snd kv))
                       (fold_left (fun d kv => dict_set d (fst kv) (snd kv))
                                  pairs acc)).
  { induction H as [| kv pairs Hkv Hp IH]; intros acc [Hn Ha];
      cbn [fold_left]; [split; assumption |].
    apply IH. split; [apply dict_set_keys; exact Hn |].
    apply dict_set_values; assumption. }
  apply G. split; constructor.
Qed.

Lemma match_number_kind (s : pystr) (v : pyval) (rest : pystr) :
  match_number s = Some (v, rest) -> distinct_keys v.
Proof.
  unfold match_number.
  destruct (match s with
            | [] => (false, s)
            | c :: r => if (c =? 45)%N then (true, r) else (false, s)
            end) as [neg s1].
  destruct (match_integer s1) as [[ip s2] |]; [| discriminate].
  destruct (match_frac s2) as [fp s3]. destruct (match_exp s3) as [ep s4].
  destruct fp, ep; intros H; inversion H; exact I.
Qed.

Lemma scan_distinct (f : nat) :
  (forall s v rest, scan_once f s = Some (v, rest) -> distinct_keys v)
  /\ (forall s values vs rest,
         array_loop f s values = Some (vs, rest) ->
         Forall distinct_keys values -> Forall distinct_keys vs)
  /\ (forall s pairs ps rest,
         object_loop f s pairs = Some (ps, rest) ->
         Forall (fun kv => distinct_keys (snd kv)) pairs ->
         Forall (fun kv => distinct_keys (snd kv)) ps).
Proof.
  induction f as [| f (IH1 & IH2 & IH3)];
    [repeat split; intros; discriminate |].
  repeat split.
  - intros s v rest H. destruct s as [| c r]; [discriminate |].
    cbn [scan_once] in H. cbv zeta in H.
    destruct (c =? 34)%N.
    { destruct (scanstring r) as [[x rest0] |]; [| discriminate].
      inversion H. exact I. }
    destruct (c =? 123)%N.
    { destruct (skip_ws r) as [| c1 r2]; [discriminate |].
      destruct (c1 =? 125)%N.
      { inversion H. split; [constructor | exact I]. }
      destruct (c1 =? 34)%N; [| discriminate].
      destruct (object_loop f r2 []) as [[ps rest0] |] eqn:E;
        [| discriminate].
      inversion H. subst v rest0.
      destruct (@dict_of_pairs_invariant distinct_keys ps
                  (IH3 _ _ _ _ E (Forall_nil _))) as [Hn Hv].
      split; [exact Hn |]. apply all_Forall.
      rewrite Forall_forall in *. intros [k x] Hx. exact (Hv _ Hx). }
    destruct (c =? 91)%N.
    { destruct (skip_ws r) as [| c1 r2]; [discriminate |].
      destruct (c1 =? 93)%N; [inversion H; exact I |].
      destruct (array_loop f (c1 :: r2) []) as [[vs rest0] |] eqn:E;
        [| discriminate].
      inversion H. subst v rest0. cbn [distinct_keys]. apply all_Forall.
      exact (IH2 _ _ _ _ E (Forall_nil _)). }
    destruct (strip_prefix (lit "null") (c :: r)); [inversion H; exact I |].
    destruct (strip_prefix (lit "true") (c :: r)); [inversion H; exact I |].
    destruct (strip_prefix (lit "false") (c :: r)); [inversion H; exact I |].
    destruct (match_number (c :: r)) as [[v0 rest0] |] eqn:En.
    { inversion H. subst. exact (@match_number_kind _ _ _ En). }
    destruct (strip_prefix (lit "NaN") (c :: r)); [inversion H; exact I |].
    destruct (strip_prefix (lit "Infinity") (c :: r));
      [inversion H; exact I |].
    destruct (strip_prefix (lit "-Infinity") (c :: r));
      [inversion H; exact I |].
    discriminate.
  - intros s values vs rest H Hvs. cbn [array_loop] in H. cbv zeta in H.
    destruct (scan_once f s) as [[v rest0] |] eqn:E; [| discriminate].
    assert (Hvs' : Forall distinct_keys (values ++ [v])).
    { apply Forall_app. split; [exact Hvs |].
      constructor; [exact (IH1 _ _ _ E) | constructor]. }
    destruct (skip_ws rest0) as [| c r]; [discriminate |].
    destruct (c =? 93)%N; [inversion H; subst; exact Hvs' |].
    destruct (c =? 44)%N; [| discriminate].
    exact (IH2 _ _ _ _ H Hvs').
  - intros s pairs ps rest H Hps. cbn [object_loop] in H. cbv zeta in H.
    destruct (scanstring s) as [[key rest0] |]; [| discriminate].
    destruct (skip_ws rest0) as [| c r]; [discriminate |].
    destruct (c =? 58)%N; [| discriminate].
    destruct (scan_once f (skip_ws r)) as [[v rest1] |] eqn:E;
      [| discriminate].
    assert (Hps' : Forall (fun kv => distinct_keys (snd kv))
                          (pairs ++ [(key, v)])).
    { apply Forall_app. split; [exact Hps |].
      constructor; [exact (IH1 _ _ _ E) | constructor]. }
    destruct (skip_ws rest1) as [| c1 r1]; [discriminate |].
    destruct (c1 =? 125)%N; [inversion H; subst; exact Hps' |].
    destruct (c1 =? 44)%N; [| discriminate].
    destruct (skip_ws r1) as [| c2 r2]; [discriminate |].
    destruct (c2 =? 34)%N; [| discriminate].
    exact (IH3 _ _ _ _ H Hps').
Qed.

Lemma loads_distinct (raw : pystr) (v : pyval) :
  loads raw = Some v -> distinct_keys v.
Proof.
  intros H.
  assert (D : decode raw = Some v).
  { unfold loads in H. destruct raw as [| c r]; [exact H |].
    destruct (c =? 0xfeff)%N; [discriminate | exact H]. }
  unfold decode in D.
  destruct (scan_once (2 * List.length raw + 1) (skip_ws raw))
    as [[obj rest] |] eqn:E; [| discriminate].
  destruct (skip_ws rest); [| discriminate].
  inversion D. subst obj.
  exact (proj1 (scan_distinct _) _ _ _ E).
Qed.

End ValueFacts.


(** * The export, the question list and the answer boxes *)

Section Exports.

Import JsonFacts ValueFacts.

Variable fs : pystr -> pystr.
Variable FPDF : option (list pyval -> option pystr).

(** Literals of the scripts are plain ASCII. *)
Lemma lit_plain (s : string) : plain_text (lit s).
Proof.
  apply unicode_text_plain; unfold lit;
    induction (list_ascii_of_string s) as [| a l IH]; cbn [List.map].
  - constructor.
  - constructor; [| exact IH].
    pose proof (N_ascii_bounded a). unfold MAXUNICODE1. lia.
  - reflexivity.
  - unfold no_surrogates in *. cbn [forallb]. rewrite IH.
    pose proof (N_ascii_bounded a) as Ha.
    unfold is_high_surrogate, is_low_surrogate.
    assert (H1 : (0xd800 <=? N_of_ascii a)%N = false)
      by (apply N.leb_gt; lia).
    assert (H2 : (0xdc00 <=? N_of_ascii a)%N = false)
      by (apply N.leb_gt; lia).
    rewrite H1, H2. reflexivity.
Qed.

Lemma qa_dict_comes_back (q : pyval) (a : pystr) :
  comes_back q -> plain_text a -> comes_back (qa_dict q a).
Proof.
  intros Hq Ha. unfold qa_dict. apply comes_back_dict. split.
  - constructor; [| constructor; [intros [] | constructor]].
    intros [E | []]. vm_compute in E. discriminate E.
  - constructor; [| constructor; [| constructor]]; cbn [fst snd].
    + split; [apply lit_plain | exact Hq].
    + split; [apply lit_plain |]. split; [exact Ha | exact I].
Qed.

(** X15 (the JSON download of both question scripts).  The export makes
    the round trip whatever kind of value the questions are, not only
    for strings: when the stored answers pair questions [Q] with texts,
    no question holds a float, the dicts in the questions have distinct
    keys, and no string at any depth holds a high surrogate directly
    followed by a low one, decoding the export gives the stored answers
    back. *)
Theorem export_of_any_questions_round_trip
        (Q : list pyval) (texts : list pystr) (st : Session) :
  answers st = answered Q texts ->
  Forall comes_back Q -> Forall plain_text texts ->
  loads (export_json fs st) = Some (PList (answers st)).
Proof.
  intros Ha HQ Ht. unfold export_json. apply loads_dumps_value.
  apply comes_back_list. rewrite Ha. unfold answered.
  rewrite Forall_forall in *. intros a Hin.
  apply in_map_iff in Hin. destruct Hin as ([q t] & E & Hin). subst a.
  cbn [fst snd]. apply qa_dict_comes_back.
  - apply HQ. exact (in_combine_l _ _ _ _ Hin).
  - apply Ht. exact (in_combine_r _ _ _ _ Hin).
Qed.

Lemma dict_values_distinct (d : list (pystr * pyval)) :
  distinct_keys (PDict d) -> distinct_keys (PList (dict_values d)).
Proof.
  cbn [distinct_keys]. intros [_ H]. unfold dict_values.
  rewrite all_Forall in *. rewrite Forall_map.
  rewrite Forall_forall in *. intros [k x] Hx. exact (H _ Hx).
Qed.

(** X16 (the parse of both question scripts, composed with
    [json.dumps]).  A question list that a reply gave stays the same
    when it is written as JSON, with any indentation, and parsed again,
    as long as it holds no float and no string in which a high surrogate
    is directly followed by a low one. *)
Theorem parsed_questions_parse_again
        (indent : option nat) (raw : pystr) (Q : list pyval) :
  plain_values (PList Q) ->
  (Mainswapnil.parse_questions raw = inr Q ->
   Mainswapnil.parse_questions (dumps fs indent (PList Q)) = inr Q)
  /\ (Mainswapnil1.parse_questions raw = inr Q ->
      Mainswapnil1.parse_questions (dumps fs indent (PList Q)) = inr Q).
Proof.
  intros Hp.
  assert (G : distinct_keys (PList Q) ->
              loads (dumps fs indent (PList Q)) = Some (PList Q)).
  { intros Hd. apply loads_dumps_value. split; assumption. }
  split; intros H.
  - unfold Mainswapnil.parse_questions in *.
    destruct (loads raw) as [v |] eqn:E; [| discriminate].
    apply loads_distinct in E.
    rewrite G; [reflexivity |].
    destruct v; try discriminate; inversion H; subst.
    + exact E.
    + apply dict_values_distinct. exact E.
  - unfold Mainswapnil1.parse_questions in *.
    destruct (loads raw) as [v |] eqn:E; [| discriminate].
    apply loads_distinct in E.
    rewrite G; [reflexivity |].
    destruct v; try discriminate; inversion H; subst. exact E.
Qed.

(** X17 ([json.loads] in the parse of the question scripts and in the
    job details of main.py).  Whatever the decoder returns, every dict
    in it, at any depth, has distinct keys: a member name that is
    repeated in the reply does not give two entries, so a mapping reply
    gives one question for each distinct name. *)
Theorem decoded_dicts_have_distinct_keys (raw : pystr) (v : pyval) :
  loads raw = Some v -> distinct_keys v.
Proof. apply loads_distinct. Qed.

(** X18 (the JSON download of both question scripts).  The export is
    plain ASCII, whatever characters the questions and the answers
    hold: every character of it is printable ASCII or a line feed, as
    long as the text of a float is. *)
Theorem export_is_ascii (st : Session) :
  (forall x, forallb export_char (fs x) = true) ->
  forallb export_char (export_json fs st) = true.
Proof.
  intros Hfs. unfold export_json, dumps. apply iterencode_chars. exact Hfs.
Qed.

Lemma text_area_key (w : Widgets) (st : Session) (label key : pystr) :
  (In (st_text_area label key) (page_of (Mainswapnil.qa_loop fs w st))
   \/ In (st_text_area label key)
         (page_of (Mainswapnil1.qa_loop fs FPDF w st))) ->
  key = lit "ans_" ++ intstr (Z.of_nat (idx st)).
Proof.
  unfold Mainswapnil.qa_loop, Mainswapnil1.qa_loop, page_of.
  destruct (questions st) as [| q qs]; [intros [[] | []] |].
  cbv zeta.
  destruct (idx st <? List.length (q :: qs)).
  - destruct (submit_clicked w); cbn [fst snd In];
      intros [H | H];
      repeat (destruct H as [H | H]; try discriminate H);
      try contradiction; inversion H; reflexivity.
  - intros [H | H].
    + cbn [fst snd In] in H.
      repeat (destruct H as [H | H]; try discriminate H). contradiction.
    + destruct FPDF as [render |]; [destruct (render (answers st)) |];
        cbn [fst snd In app] in H;
        repeat (destruct H as [H | H]; try discriminate H); contradiction.
Qed.

(** X19 (the answer box of both Q&A loops).  Every question has an
    answer box of its own: two pages that show an answer box with the
    same key are at the same position in the question list. *)
Theorem answer_boxes_have_own_keys
        (w w' : Widgets) (st st' : Session) (label label' key : pystr) :
  (In (st_text_area label key) (page_of (Mainswapnil.qa_loop fs w st))
   \/ In (st_text_area label key)
         (page_of (Mainswapnil1.qa_loop fs FPDF w st))) ->
  (In (st_text_area label' key) (page_of (Mainswapnil.qa_loop fs w' st'))
   \/ In (st_text_area label' key)
         (page_of (Mainswapnil1.qa_loop fs FPDF w' st'))) ->
  idx st = idx st'.
Proof.
  intros H H'. apply text_area_key in H. apply text_area_key in H'.
  rewrite H in H'. apply app_inv_head in H'. apply intstr_inj in H'.
  apply Nat2Z.inj. exact H'.
Qed.

End Exports.


(** * The completed page *)

Section Completion.

Import SessionFacts.

Variable fs : pystr -> pystr.
Variable FPDF : option (list pyval -> option pystr).

(** X20 (mainswapnil1.py, the downloads of the completed page).  Without
    [fpdf] the page degrades: the run ends normally and the JSON download
    is offered.  With [fpdf], the JSON download comes after the PDF: it
    is offered exactly when the rendering succeeds, and where the
    rendering (or the Latin-1 encoding of its output) raises, the
    exception leaves the script and no download is offered at all. *)
Theorem json_download_follows_the_pdf (w : Widgets) (st : Session) :
  phase st = Completed ->
  let out := Mainswapnil1.qa_loop fs FPDF w st in
  session_of out = st
  /\ (In (json_button fs st) (page_of out)
      <-> FPDF = None
          \/ exists render pdf_bytes,
               FPDF = Some render /\ render (answers st) = Some pdf_bytes)
  /\ (control_of out = Raised
      <-> exists render, FPDF = Some render /\ render (answers st) = None)
  /\ (control_of out = Raised ->
      forall label data file_name mime,
        ~ In (st_download_button label data file_name mime) (page_of out)).
Proof.
  unfold phase, Mainswapnil1.qa_loop, json_button.
  destruct (questions st) as [| q qs]; [discriminate |].
  destruct (idx st <? List.length (q :: qs)); [discriminate |].
  intros _. cbv zeta.
  destruct FPDF as [render |]; [destruct (render (answers st)) as [b |] eqn:E |];
    unfold session_of, page_of, control_of; cbn [fst snd app In].
  - split; [reflexivity |]. split; [| split].
    + split; [| tauto]. intros _. right. exists render, b. split; auto.
    + split; [discriminate |]. intros (r & Hr & Hn).
      injection Hr as Hr. subst r. rewrite E in Hn. discriminate.
    + discriminate.
  - split; [reflexivity |]. split; [| split].
    + split.
      * intros [H | [H | []]]; discriminate.
      * intros [H | (r & b & Hr & Hb)]; [discriminate |].
        injection Hr as Hr. subst r. rewrite E in Hb. discriminate.
    + split; [| reflexivity]. intros _. exists render. split; auto.
    + intros _ label data file_name mime [H | [H | []]]; discriminate.
  - split; [reflexivity |]. split; [| split].
    + split; [| tauto]. intros _. left. reflexivity.
    + split; [discriminate |]. intros (r & Hr & _). discriminate.
    + discriminate.
Qed.

Lemma answered_length (Q : list pyval) (texts : list pystr) :
  List.length (answered Q texts)
  = Nat.min (List.length Q) (List.length texts).
Proof. unfold answered. rewrite length_map. apply length_combine. Qed.

Lemma paired_completed (st : Session) :
  paired st ->
  (phase st = Completed
   <-> questions st <> []
       /\ List.length (answers st) = List.length (questions st)).
Proof.
  intros (Hle & texts & Hlen & Hans).
  assert (La : List.length (answers st) = idx st).
  { rewrite Hans, answered_length, length_firstn. lia. }
  rewrite La. unfold phase.
  destruct (questions st) as [| q qs] eqn:Eq.
  - split; [discriminate | intros [H _]; contradiction].
  - destruct (idx st <? List.length (q :: qs)) eqn:E.
    + apply Nat.ltb_lt in E. split; [discriminate | intros [_ H]; lia].
    + apply Nat.ltb_ge in E. split; [| reflexivity].
      intros _. split; [discriminate | lia].
Qed.

(** X21 (the Q&A block of both question scripts).  After any sequence of
    runs from the session defaults, the completed branch, with its
    downloads, is the one that runs exactly when there is at least one
    question and every question has its stored answer. *)
Theorem completed_means_all_answered (ws : list Widgets) :
  (let st := run_all (Mainswapnil.script fs) ws session_defaults in
   phase st = Completed
   <-> questions st <> []
       /\ List.length (answers st) = List.length (questions st))
  /\ (let st := run_all (Mainswapnil1.script fs FPDF) ws session_defaults in
      phase st = Completed
      <-> questions st <> []
          /\ List.length (answers st) = List.length (questions st)).
Proof.
  split; cbv zeta; apply paired_completed.
  - apply (@run_all_paired (Mainswapnil.script fs) Mainswapnil.parse_questions
             (mainswapnil_script_session fs) ws _ defaults_paired).
  - apply (@run_all_paired (Mainswapnil1.script fs FPDF)
             Mainswapnil1.parse_questions
             (mainswapnil1_script_session fs FPDF) ws _ defaults_paired).
Qed.

End Completion.


(** * More concrete runs *)

Section FurtherRuns.

Import Str Dotenv Generate Inputs Main.

(** One answer given to the reply [[1]]: the stored answer carries the
    question at its position. *)
Lemma stored_answers_match_questions_witness :
  let ws := [generate reply_number_list; submit (lit "A1")] in
  let st := run_all (Mainswapnil.script no_floats) ws session_defaults in
  let st1 :=
    run_all (Mainswapnil1.script no_floats None) ws session_defaults in
  (0 < idx st
   /\ question_of (nth 0 (answers st) PNone)
      = Some (nth 0 (questions st) PNone))
  /\ (0 < idx st1
      /\ question_of (nth 0 (answers st1) PNone)
         = Some (nth 0 (questions st1) PNone)).
Proof.
  cbv zeta.
  destruct (@stored_answers_match_questions no_floats None
              [generate reply_number_list; submit (lit "A1")] 0)
    as [H1 H2].
  assert (L : 0 < 1) by lia.
  split; (split; [vm_compute; exact L |]).
  - apply H1. vm_compute. exact L.
  - apply H2. vm_compute. exact L.
Defined.

Lemma env_line_unpacks_witness :
  contains 61%N (lit "A=b=c" ++ [10%N]) = true
  /\ exists k v, split1 61%N (strip (lit "A=b=c" ++ [10%N])) = [k; v]
                 /\ strip (lit "A=b=c" ++ [10%N]) = k ++ [61%N] ++ v
                 /\ contains 61%N k = false.
Proof.
  split; [reflexivity |].
  apply (@env_line_unpacks (lit "A=b=c" ++ [10%N])). reflexivity.
Defined.


Lemma env_loader_keeps_variables_witness :
  load_lines putenv_any env_lines env_before = Some env_after
  /\ environ_get env_before (lit "A") = Some (lit "0")
  /\ environ_get env_after (lit "A") = Some (lit "0").
Proof.
  split; [reflexivity |]. split; [reflexivity |].
  apply (@env_loader_keeps_variables putenv_any env_lines env_before
           env_after (lit "A") (lit "0")); reflexivity.
Defined.

Lemma env_loader_adds_only_lines_witness :
  load_lines putenv_any env_lines env_before = Some env_after
  /\ environ_get env_after (lit "B") = Some (lit "2")
  /\ (environ_get env_before (lit "B") = Some (lit "2")
      \/ exists line, In line env_lines
                      /\ strip line = lit "B" ++ [61%N] ++ lit "2"
                      /\ startswith 35%N (lstrip line) = false).
Proof.
  split; [reflexivity |]. split; [reflexivity |].
  apply (@env_loader_adds_only_lines putenv_any env_lines env_before
           env_after (lit "B") (lit "2")); reflexivity.
Defined.

Lemma profile_path_is_one_segment_witness :
  (lit "octocat" <> []
   /\ contains 47%N (lit "octocat") = false
   /\ exists a b, lit "/octocat/"
                  = repeat 47%N a ++ lit "octocat" ++ repeat 47%N b)
  /\ user_path (lit "/octocat/") = [lit "octocat"].
Proof.
  assert (H : lit "octocat" <> []
              /\ contains 47%N (lit "octocat") = false
              /\ exists a b, lit "/octocat/"
                             = repeat 47%N a ++ lit "octocat"
                               ++ repeat 47%N b).
  { split; [discriminate |]. split; [reflexivity |].
    exists 1, 1. reflexivity. }
  split; [exact H |].
  exact (proj2 (@profile_path_is_one_segment (lit "/octocat/")
                                             (lit "octocat")) H).
Defined.

Lemma validate_accepts_witness :
  strip profile_url <> []
  /\ urlparse_profile profile_url = Some (lit "GitHub.com", lit "/octocat/")
  /\ rstrip_char 47%N (ascii_lower (lit "GitHub.com")) = lit "github.com"
  /\ validate urlparse_profile ascii_lower profile_url
     = Some (inr (lit "octocat")).
Proof.
  split; [discriminate |]. split; [reflexivity |]. split; [reflexivity |].
  apply (proj2 (@validate_accepts urlparse_profile ascii_lower profile_url
                                 (lit "octocat"))).
  split; [discriminate |].
  exists (lit "GitHub.com"), (lit "/octocat/").
  split; [reflexivity |]. split; [left; reflexivity |].
  split; [discriminate |]. split; [reflexivity |].
  exists 1, 1. reflexivity.
Defined.


Lemma job_details_drops_the_wrapper_witness :
  wrapped_reply
  = lit "Here it is: "
    ++ (123%N :: ([34%N] ++ lit "role" ++ [34%N] ++ lit ": 1") ++ [125%N])
    ++ lit " Done."
  /\ json_str wrapped_reply
     = 123%N :: ([34%N] ++ lit "role" ++ [34%N] ++ lit ": 1") ++ [125%N]
  /\ job_details wrapped_reply
     = Some (PDict [(lit "role", PInt 1)]).
Proof.
  split; [reflexivity |].
  destruct (@job_details_drops_the_wrapper
              (lit "Here it is: ")
              ([34%N] ++ lit "role" ++ [34%N] ++ lit ": 1")
              (lit " Done.") 123%N 125%N
              eq_refl eq_refl eq_refl eq_refl) as [H1 H2].
  split; [exact H1 | exact (eq_trans H2 eq_refl)].
Defined.

Lemma loads_skips_leading_white_space_witness :
  forallb is_ws [32; 10]%N = true
  /\ loads ([32; 10]%N ++ reply_number_list) = loads reply_number_list.
Proof.
  split; [reflexivity |].
  apply (@loads_skips_leading_white_space [32; 10]%N reply_number_list).
  reflexivity.
Defined.

Lemma padded_reply_parses_alike_witness :
  loads reply_number_list <> None
  /\ Mainswapnil.parse_questions ([10%N] ++ reply_number_list ++ [32; 10]%N)
     = inr [PInt 1]
  /\ Mainswapnil1.parse_questions ([10%N] ++ reply_number_list ++ [32; 10]%N)
     = inr [PInt 1].
Proof.
  assert (H : loads reply_number_list <> None) by discriminate.
  split; [exact H |].
  destruct (@padded_reply_parses_alike [10%N] reply_number_list [32; 10]%N
              eq_refl eq_refl H) as [H1 H2].
  rewrite H1, H2. split; reflexivity.
Defined.

Lemma required_inputs_need_text_witness :
  Forall (fun s => exists c, In c s /\ isspace c = false)
         [lit "u"; lit " n"; lit "o "; lit "l"; lit "k"]
  /\ inputs_missing (lit "u") (lit " n") (lit "o ") (lit "l") (lit "k")
     = false
  /\ (exists c, In c (lit " n") /\ isspace c = false)
  /\ name_check (lit " n") = None.
Proof.
  assert (H : Forall (fun s => exists c, In c s /\ isspace c = false)
                     [lit "u"; lit " n"; lit "o "; lit "l"; lit "k"]).
  { repeat constructor.
    - exists 117%N. split; [left; reflexivity | reflexivity].
    - exists 110%N. split; [right; left; reflexivity | reflexivity].
    - exists 111%N. split; [left; reflexivity | reflexivity].
    - exists 108%N. split; [left; reflexivity | reflexivity].
    - exists 107%N. split; [left; reflexivity | reflexivity]. }
  assert (N : exists c, In c (lit " n") /\ isspace c = false).
  { exists 110%N. split; [right; left; reflexivity | reflexivity]. }
  destruct (@required_inputs_need_text (lit "u") (lit " n") (lit "o ")
                                      (lit "l") (lit "k")) as [H1 H2].
  split; [exact H |]. split; [exact (proj2 H1 H) |].
  split; [exact N | exact (proj2 H2 N)].
Defined.

Lemma mixed_questions_come_back : Forall comes_back mixed_questions.
Proof.
  assert (P : forall s, plain_text (lit s)).
  { intros s. apply JsonFacts.unicode_text_plain; unfold lit;
      induction (list_ascii_of_string s) as [| a l IH]; cbn [List.map].
    - constructor.
    - constructor; [| exact IH].
      pose proof (N_ascii_bounded a). unfold MAXUNICODE1. lia.
    - reflexivity.
    - unfold no_surrogates in *. cbn [forallb]. rewrite IH.
      pose proof (N_ascii_bounded a) as Ha.
      unfold is_high_surrogate, is_low_surrogate.
      assert (H1 : (0xd800 <=? N_of_ascii a)%N = false)
        by (apply N.leb_gt; lia).
      assert (H2 : (0xdc00 <=? N_of_ascii a)%N = false)
        by (apply N.leb_gt; lia).
      rewrite H1, H2. reflexivity. }
  unfold mixed_questions. constructor; [| constructor; [| constructor]].
  - split; exact I.
  - split; cbn [plain_values distinct_keys List.map fold_right].
    + split; [apply P |]. split; [exact I |]. split; exact I.
    + split; [exact I |]. split; [exact I |]. split; exact I.
  - split; cbn [plain_values distinct_keys List.map fold_right fst].
    + split; [| exact I]. split; [apply P | exact I].
    + split; [| split; exact I].
      constructor; [intros [] | constructor].
  - constructor.
Qed.

Lemma mixed_texts_plain : Forall plain_text mixed_texts.
Proof.
  unfold mixed_texts.
  constructor; [| constructor; [| constructor; [| constructor]]];
    apply JsonFacts.unicode_text_plain; try reflexivity;
    repeat constructor.
Qed.

Lemma export_of_any_questions_round_trip_witness :
  answers mixed_session = answered mixed_questions mixed_texts
  /\ loads (export_json no_floats mixed_session)
     = Some (PList (answers mixed_session)).
Proof.
  split; [reflexivity |].
  apply (@export_of_any_questions_round_trip no_floats mixed_questions
           mixed_texts mixed_session eq_refl mixed_questions_come_back
           mixed_texts_plain).
Defined.

Lemma parsed_questions_parse_again_witness :
  Mainswapnil.parse_questions reply_number_list = inr [PInt 1]
  /\ Mainswapnil1.parse_questions reply_number_list = inr [PInt 1]
  /\ Mainswapnil.parse_questions (dumps no_floats (Some 4) (PList [PInt 1]))
     = inr [PInt 1]
  /\ Mainswapnil1.parse_questions (dumps no_floats (Some 4) (PList [PInt 1]))
     = inr [PInt 1].
Proof.
  assert (P : plain_values (PList [PInt 1])) by (split; exact I).
  destruct (@parsed_questions_parse_again no_floats (Some 4)
              reply_number_list [PInt 1] P) as [H1 H2].
  split; [reflexivity |]. split; [reflexivity |].
  split; [apply H1 | apply H2]; reflexivity.
Defined.

Lemma decoded_dicts_have_distinct_keys_witness :
  loads reply_repeated_name
  = Some (PDict [(lit "a", PInt 3); (lit "b", PInt 2)])
  /\ distinct_keys (PDict [(lit "a", PInt 3); (lit "b", PInt 2)]).
Proof.
  assert (H : loads reply_repeated_name
              = Some (PDict [(lit "a", PInt 3); (lit "b", PInt 2)]))
    by reflexivity.
  split; [exact H |].
  exact (@decoded_dicts_have_distinct_keys reply_repeated_name _ H).
Defined.

Lemma export_is_ascii_witness :
  (forall x : pystr, forallb export_char (lit "1.5") = true)
  /\ forallb export_char (export_json (fun _ => lit "1.5") mixed_session)
     = true.
Proof.
  split; [reflexivity |].
  apply (@export_is_ascii (fun _ => lit "1.5") mixed_session). reflexivity.
Defined.

Lemma answer_boxes_have_own_keys_witness :
  In (st_text_area (lit "Your Answer") (lit "ans_0"))
     (page_of (Mainswapnil.qa_loop no_floats idle
                 (mkSession two_questions [] 0)))
  /\ In (st_text_area (lit "Your Answer") (lit "ans_0"))
        (page_of (Mainswapnil1.qa_loop no_floats None (submit (lit "A1"))
                    (mkSession mixed_questions [] 0)))
  /\ idx (mkSession two_questions [] 0) = idx (mkSession mixed_questions [] 0).
Proof.
  assert (H1 : In (st_text_area (lit "Your Answer") (lit "ans_0"))
                  (page_of (Mainswapnil.qa_loop no_floats idle
                              (mkSession two_questions [] 0))))
    by (right; right; left; reflexivity).
  assert (H2 : In (st_text_area (lit "Your Answer") (lit "ans_0"))
                  (page_of (Mainswapnil1.qa_loop no_floats None
                              (submit (lit "A1"))
                              (mkSession mixed_questions [] 0))))
    by (right; right; left; reflexivity).
  split; [exact H1 |]. split; [exact H2 |].
  exact (@answer_boxes_have_own_keys no_floats None idle (submit (lit "A1"))
           (mkSession two_questions [] 0) (mkSession mixed_questions [] 0)
           (lit "Your Answer") (lit "Your Answer") (lit "ans_0")
           (or_introl H1) (or_intror H2)).
Defined.

(** With a generator that cannot render, the completed page of
    mainswapnil1.py raises and offers no download. *)
Lemma json_download_follows_the_pdf_witness :
  phase answered_session = Completed
  /\ control_of (Mainswapnil1.qa_loop no_floats (Some failing_render) idle
                   answered_session) = Raised
  /\ ~ In (json_button no_floats answered_session)
         (page_of (Mainswapnil1.qa_loop no_floats (Some failing_render) idle
                     answered_session)).
Proof.
  split; [reflexivity |]. split; [reflexivity |].
  destruct (@json_download_follows_the_pdf no_floats (Some failing_render)
              idle answered_session eq_refl) as (_ & _ & _ & H).
  apply (H eq_refl).
Defined.

Lemma completed_means_all_answered_witness :
  let ws := generate reply_number_list :: [submit (lit "A1")] in
  questions (run_all (Mainswapnil.script no_floats) ws session_defaults)
  <> []
  /\ phase (run_all (Mainswapnil.script no_floats) ws session_defaults)
     = Completed
  /\ phase (run_all (Mainswapnil1.script no_floats None) ws session_defaults)
     = Completed.
Proof.
  cbv zeta.
  destruct (@completed_means_all_answered no_floats None
              (generate reply_number_list :: [submit (lit "A1")]))
    as [H1 H2].
  split; [discriminate |].
  split; [apply (proj2 H1) | apply (proj2 H2)];
    (split; [discriminate | reflexivity]).
Defined.

End FurtherRuns.
